(** * SimpleWebSocketAPI: a shallow embedding of the request/reply endpoint

    The development embeds the latest revision of the class
    [SimpleWebSocketAPI] (the one with [isClosed], [destroyOnClose] and the
    [SimpleWebSocketAPI_Error] class) as state-passing Rocq functions and
    proves properties of its correlation and dispatch protocol.  The [send]
    of the revision before it is embedded beside it, in the module
    [Earlier].

    The endpoint is a JavaScript object driven by callbacks.  Its private
    fields, the [EventEmitter] registry it inherits, the transports it was
    given, the timers it armed and the promises it handed out form one
    record; a method is a computation in a state-and-exception monad over
    that record.  Everything the endpoint does to the outside (frames handed
    to a transport, listeners called, console output) is appended to a log. *)

From Stdlib Require Import ZArith String Ascii List Bool Lia.
From stdpp Require Import base option list gmap strings pretty fin_maps.

Open Scope Z_scope.
Set Warnings "-register-all".

(** ** JavaScript values *)

Inductive BinaryKind := ArrayBuffer | BufferView | Blob.

(** The values that cross the interface of the endpoint.  The functions
    among them are the reply helpers the class hands out and the thunks a
    caller gives to a reply helper; a thunk or a thenable is described by
    what awaiting it gives. *)
Inductive Value :=
| VUndefined
| VNull
| VBool (b : bool)
| VNumber (n : Z)
| VString (s : string)
| VArray (items : list Value)
| VObject (fields : list (string * Value))
| VBinary (kind : BinaryKind) (bytes : list Byte.byte)
| VError (name : string) (code : option string) (message : string)
| VThenable (rejects : bool) (outcome : Value)
| VFunction (f : Closure)
with Closure :=
| ReplyFunc (id : Value)                (* the async closure #replyFunc(id) returns *)
| UserThunk (throws : bool) (outcome : Value).

(** The closures the class creates and keeps to itself. *)
Inductive Private :=
| PromiseReject (p : nat)               (* the reject function of promise p *)
| ResolveWrapper (timeout p : nat)      (* result => {clearTimeout(timeout); resolve(result)} *)
| RejectWrapper (timeout p : nat)       (* error => {clearTimeout(timeout); reject(error)} *)
| BoundEmit.                            (* this.emit.bind(this) *)

(** What a private field or an argument of a platform function holds. *)
Inductive Any :=
| Pub (v : Value)
| Priv (f : Private).

Definition dq : string := String "034"%char EmptyString.

Definition typeof (v : Value) : string :=
  match v with
  | VUndefined => "undefined"
  | VBool _ => "boolean"
  | VNumber _ => "number"
  | VString _ => "string"
  | VFunction _ => "function"
  | _ => "object"
  end.

Definition truthy (v : Value) : bool :=
  match v with
  | VUndefined | VNull => false
  | VBool b => b
  | VNumber n => negb (n =? 0)
  | VString s => negb (String.eqb s "")
  | _ => true
  end.

Definition truthyAny (a : Any) : bool :=
  match a with Pub v => truthy v | Priv _ => true end.

Definition isFunction (a : Any) : bool :=
  match a with Pub (VFunction _) | Priv _ => true | _ => false end.

(** [payload instanceof ArrayBuffer || ArrayBuffer.isView(payload) ||
    payload instanceof Blob] *)
Definition isBinary (v : Value) : bool :=
  match v with VBinary _ _ => true | _ => false end.

Definition join_items (elem : Value -> string) : list Value -> string :=
  fix go l :=
    match l with
    | [] => ""
    | [x] => elem x
    | x :: l' => elem x +:+ "," +:+ go l'
    end.

(** String conversion, as string concatenation, template literals and
    property keys apply it.  It is ECMAScript's ToString on the values
    [JSON.parse] produces (integers print in decimal); an object that is not
    an array prints its class tag. *)
Fixpoint ToString (v : Value) : string :=
  match v with
  | VUndefined => "undefined"
  | VNull => "null"
  | VBool b => if b then "true" else "false"
  | VNumber n => pretty n
  | VString s => s
  | VArray items =>
      join_items (fun x => match x with
                           | VUndefined | VNull => ""
                           | _ => ToString x
                           end) items
  | VObject _ => "[object Object]"
  | VBinary ArrayBuffer _ => "[object ArrayBuffer]"
  | VBinary BufferView _ => "[object DataView]"
  | VBinary Blob _ => "[object Blob]"
  | VError name _ message => name +:+ ": " +:+ message
  | VThenable _ _ => "[object Promise]"
  | VFunction _ => "function"
  end.

Fixpoint assoc (key : string) (fields : list (string * Value)) : Value :=
  match fields with
  | [] => VUndefined
  | (k, v) :: rest => if String.eqb k key then v else assoc key rest
  end.

(** Property read [v.key] on a value that is neither null nor undefined. *)
Definition getProp (key : string) (v : Value) : Value :=
  match v with
  | VObject fields => assoc key fields
  | _ => VUndefined
  end.

(** ** Errors *)

(** [new SimpleWebSocketAPI_Error(message, code = 'INVALID_PARAMETER')] *)
Definition SimpleWebSocketAPI_Error (message : string) (code : option string) : Value :=
  VError "SimpleWebSocketAPI_Error"
         (Some (match code with Some c => c | None => "INVALID_PARAMETER" end))
         message.

Definition TypeError (message : string) : Value := VError "TypeError" None message.
Definition SyntaxError (message : string) : Value := VError "SyntaxError" None message.

(** ** The world of the endpoint *)

Inductive Host := NodeJS | Browser.

(*  const CONNECTING = 0,  OPEN = 1,  CLOSING = 2,  CLOSED = 3 *)
Definition CONNECTING : Z := 0.
Definition OPEN : Z := 1.
Definition CLOSING : Z := 2.
Definition CLOSED : Z := 3.

(** A transport object: its state, the [binaryType] written to it and the
    endpoint's listeners attached to it, each with its [once] option. *)
Record Socket := mkSocket {
  readyState : Z;
  binaryType : option string;
  attached : list (string * bool)
}.

(** What was handed to [ws.send]: the text [JSON.stringify(value, replacer)]
    or a binary payload. *)
Inductive Frame :=
| JSON_stringify (value replacer : Value)
| BinaryFrame (kind : BinaryKind) (bytes : list Byte.byte).

(** What a [message] event carries in [data]. *)
Inductive Data :=
| TextData (text : string)
| BinaryData (kind : BinaryKind) (bytes : list Byte.byte).

Inductive TimerHandler :=
| CallFunction (f : Any)
| RunScript (source : string).

Record Timer := mkTimer {
  handler : TimerHandler;
  delay : Any;
  targs : list Value
}.

Inductive PromiseState :=
| Pending
| Fulfilled (v : Value)
| Rejected (e : Value).

(** An entry of [#awaitingReply]: the object [{resolve, reject}]. *)
Record AwaitingReply := mkAwaiting {
  resolve : Any;
  reject : Any
}.

Inductive ListenerBody :=
| UserListener (n : nat)     (* a subscriber's function, known by a number *)
| CloseHandler.              (* the one-shot close handler of changeWebSocket *)

Record Listener := mkListener {
  reg : nat;
  event : string;
  once : bool;
  body : ListenerBody
}.

Inductive Effect :=
| WsSend (h : nat) (f : Frame)
| WsClose (h : nat)
| Notify (n : nat) (event : string) (args : list Value)
| ConsoleLog (text : string) (value : Value).

Record Endpoint := mkEndpoint {
  (* the platform *)
  host : Host;
  sockets : gmap nat Socket;
  timers : gmap nat Timer;
  nextTimer : nat;
  promises : gmap nat PromiseState;
  nextPromise : nat;
  out : list Effect;
  (* EventEmitter *)
  listeners : list Listener;
  nextReg : nat;
  fired : gset nat;
  (* public fields *)
  jsonReplacer : Value;
  debug : bool;
  (* private fields *)
  ws : option nat;
  binaryTypeOption : string;
  msgId : Z;
  awaitingReply : gmap Z AwaitingReply;
  awaitingBinaryReply : Any;
  destroyOnClose : bool;
  destroyed : bool
}.

Definition set_sockets (f : gmap nat Socket -> gmap nat Socket) (st : Endpoint) : Endpoint :=
  mkEndpoint (host st) (f (sockets st)) (timers st) (nextTimer st) (promises st)
    (nextPromise st) (out st) (listeners st) (nextReg st) (fired st) (jsonReplacer st)
    (debug st) (ws st) (binaryTypeOption st) (msgId st) (awaitingReply st)
    (awaitingBinaryReply st) (destroyOnClose st) (destroyed st).

Definition set_timers (f : gmap nat Timer -> gmap nat Timer) (st : Endpoint) : Endpoint :=
  mkEndpoint (host st) (sockets st) (f (timers st)) (nextTimer st) (promises st)
    (nextPromise st) (out st) (listeners st) (nextReg st) (fired st) (jsonReplacer st)
    (debug st) (ws st) (binaryTypeOption st) (msgId st) (awaitingReply st)
    (awaitingBinaryReply st) (destroyOnClose st) (destroyed st).

Definition set_nextTimer (n : nat) (st : Endpoint) : Endpoint :=
  mkEndpoint (host st) (sockets st) (timers st) n (promises st)
    (nextPromise st) (out st) (listeners st) (nextReg st) (fired st) (jsonReplacer st)
    (debug st) (ws st) (binaryTypeOption st) (msgId st) (awaitingReply st)
    (awaitingBinaryReply st) (destroyOnClose st) (destroyed st).

Definition set_promises (f : gmap nat PromiseState -> gmap nat PromiseState) (st : Endpoint) : Endpoint :=
  mkEndpoint (host st) (sockets st) (timers st) (nextTimer st) (f (promises st))
    (nextPromise st) (out st) (listeners st) (nextReg st) (fired st) (jsonReplacer st)
    (debug st) (ws st) (binaryTypeOption st) (msgId st) (awaitingReply st)
    (awaitingBinaryReply st) (destroyOnClose st) (destroyed st).

Definition set_nextPromise (n : nat) (st : Endpoint) : Endpoint :=
  mkEndpoint (host st) (sockets st) (timers st) (nextTimer st) (promises st)
    n (out st) (listeners st) (nextReg st) (fired st) (jsonReplacer st)
    (debug st) (ws st) (binaryTypeOption st) (msgId st) (awaitingReply st)
    (awaitingBinaryReply st) (destroyOnClose st) (destroyed st).

Definition set_out (f : list Effect -> list Effect) (st : Endpoint) : Endpoint :=
  mkEndpoint (host st) (sockets st) (timers st) (nextTimer st) (promises st)
    (nextPromise st) (f (out st)) (listeners st) (nextReg st) (fired st) (jsonReplacer st)
    (debug st) (ws st) (binaryTypeOption st) (msgId st) (awaitingReply st)
    (awaitingBinaryReply st) (destroyOnClose st) (destroyed st).

Definition set_listeners (f : list Listener -> list Listener) (st : Endpoint) : Endpoint :=
  mkEndpoint (host st) (sockets st) (timers st) (nextTimer st) (promises st)
    (nextPromise st) (out st) (f (listeners st)) (nextReg st) (fired st) (jsonReplacer st)
    (debug st) (ws st) (binaryTypeOption st) (msgId st) (awaitingReply st)
    (awaitingBinaryReply st) (destroyOnClose st) (destroyed st).

Definition set_nextReg (n : nat) (st : Endpoint) : Endpoint :=
  mkEndpoint (host st) (sockets st) (timers st) (nextTimer st) (promises st)
    (nextPromise st) (out st) (listeners st) n (fired st) (jsonReplacer st)
    (debug st) (ws st) (binaryTypeOption st) (msgId st) (awaitingReply st)
    (awaitingBinaryReply st) (destroyOnClose st) (destroyed st).

Definition set_fired (f : gset nat -> gset nat) (st : Endpoint) : Endpoint :=
  mkEndpoint (host st) (sockets st) (timers st) (nextTimer st) (promises st)
    (nextPromise st) (out st) (listeners st) (nextReg st) (f (fired st)) (jsonReplacer st)
    (debug st) (ws st) (binaryTypeOption st) (msgId st) (awaitingReply st)
    (awaitingBinaryReply st) (destroyOnClose st) (destroyed st).

Definition set_jsonReplacer (v : Value) (st : Endpoint) : Endpoint :=
  mkEndpoint (host st) (sockets st) (timers st) (nextTimer st) (promises st)
    (nextPromise st) (out st) (listeners st) (nextReg st) (fired st) v
    (debug st) (ws st) (binaryTypeOption st) (msgId st) (awaitingReply st)
    (awaitingBinaryReply st) (destroyOnClose st) (destroyed st).

Definition set_debug (b : bool) (st : Endpoint) : Endpoint :=
  mkEndpoint (host st) (sockets st) (timers st) (nextTimer st) (promises st)
    (nextPromise st) (out st) (listeners st) (nextReg st) (fired st) (jsonReplacer st)
    b (ws st) (binaryTypeOption st) (msgId st) (awaitingReply st)
    (awaitingBinaryReply st) (destroyOnClose st) (destroyed st).

Definition set_ws (w : option nat) (st : Endpoint) : Endpoint :=
  mkEndpoint (host st) (sockets st) (timers st) (nextTimer st) (promises st)
    (nextPromise st) (out st) (listeners st) (nextReg st) (fired st) (jsonReplacer st)
    (debug st) w (binaryTypeOption st) (msgId st) (awaitingReply st)
    (awaitingBinaryReply st) (destroyOnClose st) (destroyed st).

Definition set_msgId (n : Z) (st : Endpoint) : Endpoint :=
  mkEndpoint (host st) (sockets st) (timers st) (nextTimer st) (promises st)
    (nextPromise st) (out st) (listeners st) (nextReg st) (fired st) (jsonReplacer st)
    (debug st) (ws st) (binaryTypeOption st) n (awaitingReply st)
    (awaitingBinaryReply st) (destroyOnClose st) (destroyed st).

Definition set_awaitingReply (f : gmap Z AwaitingReply -> gmap Z AwaitingReply) (st : Endpoint) : Endpoint :=
  mkEndpoint (host st) (sockets st) (timers st) (nextTimer st) (promises st)
    (nextPromise st) (out st) (listeners st) (nextReg st) (fired st) (jsonReplacer st)
    (debug st) (ws st) (binaryTypeOption st) (msgId st) (f (awaitingReply st))
    (awaitingBinaryReply st) (destroyOnClose st) (destroyed st).

Definition set_awaitingBinaryReply (v : Any) (st : Endpoint) : Endpoint :=
  mkEndpoint (host st) (sockets st) (timers st) (nextTimer st) (promises st)
    (nextPromise st) (out st) (listeners st) (nextReg st) (fired st) (jsonReplacer st)
    (debug st) (ws st) (binaryTypeOption st) (msgId st) (awaitingReply st)
    v (destroyOnClose st) (destroyed st).

Definition set_destroyed (b : bool) (st : Endpoint) : Endpoint :=
  mkEndpoint (host st) (sockets st) (timers st) (nextTimer st) (promises st)
    (nextPromise st) (out st) (listeners st) (nextReg st) (fired st) (jsonReplacer st)
    (debug st) (ws st) (binaryTypeOption st) (msgId st) (awaitingReply st)
    (awaitingBinaryReply st) (destroyOnClose st) b.

(** ** The monad of methods: state and exceptions *)

Inductive Outcome (A : Type) :=
| Return (a : A)
| Throw (e : Value).
Arguments Return {A} a.
Arguments Throw {A} e.

Definition M (A : Type) : Type := Endpoint -> Outcome A * Endpoint.

Definition ret {A} (a : A) : M A := fun st => (Return a, st).
Definition throw {A} (e : Value) : M A := fun st => (Throw e, st).
Definition bind {A B} (m : M A) (k : A -> M B) : M B :=
  fun st => match m st with
            | (Return a, st') => k a st'
            | (Throw e, st') => (Throw e, st')
            end.
Definition try_catch {A} (m : M A) (h : Value -> M A) : M A :=
  fun st => match m st with
            | (Return a, st') => (Return a, st')
            | (Throw e, st') => h e st'
            end.
Definition gets {A} (f : Endpoint -> A) : M A := fun st => (Return (f st), st).
Definition modify (f : Endpoint -> Endpoint) : M unit := fun st => (Return tt, f st).

Declare Scope js_scope.
Delimit Scope js_scope with js.
Notation "x ← y ; z" := (bind y (fun x => z))
  (at level 20, y at level 100, z at level 200, only parsing) : js_scope.
Notation "x ;; z" := (bind x (fun _ => z))
  (at level 100, z at level 200, only parsing, right associativity) : js_scope.
Open Scope js_scope.

Definition when (b : bool) (m : M unit) : M unit := if b then m else ret tt.

(** ** Platform primitives *)

Definition effect (e : Effect) : M unit := modify (set_out (fun l => l ++ [e])).

(** [this.debug?.(text, value)]: [debug] is [null] or the console writer. *)
Definition debugLog (text : string) (value : Value) : M unit :=
  d ← gets debug;
  when d (effect (ConsoleLog text value)).

Definition arm (t : Timer) : M nat :=
  n ← gets nextTimer;
  modify (set_timers (insert n t));;
  modify (set_nextTimer (S n));;
  ret n.

(** [setTimeout(handler, delay, ...args)].  Node refuses a handler that is
    not a function; a browser compiles its string conversion as a script, to
    be run when the timer fires, and ignores [args]. *)
Definition setTimeout (handler delay : Any) (args : list Value) : M nat :=
  if isFunction handler then arm (mkTimer (CallFunction handler) delay args)
  else
      h ← gets host;
      match h with
      | NodeJS =>
          throw (VError "TypeError" (Some "ERR_INVALID_ARG_TYPE")
                   ("The " +:+ dq +:+ "callback" +:+ dq +:+
                    " argument must be of type function."))
      | Browser =>
          arm (mkTimer (RunScript (match handler with
                                   | Pub v => ToString v
                                   | Priv _ => ""
                                   end)) delay args)
      end.

Definition clearTimeout (t : nat) : M unit := modify (set_timers (delete t)).

(** [new Promise(...)]: a fresh pending promise. *)
Definition newPromise : M nat :=
  p ← gets nextPromise;
  modify (set_promises (insert p Pending));;
  modify (set_nextPromise (S p));;
  ret p.

(** A promise is settled once: later calls of its functions do nothing. *)
Definition settled (p : nat) (s : PromiseState) (ps : gmap nat PromiseState)
  : gmap nat PromiseState :=
  match ps !! p with
  | Some Pending => <[p := s]> ps
  | _ => ps
  end.

Definition settle (p : nat) (s : PromiseState) : M unit :=
  modify (set_promises (settled p s)).

(** What resolving a promise with [v] settles it to: a thenable is
    followed. *)
Definition resolution (v : Value) : PromiseState :=
  match v with
  | VThenable true e => Rejected e
  | VThenable false r => Fulfilled r
  | _ => Fulfilled v
  end.

(** The [resolve] function of promise [p]. *)
Definition promiseResolve (p : nat) (v : Value) : M unit := settle p (resolution v).

Definition promiseReject (p : nat) (e : Value) : M unit := settle p (Rejected e).

Definition arg0 (args : list Value) : Value :=
  match args with [] => VUndefined | v :: _ => v end.

(** [this.#ws?.readyState] *)
Definition ws_readyState (st : Endpoint) : Value :=
  match ws st with
  | None => VUndefined
  | Some h =>
      match sockets st !! h with
      | Some s => VNumber (readyState s)
      | None => VUndefined
      end
  end.

(** [v == n] for a number [n]; a ready state is a number or undefined. *)
Definition looseEqNumber (v : Value) (n : Z) : bool :=
  match v with VNumber m => m =? n | _ => false end.

Definition isOpen (st : Endpoint) : bool := looseEqNumber (ws_readyState st) OPEN.
Definition isClosed (st : Endpoint) : bool := looseEqNumber (ws_readyState st) CLOSED.

Definition ws_send (f : Frame) : M unit :=
  w ← gets ws;
  match w with
  | Some h => effect (WsSend h f)
  | None => throw (TypeError "Cannot read properties of undefined (reading 'send')")
  end.

(** [ws.close()]: an open or connecting transport starts closing. *)
Definition ws_close (h : nat) : M unit :=
  modify (set_sockets (alter (fun s =>
    mkSocket (if readyState s =? CLOSED then CLOSED else CLOSING)
             (binaryType s) (attached s)) h));;
  effect (WsClose h).

(** The keys of [#wsListeners], in the order of [Object.entries]. *)
Definition wsListenerEvents : list string := ["open"; "error"; "close"; "message"].

Definition removeEventListener (h : nat) (ev : string) : M unit :=
  modify (set_sockets (alter (fun s =>
    mkSocket (readyState s) (binaryType s)
             (filter (fun a => a.1 ≠ ev) (attached s))) h)).

(** Adding a listener that is already attached does nothing. *)
Definition addEventListener (h : nat) (ev : string) (once : bool) : M unit :=
  modify (set_sockets (alter (fun s =>
    mkSocket (readyState s) (binaryType s)
             (if bool_decide (ev ∈ (attached s).*1) then attached s
              else attached s ++ [(ev, once)])) h)).

Fixpoint forEach {A} (f : A -> M unit) (l : list A) : M unit :=
  match l with
  | [] => ret tt
  | x :: l' => f x;; forEach f l'
  end.

(** ** The inherited EventEmitter *)

Definition addListener (ev : string) (once : bool) (b : ListenerBody) : M unit :=
  n ← gets nextReg;
  modify (set_listeners (fun ls => ls ++ [mkListener n ev once b]));;
  modify (set_nextReg (S n)).

Definition removeAllListeners : M unit := modify (set_listeners (fun _ => [])).

Definition unregister (r : nat) : M unit :=
  modify (set_listeners (filter (fun l => reg l ≠ r))).

(** ** The class *)

(**
<<
  #removeWsListeners() {
    if (this.#ws) {
      for (const [event, listener] of Object.entries(this.#wsListeners)) {
        this.#ws.removeEventListener(event, listener)
      }
    }
  }
>> *)
Definition removeWsListeners : M unit :=
  w ← gets ws;
  match w with
  | Some h => forEach (removeEventListener h) wsListenerEvents
  | None => ret tt
  end.

(** The handler [changeWebSocket] registers with [this.once('close', ...)]:
<<
      this.#removeWsListeners()
      if (this.#destroyOnClose) this.destroy()
>>
    [destroy] is the method it calls. *)
Definition closeHandler (destroy : M unit) : M unit :=
  removeWsListeners;;
  d ← gets destroyOnClose;
  when d destroy.

(** One listener of the array [emit] iterates over.  A once-listener removes
    itself before it runs and runs at most once. *)
Definition invoke (destroy : M unit) (args : list Value) (l : Listener) : M unit :=
  let run :=
    match body l with
    | UserListener n => effect (Notify n (event l) args)
    | CloseHandler => closeHandler destroy
    end in
  if once l then
    f ← gets fired;
    if bool_decide (reg l ∈ f) then ret tt
    else modify (set_fired (fun s => {[reg l]} ∪ s));; unregister (reg l);; run
  else run.

(** [emit(name, ...args)]: calls the listeners registered for [name], in
    order of registration, and tells whether there were any.  An [error]
    event without listener is thrown. *)
Definition emit_with (destroy : M unit) (name : string) (args : list Value) : M bool :=
  ls ← gets (fun st => filter (fun l => event l = name) (listeners st));
  match ls with
  | [] =>
      if String.eqb name "error" then
        match args with
        | VError n c m :: _ => throw (VError n c m)
        | _ => throw (VError "Error" (Some "ERR_UNHANDLED_ERROR") "Unhandled error.")
        end
      else ret false
  | _ => forEach (invoke destroy args) ls;; ret true
  end.

(**
<<
  destroy() {
    if (this.#destroyed) return
    this.#destroyed = true
    this.#awaitingReply.clear()
    if (this.#ws && this.#ws.readyState != CLOSED) {
      this.#ws.close()
      this.emit('close', {code: 4000, reason: 'SimpleWebSocketAPI destroy call', wasClean: true})
    }
    this.removeAllListeners() // remove own listeners
  }
>>
    [self] is the method itself, as the close handler calls it from inside
    [emit]. *)
Definition destroy_with (self : M unit) : M unit :=
  d ← gets destroyed;
  if d then ret tt else
  modify (set_destroyed true);;
  modify (set_awaitingReply (fun _ => ∅));;
  w ← gets ws;
  rs ← gets ws_readyState;
  match w with
  | Some h =>
      when (negb (looseEqNumber rs CLOSED))
        (ws_close h;;
         _ ← emit_with self "close"
               [VObject [("code", VNumber 4000);
                         ("reason", VString "SimpleWebSocketAPI destroy call");
                         ("wasClean", VBool true)]];
         ret tt)
  | None => ret tt
  end;;
  removeAllListeners.

(** [destroy] calls [emit], whose close handler calls [destroy]: that inner
    call finds [#destroyed] set and returns at its first line, so two
    unfoldings of the method tie the knot ([destroy_unfold] below). *)
Definition destroy : M unit := destroy_with (destroy_with (ret tt)).

Definition emit : string -> list Value -> M bool := emit_with destroy.

(** [this.#msgId ++] on a JavaScript number: exact below 2^53, where the
    doubles stop holding every integer and [2^53 + 1] rounds back to
    [2^53]. *)
Definition MAX_EXACT : Z := 2 ^ 53.
Definition increment (n : Z) : Z := if n <? MAX_EXACT then n + 1 else n.

Definition reservedEvents : list string :=
  ["open"; "close"; "error"; "newListener"; "removeListener"].

Definition replyTimeoutMessage (cmd : string) (replyTimeout : Value) : string :=
  "A reply for " +:+ dq +:+ cmd +:+ dq +:+
  " was not received within the replyTimeout period of " +:+
  ToString replyTimeout +:+ " ms.".

Definition replyTimeoutError (cmd : string) (replyTimeout : Value) : Value :=
  SimpleWebSocketAPI_Error (replyTimeoutMessage cmd replyTimeout) (Some "REPLY_TIMEOUT").

(** A parameter with a default value: the default stands in for
    [undefined]. *)
Definition orDefault (v d : Value) : Value :=
  match v with VUndefined => d | _ => v end.

Definition envelope (cmd payload id : Value) : Value :=
  VObject [("cmd", cmd); ("payload", payload); ("id", id)].

(**
<<
  send(cmd, payload, replyTimeout = 2000) {
    if (this.#destroyed || this.#ws?.readyState != OPEN) return
    if (typeof cmd != 'string') throw new SimpleWebSocketAPI_Error(`cmd must be a string.`)
    if (cmd.startsWith('int:')) throw new SimpleWebSocketAPI_Error(...)
    if (['open','close','error','newListener','removeListener'].includes(cmd)) throw ...
    const id = this.#msgId ++
    this.debug?.('outgoing', {cmd, payload, id})
    this.#ws.send(JSON.stringify({cmd, payload, id}, this.jsonReplacer))
    return new Promise((resolve, reject) => {
      const timeout = setTimeout(reject, replyTimeout, new SimpleWebSocketAPI_Error(..., 'REPLY_TIMEOUT'))
      this.#awaitingReply.set(id, {
        resolve: result => {clearTimeout(timeout); resolve(result)},
        reject: error => {clearTimeout(timeout); reject(error)}
      })
    })
  }
>>
    The result is [None] for [undefined] and [Some p] for the promise. *)
Definition send (cmd payload replyTimeout : Value) : M (option nat) :=
  let replyTimeout := orDefault replyTimeout (VNumber 2000) in
  d ← gets destroyed;
  rs ← gets ws_readyState;
  if d || negb (looseEqNumber rs OPEN) then ret None else
  match cmd with
  | VString c =>
      if String.prefix "int:" c then
        throw (SimpleWebSocketAPI_Error
                 ("Only internal commands can start with " +:+ dq +:+ "int:" +:+ dq +:+ ".")
                 None)
      else if bool_decide (c ∈ reservedEvents) then
        throw (SimpleWebSocketAPI_Error
                 ("A command can not be named " +:+ c +:+
                  " because that's an event emitted by this class.")
                 None)
      else
        id ← gets msgId;
        modify (set_msgId (increment id));;
        debugLog "outgoing" (envelope cmd payload (VNumber id));;
        r ← gets jsonReplacer;
        ws_send (JSON_stringify (envelope cmd payload (VNumber id)) r);;
        p ← newPromise;
        timeout ← setTimeout (Priv (PromiseReject p)) (Pub replyTimeout)
                    [replyTimeoutError c replyTimeout];
        modify (set_awaitingReply
                  (insert id (mkAwaiting (Priv (ResolveWrapper timeout p))
                                         (Priv (RejectWrapper timeout p)))));;
        ret (Some p)
  | _ => throw (SimpleWebSocketAPI_Error "cmd must be a string." None)
  end.

(**
<<
  #reply(id, payload, isError) {
    if (this.#destroyed || this.#ws?.readyState != OPEN) return
    this.debug?.('outgoing', {cmd: isError ? 'int:errorReply' : 'int:reply', payload, id})
    if (payload instanceof ArrayBuffer || ArrayBuffer.isView(payload) || payload instanceof Blob) {
      if (isError) throw new SimpleWebSocketAPI_Error(`Can't send a binary error reply.`)
      this.#ws.send(JSON.stringify({cmd: 'int:binaryReply', id}, this.jsonReplacer))
      this.#ws.send(payload)
    } else {
      this.#ws.send(JSON.stringify({cmd: isError ? 'int:errorReply' : 'int:reply', payload, id}, this.jsonReplacer))
    }
  }
>> *)
Definition replyTag (isError : Value) : Value :=
  VString (if truthy isError then "int:errorReply" else "int:reply").

Definition reply (id payload isError : Value) : M unit :=
  d ← gets destroyed;
  rs ← gets ws_readyState;
  if d || negb (looseEqNumber rs OPEN) then ret tt else
  debugLog "outgoing" (envelope (replyTag isError) payload id);;
  r ← gets jsonReplacer;
  match payload with
  | VBinary kind bytes =>
      if truthy isError then
        throw (SimpleWebSocketAPI_Error "Can't send a binary error reply." None)
      else
        ws_send (JSON_stringify (VObject [("cmd", VString "int:binaryReply"); ("id", id)]) r);;
        ws_send (BinaryFrame kind bytes)
  | _ => ws_send (JSON_stringify (envelope (replyTag isError) payload id) r)
  end.

(** Calling one of the closures the class keeps to itself. *)
Definition applyPrivate (f : Private) (args : list Value) : M Value :=
  match f with
  | PromiseReject p => promiseReject p (arg0 args);; ret VUndefined
  | ResolveWrapper timeout p =>
      clearTimeout timeout;; promiseResolve p (arg0 args);; ret VUndefined
  | RejectWrapper timeout p =>
      clearTimeout timeout;; promiseReject p (arg0 args);; ret VUndefined
  | BoundEmit =>
      b ← emit (ToString (arg0 args)) (tail args);
      ret (VBool b)
  end.

(** [await v]: a rejected thenable is thrown at the [await]. *)
Definition await (v : Value) : M Value :=
  match v with
  | VThenable true e => throw e
  | VThenable false r => ret r
  | _ => ret v
  end.

(** [payload()] for a payload that is a function.  A reply helper called
    without arguments replies [undefined] and returns a promise of
    [undefined]. *)
Definition callThunk (f : Closure) : M Value :=
  match f with
  | UserThunk true e => throw e
  | UserThunk false r => ret r
  | ReplyFunc id' =>
      reply id' VUndefined VUndefined;; ret (VThenable false VUndefined)
  end.

(**
<<
  #replyFunc(id) {
    return async (payload, isError) => {
      try {
        if (typeof payload == 'function') {
          this.#reply(id, await payload(), isError)
        } else {
          this.#reply(id, await payload, isError)
        }
      } catch (error) {
        this.#reply(id, error, true)
      }
    }
  }
>>
    [replyFunc id payload isError] is the body of the closure, run from the
    call through its [await] to its end; it acts on the endpoint as it is
    when the awaited value arrives.  [Throw e] says that the promise the
    async closure returned is rejected with [e]: nothing is ever thrown to
    the caller of an async function. *)
Definition replyFunc (id payload isError : Value) : M unit :=
  try_catch
    (match payload with
     | VFunction f =>
         r ← callThunk f;
         v ← await r;
         reply id v isError
     | _ =>
         v ← await payload;
         reply id v isError
     end)
    (fun error => reply id error (VBool true)).

Definition arg1 (args : list Value) : Value := arg0 (tail args).

(** Calling a function value. *)
Definition call (f : Any) (args : list Value) : M Value :=
  match f with
  | Priv f => applyPrivate f args
  | Pub (VFunction (ReplyFunc id)) =>
      try_catch (replyFunc id (arg0 args) (arg1 args);; ret (VThenable false VUndefined))
                (fun e => ret (VThenable true e))
  | Pub (VFunction (UserThunk true e)) => throw e
  | Pub (VFunction (UserThunk false r)) => ret r
  | Pub v => throw (TypeError (ToString v +:+ " is not a function"))
  end.

(**
<<
  changeWebSocket(newWebSocket) {
    if (this.#destroyed) return
    this.#removeWsListeners()
    this.once('close', () => {
      this.#removeWsListeners()
      if (this.#destroyOnClose) this.destroy()
    })
    this.#ws = newWebSocket
    if (this.isClosed) { // if newWebSocket is already closed
      setTimeout(0, this.emit.bind(this), 'close', {code: 4001, reason: 'Socket already closed.'})
      return
    }
    this.#ws.binaryType = this.#binaryType
    for (const [event, listener] of Object.entries(this.#wsListeners)) {
      this.#ws.addEventListener(event, listener, {once: event != 'message'})
    }
    if (this.isOpen) setTimeout(0, this.emit.bind(this), 'open')
  }
>> *)
Definition socketAlreadyClosed : Value :=
  VObject [("code", VNumber 4001); ("reason", VString "Socket already closed.")].

Definition changeWebSocket (newWebSocket : nat) : M unit :=
  d ← gets destroyed;
  if d then ret tt else
  removeWsListeners;;
  addListener "close" true CloseHandler;;
  modify (set_ws (Some newWebSocket));;
  c ← gets isClosed;
  if c then
    _ ← setTimeout (Pub (VNumber 0)) (Priv BoundEmit) [VString "close"; socketAlreadyClosed];
    ret tt
  else
    bt ← gets binaryTypeOption;
    modify (set_sockets (alter (fun s =>
      mkSocket (readyState s) (Some bt) (attached s)) newWebSocket));;
    forEach (fun ev => addEventListener newWebSocket ev (negb (String.eqb ev "message")))
            wsListenerEvents;;
    o ← gets isOpen;
    if o then
      _ ← setTimeout (Pub (VNumber 0)) (Priv BoundEmit) [VString "open"];
      ret tt
    else ret tt.

(** The constructor's options and the endpoint it builds in a given world. *)
Record Options := mkOptions {
  opt_ws : option nat;
  opt_debug : bool;
  opt_jsonReplacer : Value;
  opt_binaryType : option string;
  opt_destroyOnClose : bool
}.

Definition fields (h : Host) (heap : gmap nat Socket) (o : Options) : Endpoint :=
  {| host := h; sockets := heap; timers := ∅; nextTimer := 0%nat;
     promises := ∅; nextPromise := 0%nat; out := [];
     listeners := []; nextReg := 0%nat; fired := ∅;
     jsonReplacer := opt_jsonReplacer o;
     debug := opt_debug o;
     ws := None;
     binaryTypeOption :=
       match opt_binaryType o with
       | Some b => b
       | None => match h with NodeJS => "nodebuffer" | Browser => "arraybuffer" end
       end;
     msgId := 0;
     awaitingReply := ∅;
     awaitingBinaryReply := Pub VUndefined;
     destroyOnClose := opt_destroyOnClose o;
     destroyed := false |}.

(** [new SimpleWebSocketAPI(options)]: the field initialisers, then
    [if (ws) this.changeWebSocket(ws)]. *)
Definition constructor (h : Host) (heap : gmap nat Socket) (o : Options)
  : Outcome unit * Endpoint :=
  match opt_ws o with
  | Some w => changeWebSocket w (fields h heap o)
  | None => (Return tt, fields h heap o)
  end.

(** [this.#awaitingReply.get(id)] and [.delete(id)]: the keys of the map are
    the numbers [send] put there, and a key is found by SameValueZero. *)
Definition mapGet (id : Value) (st : Endpoint) : option AwaitingReply :=
  match id with
  | VNumber n => awaitingReply st !! n
  | _ => None
  end.

Definition mapDelete (id : Value) : M unit :=
  match id with
  | VNumber n => modify (set_awaitingReply (delete n))
  | _ => ret tt
  end.

(** [const {cmd, payload, id} = v] *)
Definition destructure (v : Value) : M (Value * Value * Value) :=
  match v with
  | VUndefined | VNull =>
      throw (TypeError ("Cannot destructure property 'cmd' of 'JSON.parse(...)' as it is "
                        +:+ ToString v +:+ "."))
  | _ => ret (getProp "cmd" v, getProp "payload" v, getProp "id" v)
  end.

(** [cmd === s] for a string [s], as a [case] label compares. *)
Definition isString (cmd : Value) (s : string) : bool :=
  match cmd with
  | VString c => String.eqb c s
  | _ => false
  end.

Definition isReplyTag (cmd : Value) : bool :=
  match cmd with
  | VString s => bool_decide (s ∈ ["int:reply"; "int:errorReply"; "int:binaryReply"])
  | _ => false
  end.

Section Dispatch.

(** [JSON.parse]: [None] when it throws a [SyntaxError]. *)
Variable JSON_parse : string -> option Value.

(**
<<
  #onMessage({data}) {
    if (this.#destroyed) return
    if (typeof data != 'string') {
      if (this.#awaitingBinaryReply) {
        this.debug?.('incoming binary', {size: data.byteLength})
        this.#awaitingBinaryReply(data)
        this.#awaitingBinaryReply = null
      } else {
        this.debug?.('Un-awaited binary payload.')
      }
      return
    }
    const {cmd, payload, id} = JSON.parse(data)
    this.debug?.('incoming', {cmd, payload, id})
    switch (cmd) {
      case undefined:
        this.debug?.('Invalid message received', arguments)
      break
      default:
        if (!this.emit(cmd, this.#replyFunc(id), payload)) { // if no event listener
          this.#reply(id, 'No listener for command: '+cmd, true)
        }
      break
      case 'int:reply': case 'int:errorReply': case 'int:binaryReply': {
        const {resolve, reject} = this.#awaitingReply.get(id)
        if (resolve) {
          switch (cmd) {
            case 'int:reply': resolve(payload); break
            case 'int:errorReply': reject(payload); break
            case 'int:binaryReply': this.#awaitingBinaryReply = resolve; break
          }
          this.#awaitingReply.delete(id)
        } else {
          this.debug?.('Un-awaited '+cmd+':', payload)
        }
      } break
    }
  }
>> *)
Definition onReply (cmd payload id : Value) : M unit :=
  entry ← gets (mapGet id);
  match entry with
  | None =>
      throw (TypeError
        "Cannot destructure property 'resolve' of 'this.#awaitingReply.get(...)' as it is undefined.")
  | Some e =>
      if truthyAny (resolve e) then
        (if isString cmd "int:reply" then
           _ ← call (resolve e) [payload]; ret tt
         else if isString cmd "int:errorReply" then
           _ ← call (reject e) [payload]; ret tt
         else modify (set_awaitingBinaryReply (resolve e)));;
        mapDelete id
      else debugLog ("Un-awaited " +:+ ToString cmd +:+ ":") payload
  end.

Definition onMessage (data : Data) : M unit :=
  d ← gets destroyed;
  if d then ret tt else
  match data with
  | BinaryData kind bytes =>
      slot ← gets awaitingBinaryReply;
      if truthyAny slot then
        debugLog "incoming binary" (VObject [("size", VNumber (Z.of_nat (length bytes)))]);;
        _ ← call slot [VBinary kind bytes];
        modify (set_awaitingBinaryReply (Pub VNull))
      else debugLog "Un-awaited binary payload." VUndefined
  | TextData text =>
      match JSON_parse text with
      | None => throw (SyntaxError "Unexpected token in JSON")
      | Some parsed =>
          fs ← destructure parsed;
          let '(cmd, payload, id) := fs in
          debugLog "incoming" (envelope cmd payload id);;
          match cmd with
          | VUndefined =>
              debugLog "Invalid message received" (VArray [VObject [("data", VString text)]])
          | _ =>
              if isReplyTag cmd then onReply cmd payload id
              else
                heard ← emit (ToString cmd) [VFunction (ReplyFunc id); payload];
                if heard then ret tt
                else reply id (VString ("No listener for command: " +:+ ToString cmd))
                           (VBool true)
          end
      end
  end.

(** The entries of [#wsListeners]:
<<
      'open':     () => this.emit('open'),
      'error': event => this.emit('error', event),
      'close': event => this.emit('close', event),
      'message': this.#onMessage.bind(this)
>> *)
Inductive SocketEvent :=
| OnOpen
| OnError (ev : Value)
| OnClose (ev : Value)
| OnMessage (data : Data).

Definition eventName (e : SocketEvent) : string :=
  match e with
  | OnOpen => "open"
  | OnError _ => "error"
  | OnClose _ => "close"
  | OnMessage _ => "message"
  end.

Definition wsListener (e : SocketEvent) : M unit :=
  match e with
  | OnOpen => _ ← emit "open" []; ret tt
  | OnError ev => _ ← emit "error" [ev]; ret tt
  | OnClose ev => _ ← emit "close" [ev]; ret tt
  | OnMessage data => onMessage data
  end.

(** Transport [h] dispatches an event: the endpoint's listener runs if it is
    attached there, and a once-listener is detached first. *)
Definition dispatch (h : nat) (e : SocketEvent) : M unit :=
  s ← gets (fun st => sockets st !! h);
  match s with
  | Some s =>
      match filter (fun a => a.1 = eventName e) (attached s) with
      | (_, once) :: _ =>
          when once (removeEventListener h (eventName e));;
          wsListener e
      | [] => ret tt
      end
  | None => ret tt
  end.

(** A timer fires: it leaves the timer list and its handler runs.  The only
    script the class can have scheduled is [0], an expression statement. *)
Definition fireTimer (t : nat) : M unit :=
  tm ← gets (fun st => timers st !! t);
  match tm with
  | Some tm =>
      clearTimeout t;;
      match handler tm with
      | CallFunction f => _ ← call f (targs tm); ret tt
      | RunScript _ => ret tt
      end
  | None => ret tt
  end.

(** ** The endpoint in its environment

    What can happen to an endpoint: a caller uses its public interface, a
    reply helper it handed out is called, a transport changes state or
    dispatches an event, a timer fires. *)
Inductive Event :=
| Call_changeWebSocket (newWebSocket : nat)
| Call_destroy
| Call_send (cmd payload replyTimeout : Value)
| Call_on (event : string) (once : bool) (listener : nat)
| Call_emit (event : string) (args : list Value)
| Call_removeAllListeners
| Call_reply (id payload isError : Value)
| Set_jsonReplacer (v : Value)
| Set_debug (b : bool)
| Transport_state (h : nat) (readyState : Z)
| Transport_event (h : nat) (e : SocketEvent)
| Timer_fires (t : nat).

Definition transportState (h : nat) (rs : Z) : M unit :=
  modify (set_sockets (fun heap =>
    match heap !! h with
    | Some s => <[h := mkSocket rs (binaryType s) (attached s)]> heap
    | None => <[h := mkSocket rs None []]> heap
    end)).

Definition step (ev : Event) : M unit :=
  match ev with
  | Call_changeWebSocket h => changeWebSocket h
  | Call_destroy => destroy
  | Call_send cmd payload replyTimeout => _ ← send cmd payload replyTimeout; ret tt
  | Call_on name once n => addListener name once (UserListener n)
  | Call_emit name args => _ ← emit name args; ret tt
  | Call_removeAllListeners => removeAllListeners
  | Call_reply id payload isError => replyFunc id payload isError
  | Set_jsonReplacer v => modify (set_jsonReplacer v)
  | Set_debug b => modify (set_debug b)
  | Transport_state h rs => transportState h rs
  | Transport_event h e => dispatch h e
  | Timer_fires t => fireTimer t
  end.

(** An exception leaves the method it was thrown in; the endpoint stays as
    the method left it and the next event finds it so. *)
Definition after (ev : Event) (st : Endpoint) : Endpoint := (step ev st).2.

Definition run (evs : list Event) (st : Endpoint) : Endpoint :=
  fold_left (fun s ev => after ev s) evs st.

End Dispatch.

(** ** The revision before [SimpleWebSocketAPI_Error]

    The same class one revision earlier.  Its constructor stores [false],
    not [null], in [debug] when debugging is off, errors are plain [Error]
    objects and the timeout of a request carries no error. *)
Module Earlier.

(** [Error(message)] *)
Definition Error (message : string) : Value := VError "Error" None message.

(** [this.debug?.(text, value)] where [debug] is [false] or the console
    writer: the optional call skips [null] and [undefined] only, and [false]
    is not a function. *)
Definition debugLog (text : string) (value : Value) : M unit :=
  d ← gets debug;
  if d then effect (ConsoleLog text value)
  else throw (TypeError "this.debug is not a function").

(**
<<
  send(cmd, payload, replyTimeout = 2000) {
    if (this.#destroyed || this.#ws?.readyState != OPEN) return
    if (typeof cmd != 'string') throw Error('cmd must be a string.')
    if (cmd.startsWith('int:')) throw Error('Only internal commands can start with "int:".')
    if (['open','close','error','newListener','removeListener'].includes(cmd)) throw Error(...)
    const id = this.#msgId ++
    this.debug?.('outgoing', {cmd, payload, id})
    this.#ws.send(JSON.stringify({cmd, payload, id}, this.jsonReplacer))
    return new Promise((resolve, reject) => {
      const timeout = setTimeout(reject, replyTimeout)
      this.#awaitingReply.set(id, {
        resolve: result => {clearTimeout(timeout); resolve(result)},
        reject: error => {clearTimeout(timeout); reject(error)}
      })
    })
  }
>> *)
Definition send (cmd payload replyTimeout : Value) : M (option nat) :=
  let replyTimeout := orDefault replyTimeout (VNumber 2000) in
  d ← gets destroyed;
  rs ← gets ws_readyState;
  if d || negb (looseEqNumber rs OPEN) then ret None else
  match cmd with
  | VString c =>
      if String.prefix "int:" c then
        throw (Error ("Only internal commands can start with " +:+ dq +:+ "int:" +:+ dq +:+ "."))
      else if bool_decide (c ∈ reservedEvents) then
        throw (Error ("A command can not be named " +:+ c +:+
                      " because that's an event emitted by this class."))
      else
        id ← gets msgId;
        modify (set_msgId (increment id));;
        debugLog "outgoing" (envelope cmd payload (VNumber id));;
        r ← gets jsonReplacer;
        ws_send (JSON_stringify (envelope cmd payload (VNumber id)) r);;
        p ← newPromise;
        timeout ← setTimeout (Priv (PromiseReject p)) (Pub replyTimeout) [];
        modify (set_awaitingReply
                  (insert id (mkAwaiting (Priv (ResolveWrapper timeout p))
                                         (Priv (RejectWrapper timeout p)))));;
        ret (Some p)
  | _ => throw (Error "cmd must be a string.")
  end.

End Earlier.

(** * Notions the properties are stated with *)

(** ** The footprint of [emit] and [destroy] *)

Definition isNotice (e : Effect) : Prop :=
  match e with
  | WsSend _ _ => False
  | _ => True
  end.

(** The footprint of the emitter and of [destroy]: listeners run, transports
    are detached or closed and the pending map may be emptied; timers,
    promises, the counter and the binary slot are not touched and no frame
    is sent. *)
Record footprint (st st' : Endpoint) : Prop := mkFootprint {
  fp_host : host st' = host st;
  fp_timers : timers st' = timers st;
  fp_nextTimer : nextTimer st' = nextTimer st;
  fp_promises : promises st' = promises st;
  fp_nextPromise : nextPromise st' = nextPromise st;
  fp_jsonReplacer : jsonReplacer st' = jsonReplacer st;
  fp_debug : debug st' = debug st;
  fp_ws : ws st' = ws st;
  fp_msgId : msgId st' = msgId st;
  fp_slot : awaitingBinaryReply st' = awaitingBinaryReply st;
  fp_awaiting : awaitingReply st' = awaitingReply st \/ awaitingReply st' = ∅;
  fp_destroyed : destroyed st = true -> destroyed st' = true;
  fp_alive : destroyed st' = false -> awaitingReply st' = awaitingReply st;
  fp_out : exists es, out st' = out st ++ es /\ Forall isNotice es
}.

(** [respects R m]: every run of [m] takes a state to an [R]-related state,
    whether it returns or throws.  For a reflexive and transitive [R] this is
    closed under the constructs methods are written with. *)
Definition respects (R : relation Endpoint) {A} (m : M A) : Prop :=
  forall st, R st (m st).2.

(** A computation whose every run stays within the footprint. *)
Abbreviation quiet := (respects footprint).

(** ** Sample frames and endpoints *)

Definition quoted (s : string) : string := dq +:+ s +:+ dq.

(** [{"cmd":"int:reply","payload":1,"id":7}] *)
Definition replyFrame : string :=
  "{" +:+ quoted "cmd" +:+ ":" +:+ quoted "int:reply" +:+ "," +:+
  quoted "payload" +:+ ":1," +:+ quoted "id" +:+ ":7}".

(** [{"cmd":"int:reply","payload":1,"id":0}] *)
Definition replyFrame0 : string :=
  "{" +:+ quoted "cmd" +:+ ":" +:+ quoted "int:reply" +:+ "," +:+
  quoted "payload" +:+ ":1," +:+ quoted "id" +:+ ":0}".

(** [{"cmd":"int:binaryReply","id":0}] *)
Definition binaryReplyFrame0 : string :=
  "{" +:+ quoted "cmd" +:+ ":" +:+ quoted "int:binaryReply" +:+ "," +:+
  quoted "id" +:+ ":0}".

(** [{"cmd":"echo","payload":1,"id":3}] *)
Definition commandFrame : string :=
  "{" +:+ quoted "cmd" +:+ ":" +:+ quoted "echo" +:+ "," +:+
  quoted "payload" +:+ ":1," +:+ quoted "id" +:+ ":3}".

(** [JSON.parse] on the frames the examples use; [{oops], like every other
    text here, is not JSON. *)
Definition sampleParse (s : string) : option Value :=
  if String.eqb s replyFrame then
    Some (VObject [("cmd", VString "int:reply"); ("payload", VNumber 1); ("id", VNumber 7)])
  else if String.eqb s replyFrame0 then
    Some (VObject [("cmd", VString "int:reply"); ("payload", VNumber 1); ("id", VNumber 0)])
  else if String.eqb s binaryReplyFrame0 then
    Some (VObject [("cmd", VString "int:binaryReply"); ("id", VNumber 0)])
  else if String.eqb s commandFrame then
    Some (VObject [("cmd", VString "echo"); ("payload", VNumber 1); ("id", VNumber 3)])
  else if String.eqb s "{}" then Some (VObject [])
  else if String.eqb s "5" then Some (VNumber 5)
  else if String.eqb s "null" then Some VNull
  else None.

Definition sampleOptions : Options :=
  {| opt_ws := Some 1%nat; opt_debug := false; opt_jsonReplacer := VUndefined;
     opt_binaryType := None; opt_destroyOnClose := false |}.

Definition connecting : gmap nat Socket := {[ 1%nat := mkSocket CONNECTING None [] ]}.

(** An endpoint built around a connecting transport. *)
Definition sampleNew : Endpoint := (constructor NodeJS connecting sampleOptions).2.

(** The transport opened. *)
Definition sampleOpen : Endpoint :=
  run sampleParse [Transport_state 1 OPEN; Transport_event 1 OnOpen] sampleNew.

(** The transport is closing. *)
Definition sampleClosing : Endpoint :=
  run sampleParse [Transport_state 1 CLOSING] sampleOpen.

(** The endpoint was destroyed. *)
Definition sampleDestroyed : Endpoint := run sampleParse [Call_destroy] sampleOpen.

(** ** Commands, logs and payloads *)

Definition invalidCmd (cmd : Value) : Prop :=
  match cmd with
  | VString c => String.prefix "int:" c = true \/ c ∈ reservedEvents
  | _ => True
  end.

Definition userCommand (c : string) : Prop :=
  String.prefix "int:" c = false /\ c ∉ reservedEvents.

Definition isLog (e : Effect) : Prop :=
  match e with ConsoleLog _ _ => True | _ => False end.

(** What the debug writer prints for a list of calls. *)
Definition console (st : Endpoint) (l : list (string * Value)) : list Effect :=
  if debug st then map (fun tv => ConsoleLog tv.1 tv.2) l else [].

Definition isBinaryPayload (v : Value) : Prop :=
  match v with VBinary _ _ => True | _ => False end.

Definition binaryErrorRefused : Value :=
  SimpleWebSocketAPI_Error "Can't send a binary error reply." None.

(** ** Timers, promises and pending entries *)

Record Core := mkCore {
  c_timers : gmap nat Timer;
  c_nextTimer : nat;
  c_promises : gmap nat PromiseState;
  c_nextPromise : nat;
  c_awaiting : gmap Z AwaitingReply;
  c_slot : Any
}.

Definition coreOf (st : Endpoint) : Core :=
  mkCore (timers st) (nextTimer st) (promises st) (nextPromise st)
         (awaitingReply st) (awaitingBinaryReply st).

(** The entry [send] stores for a request and the timer it arms. *)
Definition wrappers (t p : nat) : AwaitingReply :=
  mkAwaiting (Priv (ResolveWrapper t p)) (Priv (RejectWrapper t p)).

Definition rejectTimer (p : nat) (d : Any) (e : Value) : Timer :=
  mkTimer (CallFunction (Priv (PromiseReject p))) d [e].

(** The wrappers of timer [t] and promise [p] are within reach of the
    message handler: in the pending map or in the binary slot. *)
Definition holds (c : Core) (t p : nat) : Prop :=
  (exists id, c_awaiting c !! id = Some (wrappers t p)) \/
  c_slot c = Priv (ResolveWrapper t p).

Inductive coreStep : Core -> Core -> Prop :=
| cs_clear c :
    coreStep c (mkCore (c_timers c) (c_nextTimer c) (c_promises c) (c_nextPromise c)
                       ∅ (c_slot c))
| cs_delete c id :
    coreStep c (mkCore (c_timers c) (c_nextTimer c) (c_promises c) (c_nextPromise c)
                       (delete id (c_awaiting c)) (c_slot c))
| cs_take c id t p :
    c_awaiting c !! id = Some (wrappers t p) ->
    coreStep c (mkCore (c_timers c) (c_nextTimer c) (c_promises c) (c_nextPromise c)
                       (c_awaiting c) (Priv (ResolveWrapper t p)))
| cs_null c :
    coreStep c (mkCore (c_timers c) (c_nextTimer c) (c_promises c) (c_nextPromise c)
                       (c_awaiting c) (Pub VNull))
| cs_script c src d args :
    coreStep c (mkCore (<[c_nextTimer c := mkTimer (RunScript src) d args]> (c_timers c))
                       (S (c_nextTimer c)) (c_promises c) (c_nextPromise c)
                       (c_awaiting c) (c_slot c))
| cs_request c id cmd r :
    coreStep c (mkCore (<[c_nextTimer c :=
                            rejectTimer (c_nextPromise c) (Pub r) (replyTimeoutError cmd r)]>
                          (c_timers c))
                       (S (c_nextTimer c))
                       (<[c_nextPromise c := Pending]> (c_promises c))
                       (S (c_nextPromise c))
                       (<[id := wrappers (c_nextTimer c) (c_nextPromise c)]> (c_awaiting c))
                       (c_slot c))
| cs_settle c t p s :
    holds c t p -> s <> Pending ->
    coreStep c (mkCore (delete t (c_timers c)) (c_nextTimer c)
                       (settled p s (c_promises c)) (c_nextPromise c)
                       (c_awaiting c) (c_slot c))
| cs_fire c t p d e :
    c_timers c !! t = Some (rejectTimer p d e) ->
    coreStep c (mkCore (delete t (c_timers c)) (c_nextTimer c)
                       (settled p (Rejected e) (c_promises c)) (c_nextPromise c)
                       (c_awaiting c) (c_slot c))
| cs_fire_script c t tm src :
    c_timers c !! t = Some tm -> handler tm = RunScript src ->
    coreStep c (mkCore (delete t (c_timers c)) (c_nextTimer c)
                       (c_promises c) (c_nextPromise c)
                       (c_awaiting c) (c_slot c)).

(** The wrappers of a request are consistent with its timer and promise:
    while the timer is armed it is the request's timeout, and once it is
    gone the promise is settled. *)
Definition wrapperOk (c : Core) (t p : nat) : Prop :=
  (t < c_nextTimer c)%nat /\ (p < c_nextPromise c)%nat /\
  match c_timers c !! t with
  | Some tm => exists d e, tm = rejectTimer p d e
  | None => c_promises c !! p <> Some Pending
  end.

Definition slotOk (c : Core) : Prop :=
  match c_slot c with
  | Pub VUndefined | Pub VNull => True
  | Priv (ResolveWrapper t p) => wrapperOk c t p
  | _ => False
  end.

Record Inv (c : Core) : Prop := mkInv {
  inv_timer_fresh :
    forall t tm, c_timers c !! t = Some tm -> (t < c_nextTimer c)%nat;
  inv_promise_fresh :
    forall p s, c_promises c !! p = Some s -> (p < c_nextPromise c)%nat;
  inv_timer_kind :
    forall t tm, c_timers c !! t = Some tm ->
      (exists src, handler tm = RunScript src) \/
      (exists p cmd r, tm = rejectTimer p (Pub r) (replyTimeoutError cmd r) /\
                       c_promises c !! p = Some Pending);
  inv_timer_unique :
    forall t1 t2 p d1 e1 d2 e2,
      c_timers c !! t1 = Some (rejectTimer p d1 e1) ->
      c_timers c !! t2 = Some (rejectTimer p d2 e2) -> t1 = t2;
  inv_pending_armed :
    forall p, c_promises c !! p = Some Pending ->
      exists t d e, c_timers c !! t = Some (rejectTimer p d e);
  inv_entries :
    forall id e, c_awaiting c !! id = Some e ->
      exists t p, e = wrappers t p /\ wrapperOk c t p;
  inv_slot : slotOk c
}.


(** Timer [t], if armed, is the timeout of promise [p]; if it is gone, [p]
    is settled. *)
Definition linked (c : Core) (t p : nat) : Prop :=
  match c_timers c !! t with
  | Some tm => exists d e, tm = rejectTimer p d e
  | None => c_promises c !! p <> Some Pending
  end.

(** ** Relations between states *)

Definition sameCore (st st' : Endpoint) : Prop :=
  coreOf st' = coreOf st /\ destroyed st' = destroyed st.

Definition evolves (st st' : Endpoint) : Prop := rtc coreStep (coreOf st) (coreOf st').

(** A computation that, from a state satisfying the invariant, makes only
    atomic changes. *)
Definition sound {A} (m : M A) : Prop :=
  forall st, Inv (coreOf st) -> evolves st (m st).2.

(** ** Requests *)

(** The endpoint after a successful [send] of command [c] on transport [h]
    with timeout [r]. *)
Definition afterSend (st : Endpoint) (h : nat) (c : string) (payload r : Value) : Endpoint :=
  let request := envelope (VString c) payload (VNumber (msgId st)) in
  set_awaitingReply (insert (msgId st) (wrappers (nextTimer st) (nextPromise st)))
    (set_nextTimer (S (nextTimer st))
      (set_timers (insert (nextTimer st)
                     (rejectTimer (nextPromise st) (Pub r) (replyTimeoutError c r)))
        (set_nextPromise (S (nextPromise st))
          (set_promises (insert (nextPromise st) Pending)
            (set_out (fun o => o ++ console st [("outgoing", request)] ++
                               [WsSend h (JSON_stringify request (jsonReplacer st))])
              (set_msgId (increment (msgId st)) st)))))).

Definition reachable (JSON_parse : string -> option Value) (st : Endpoint) : Prop :=
  exists h heap o evs, st = run JSON_parse evs (constructor h heap o).2.

(** The request of timer [t] and promise [p] has timed out or will: the
    timer is armed and the promise pending, or the timer fired and the
    promise is rejected with the timer's error. *)
Definition timesOut (t p : nat) (d : Any) (e : Value) (st : Endpoint) : Prop :=
  (timers st !! t = Some (rejectTimer p d e) /\ promises st !! p = Some Pending) \/
  (timers st !! t = None /\ promises st !! p = Some (Rejected e)).

(** The sample endpoint with one request pending (id 0, timer 0,
    promise 0). *)
Definition samplePending : Endpoint :=
  run sampleParse [Call_send (VString "echo") VNull (VNumber 50)] sampleOpen.

(** ** Binding a transport *)

Definition closedTransport : gmap nat Socket := {[ 1%nat := mkSocket CLOSED None [] ]}.

Definition openTransport : gmap nat Socket := {[ 1%nat := mkSocket OPEN None [] ]}.

Definition noTransport : Options :=
  {| opt_ws := None; opt_debug := false; opt_jsonReplacer := VUndefined;
     opt_binaryType := None; opt_destroyOnClose := false |}.

(** An endpoint without transport, with subscribers 7 and 8 listening for
    [close] and [open]. *)
Definition subscribed (h : Host) (heap : gmap nat Socket) : Endpoint :=
  run sampleParse [Call_on "close" false 7; Call_on "open" false 8]
      (constructor h heap noTransport).2.

Definition scriptTimer (args : list Value) : Timer :=
  mkTimer (RunScript "0") (Priv BoundEmit) args.

(** ** Request ids *)

(** The id of a request envelope handed to a transport: a text frame whose
    [cmd] is a string outside the internal prefix. *)
Definition requestId (e : Effect) : option Z :=
  match e with
  | WsSend _ (JSON_stringify env _) =>
      match getProp "cmd" env, getProp "id" env with
      | VString c, VNumber n => if String.prefix "int:" c then None else Some n
      | _, _ => None
      end
  | _ => None
  end.

Definition requestIds (o : list Effect) : list Z := omap requestId o.

Definition sameRequests (st st' : Endpoint) : Prop :=
  msgId st' = msgId st /\ requestIds (out st') = requestIds (out st).

(** The counter and the ids sent so far: the [k]-th request carried the id
    [min (2^53) k], and the counter is the id the next request will
    carry. *)
Definition counted (st : Endpoint) : Prop :=
  let ids := requestIds (out st) in
  ids = Z.min MAX_EXACT <$> seqZ 0 (Z.of_nat (length ids)) /\
  msgId st = Z.min MAX_EXACT (Z.of_nat (length ids)).

Definition twoTransports : list Event :=
  [ Transport_state 1 OPEN; Transport_event 1 OnOpen;
    Call_send (VString "echo") VNull VUndefined;
    Transport_state 2 CONNECTING; Call_changeWebSocket 2; Transport_state 2 OPEN;
    Call_send (VString "sum") (VArray [VNumber 1; VNumber 2]) VUndefined ].

(** ** What a reply helper is given *)

(** [yields payload v]: the payload handed to a reply helper is a value, a
    promise that fulfils, a function that returns a value or a function that
    returns a promise that fulfils, and [v] is the value obtained. *)
Inductive yields : Value -> Value -> Prop :=
| yields_value v :
    typeof v <> "function" -> (forall r o, v <> VThenable r o) -> yields v v
| yields_thenable v : yields (VThenable false v) v
| yields_thunk v :
    (forall r o, v <> VThenable r o) -> yields (VFunction (UserThunk false v)) v
| yields_thunk_thenable v : yields (VFunction (UserThunk false (VThenable false v))) v.

(** [fails payload e]: the payload is a promise that rejects with [e], a
    function that throws [e] or a function whose promise rejects with [e]. *)
Inductive fails : Value -> Value -> Prop :=
| fails_thenable e : fails (VThenable true e) e
| fails_thunk e : fails (VFunction (UserThunk true e)) e
| fails_thunk_thenable e : fails (VFunction (UserThunk false (VThenable true e))) e.

(** ** What reaches the transports *)

(** A frame handed to a transport or a call of its [close]. *)
Definition isWire (e : Effect) : bool :=
  match e with
  | WsSend _ _ | WsClose _ => true
  | _ => false
  end.

(** What the endpoint did to its transports: the frames it sent and the
    calls of [close]. *)
Definition wire (o : list Effect) : list Effect := List.filter isWire o.

(** From a destroyed endpoint: it stays destroyed, the transports hear
    nothing more, the pending map and the id counter are as they were. *)
Definition silent (st st' : Endpoint) : Prop :=
  destroyed st = true ->
  destroyed st' = true /\ wire (out st') = wire (out st) /\
  awaitingReply st' = awaitingReply st /\ msgId st' = msgId st.

(** A frame is handed to the transport that is bound, while it is open and
    the endpoint is not destroyed. *)
Definition sentWhileOpen (st : Endpoint) (e : Effect) : Prop :=
  match e with
  | WsSend h _ => ws st = Some h /\ isOpen st = true /\ destroyed st = false
  | _ => True
  end.

(** The transport stays bound, a destroyed endpoint stays destroyed, the
    transport does not open, and whatever was sent was sent while open. *)
Record guarded (st st' : Endpoint) : Prop := mkGuarded {
  g_ws : ws st' = ws st;
  g_destroyed : destroyed st = true -> destroyed st' = true;
  g_open : isOpen st' = true -> isOpen st = true;
  g_out : exists es, out st' = out st ++ es /\ Forall (sentWhileOpen st) es
}.

(** ** Computations that return *)



(** ** Listeners and their calls *)



(** ** The listeners on a transport *)

(** The four listeners with their [once] option, as [changeWebSocket]
    attaches them: [{once: event != 'message'}]. *)
Definition wsListenerOptions : list (string * bool) :=
  [("open", true); ("error", true); ("close", true); ("message", false)].

(** A transport without the endpoint's four listeners. *)
Definition withoutListeners (s : Socket) : Socket :=
  mkSocket (readyState s) (binaryType s)
           (filter (fun a => a.1 ∉ wsListenerEvents) (attached s)).

(** [globalThis.process?.versions?.node ? 'nodebuffer' : 'arraybuffer'] *)
Definition defaultBinaryType (h : Host) : string :=
  match h with NodeJS => "nodebuffer" | Browser => "arraybuffer" end.

(** What [addEventListener(event, listener, {once})] does to a transport:
    a listener that is attached already is not attached again. *)
Definition attach (ev : string) (once : bool) (s : Socket) : Socket :=
  mkSocket (readyState s) (binaryType s)
           (if bool_decide (ev ∈ (attached s).*1) then attached s
            else attached s ++ [(ev, once)]).

(** ** The listener registry *)




(** ** Closing down *)

(** What [emit] and [destroy] leave of the binding: the transport stays
    bound, listeners are only ever detached from it, and the pending map is
    emptied if the endpoint gets destroyed. *)
Record narrows (st st' : Endpoint) : Prop := mkNarrows {
  nr_ws : ws st' = ws st;
  nr_option : destroyOnClose st' = destroyOnClose st;
  nr_destroyed : destroyed st = true -> destroyed st' = true;
  nr_attached :
    forall h s', sockets st' !! h = Some s' ->
      exists s, sockets st !! h = Some s /\ attached s' ⊆ attached s;
  nr_awaiting : awaitingReply st' = awaitingReply st \/ awaitingReply st' = ∅;
  nr_cleared : destroyed st' = true -> destroyed st = true \/ awaitingReply st' = ∅
}.

(** Without [destroyOnClose] an event destroys nothing. *)
Definition spares (st st' : Endpoint) : Prop :=
  destroyOnClose st = false ->
  destroyOnClose st' = false /\ destroyed st' = destroyed st /\
  awaitingReply st' = awaitingReply st.




(** ** The keys of the pending map *)

(** Nothing is added to the pending map and no id is used. *)
Definition keepsPending (st st' : Endpoint) : Prop :=
  msgId st' = msgId st /\ awaitingReply st' ⊆ awaitingReply st.

(** The keys of the pending map are ids that were used: below the counter,
    or the counter itself once it has stopped at [2^53]. *)
Definition keysUsed (st : Endpoint) : Prop :=
  msgId st <= MAX_EXACT /\
  forall id e, awaitingReply st !! id = Some e ->
    id < msgId st \/ (id = msgId st /\ msgId st = MAX_EXACT).

(** ** More sample frames and endpoints *)

(** [{"cmd":"int:binaryReply","id":1}] *)
Definition binaryReplyFrame1 : string :=
  "{" +:+ quoted "cmd" +:+ ":" +:+ quoted "int:binaryReply" +:+ "," +:+
  quoted "id" +:+ ":1}".

(** [{"cmd":"close","payload":1,"id":3}] *)
Definition closeFrame : string :=
  "{" +:+ quoted "cmd" +:+ ":" +:+ quoted "close" +:+ "," +:+
  quoted "payload" +:+ ":1," +:+ quoted "id" +:+ ":3}".

(** [JSON.parse] on two more frames. *)
Definition sampleParse' (s : string) : option Value :=
  if String.eqb s binaryReplyFrame1 then
    Some (VObject [("cmd", VString "int:binaryReply"); ("id", VNumber 1)])
  else if String.eqb s closeFrame then
    Some (VObject [("cmd", VString "close"); ("payload", VNumber 1); ("id", VNumber 3)])
  else sampleParse s.

(** Two requests pending (ids 0 and 1). *)
Definition sampleTwoPending : Endpoint :=
  run sampleParse [Call_send (VString "echo") VNull (VNumber 50);
                   Call_send (VString "sum") VNull (VNumber 50)] sampleOpen.


(** A second transport, connecting. *)
Definition sampleSecond : Endpoint :=
  run sampleParse [Transport_state 2 CONNECTING] sampleOpen.

Definition sampleBytes : list Byte.byte := [Byte.x01; Byte.x02].

Definition sampleReplied : Endpoint :=
  run sampleParse [Transport_event 1 (OnMessage (TextData replyFrame0))] samplePending.



(** * Properties *)

(** ** What [emit] and [destroy] can change *)

Lemma footprint_refl st : footprint st st.
Proof.
  constructor; auto. exists []. by rewrite app_nil_r.
Qed.

Lemma footprint_trans st1 st2 st3 :
  footprint st1 st2 -> footprint st2 st3 -> footprint st1 st3.
Proof.
  intros H1 H2. constructor.
  - rewrite (fp_host _ _ H2). apply H1.
  - rewrite (fp_timers _ _ H2). apply H1.
  - rewrite (fp_nextTimer _ _ H2). apply H1.
  - rewrite (fp_promises _ _ H2). apply H1.
  - rewrite (fp_nextPromise _ _ H2). apply H1.
  - rewrite (fp_jsonReplacer _ _ H2). apply H1.
  - rewrite (fp_debug _ _ H2). apply H1.
  - rewrite (fp_ws _ _ H2). apply H1.
  - rewrite (fp_msgId _ _ H2). apply H1.
  - rewrite (fp_slot _ _ H2). apply H1.
  - destruct (fp_awaiting _ _ H2) as [->| ->]; [apply H1|by right].
  - intros H. apply H2, H1, H.
  - intros H. rewrite (fp_alive _ _ H2 H). apply H1.
    destruct (destroyed st2) eqn:E; [|done].
    rewrite (fp_destroyed _ _ H2 E) in H. done.
  - destruct (fp_out _ _ H1) as (es1 & E1 & F1).
    destruct (fp_out _ _ H2) as (es2 & E2 & F2).
    exists (es1 ++ es2). rewrite E2, E1, app_assoc. split; [done|].
    by apply Forall_app.
Qed.

Section Respects.

Context (R : relation Endpoint) `{!PreOrder R}.

Lemma respects_ret {A} (a : A) : respects R (ret a).
Proof. intros st. reflexivity. Qed.

Lemma respects_throw {A} e : respects R (@throw A e).
Proof. intros st. reflexivity. Qed.

Lemma respects_gets {A} (f : Endpoint -> A) : respects R (gets f).
Proof. intros st. reflexivity. Qed.

Lemma respects_bind {A B} (m : M A) (k : A -> M B) :
  respects R m -> (forall a, respects R (k a)) -> respects R (bind m k).
Proof.
  intros Hm Hk st. unfold bind. specialize (Hm st).
  destruct (m st) as [[a|e] st'] eqn:E; simpl in *; [|done].
  etrans; [exact Hm|apply Hk].
Qed.

Lemma respects_try_catch {A} (m : M A) (h : Value -> M A) :
  respects R m -> (forall e, respects R (h e)) -> respects R (try_catch m h).
Proof.
  intros Hm Hh st. unfold try_catch. specialize (Hm st).
  destruct (m st) as [[a|e] st'] eqn:E; simpl in *; [done|].
  etrans; [exact Hm|apply Hh].
Qed.

Lemma respects_when b (m : M unit) : respects R m -> respects R (when b m).
Proof. destruct b; simpl; auto using respects_ret. Qed.

Lemma respects_forEach {A} (f : A -> M unit) l :
  (forall x, respects R (f x)) -> respects R (forEach f l).
Proof.
  intros Hf. induction l as [|x l IH]; simpl.
  - apply respects_ret.
  - apply respects_bind; auto.
Qed.

End Respects.

Global Instance footprint_preorder : PreOrder footprint.
Proof.
  split; [exact footprint_refl|].
  intros x y z. apply footprint_trans.
Qed.

Lemma quiet_effect e : isNotice e -> quiet (effect e).
Proof.
  intros He st. constructor; simpl; auto.
  exists [e]. split; [done|]. by constructor.
Qed.

Lemma quiet_modify_sockets f : quiet (modify (set_sockets f)).
Proof. intros st. constructor; simpl; auto. exists []. by rewrite app_nil_r. Qed.

Lemma quiet_modify_listeners f : quiet (modify (set_listeners f)).
Proof. intros st. constructor; simpl; auto. exists []. by rewrite app_nil_r. Qed.

Lemma quiet_modify_fired f : quiet (modify (set_fired f)).
Proof. intros st. constructor; simpl; auto. exists []. by rewrite app_nil_r. Qed.

Lemma quiet_removeWsListeners : quiet removeWsListeners.
Proof.
  unfold removeWsListeners. apply (respects_bind _); [apply (respects_gets _)|].
  intros [h|]; [|apply (respects_ret _)].
  apply (respects_forEach _). intros ev. apply quiet_modify_sockets.
Qed.

Lemma quiet_closeHandler D : quiet D -> quiet (closeHandler D).
Proof.
  intros HD. unfold closeHandler.
  apply (respects_bind _); [apply quiet_removeWsListeners|]. intros _.
  apply (respects_bind _); [apply (respects_gets _)|]. intros d. by apply (respects_when _).
Qed.

Lemma quiet_invoke D args l : quiet D -> quiet (invoke D args l).
Proof.
  intros HD. unfold invoke.
  assert (Hrun : quiet (match body l with
                        | UserListener n => effect (Notify n (event l) args)
                        | CloseHandler => closeHandler D
                        end)).
  { destruct (body l); [by apply quiet_effect|by apply quiet_closeHandler]. }
  destruct (once l); [|done].
  apply (respects_bind _); [apply (respects_gets _)|]. intros f.
  case_bool_decide; [apply (respects_ret _)|].
  apply (respects_bind _); [apply quiet_modify_fired|]. intros _.
  apply (respects_bind _); [apply quiet_modify_listeners|]. by intros _.
Qed.

Lemma quiet_emit_with D name args : quiet D -> quiet (emit_with D name args).
Proof.
  intros HD. unfold emit_with.
  apply (respects_bind _); [apply (respects_gets _)|]. intros [|l ls].
  - destruct (String.eqb name "error"); [|apply (respects_ret _)].
    destruct args as [|[] ?]; apply (respects_throw _).
  - apply (respects_bind _); [|intros; apply (respects_ret _)].
    apply (respects_forEach _). intros x. by apply quiet_invoke.
Qed.

Lemma quiet_destroy_with D : quiet D -> quiet (destroy_with D).
Proof.
  intros HD. unfold destroy_with.
  intros st. unfold bind, gets at 1. simpl.
  destruct (destroyed st) eqn:Hd; [apply footprint_refl|].
  set (st1 := set_awaitingReply (fun _ => ∅) (set_destroyed true st)).
  assert (H1 : footprint st st1).
  { constructor; simpl; auto; try done. exists []. by rewrite app_nil_r. }
  assert (Hq : quiet (
     w ← gets ws; rs ← gets ws_readyState;
     match w with
     | Some h =>
         when (negb (looseEqNumber rs CLOSED))
           (ws_close h;;
            _ ← emit_with D "close"
                  [VObject [("code", VNumber 4000);
                            ("reason", VString "SimpleWebSocketAPI destroy call");
                            ("wasClean", VBool true)]];
            ret tt)
     | None => ret tt
     end;;
     removeAllListeners)).
  { apply (respects_bind _); [apply (respects_gets _)|]. intros w.
    apply (respects_bind _); [apply (respects_gets _)|]. intros rs.
    apply (respects_bind _); [|intros; apply quiet_modify_listeners].
    destruct w; [|apply (respects_ret _)]. apply (respects_when _).
    apply (respects_bind _).
    - unfold ws_close. apply (respects_bind _); [apply quiet_modify_sockets|].
      intros _. by apply quiet_effect.
    - intros _. apply (respects_bind _); [by apply quiet_emit_with|]. intros; apply (respects_ret _). }
  eapply footprint_trans; [exact H1|]. apply (Hq st1).
Qed.

Lemma quiet_destroy : quiet destroy.
Proof. unfold destroy. do 2 apply quiet_destroy_with. apply (respects_ret _). Qed.

Lemma quiet_emit name args : quiet (emit name args).
Proof. apply quiet_emit_with, quiet_destroy. Qed.

(** ** [destroy] is the fixed point of its body *)


Section DestroyFixpoint.

Variables D1 D2 : M unit.
Hypothesis D_agree : forall s, destroyed s = true -> D1 s = D2 s.
Hypothesis D_quiet : quiet D1.








End DestroyFixpoint.


(** ** Sending: validation of the command name *)

Lemma send_unusable st cmd payload replyTimeout :
  destroyed st = true \/ isOpen st = false ->
  send cmd payload replyTimeout st = (Return None, st).
Proof.
  unfold send, isOpen, bind, gets, ret. simpl.
  intros [-> | ->]; [done|]. by rewrite orb_true_r.
Qed.

Lemma send_refuses st cmd payload replyTimeout :
  invalidCmd cmd -> destroyed st = false -> isOpen st = true ->
  exists message,
    send cmd payload replyTimeout st =
      (Throw (SimpleWebSocketAPI_Error message None), st).
Proof.
  intros Hcmd. unfold send, isOpen, bind, gets, ret, throw. simpl.
  intros -> ->. simpl.
  destruct cmd; try by eexists.
  destruct Hcmd as [-> | Hin]; [by eexists|].
  destruct (String.prefix "int:" s); [by eexists|].
  rewrite bool_decide_eq_true_2 by done. by eexists.
Qed.

(** C3, as the code has it: a call of [send] whose [cmd] is not a string,
    starts with [int:] or is a reserved event name raises a
    [SimpleWebSocketAPI_Error] to the caller, with the endpoint unchanged (no
    frame sent, no id consumed), when the endpoint is not destroyed and its
    transport is open; when the endpoint is destroyed or the transport is not
    open the call returns [undefined] without raising and without any
    effect. *)
Theorem send_invalid_cmd st cmd payload replyTimeout :
  invalidCmd cmd ->
  (destroyed st = false -> isOpen st = true ->
   exists message,
     send cmd payload replyTimeout st =
       (Throw (SimpleWebSocketAPI_Error message None), st)) /\
  (destroyed st = true \/ isOpen st = false ->
   send cmd payload replyTimeout st = (Return None, st)).
Proof.
  intros Hcmd. split.
  - by apply send_refuses.
  - apply send_unusable.
Qed.

Lemma send_invalid_cmd_witness :
  (exists message,
     send (VString "close") VNull VUndefined sampleOpen =
       (Throw (SimpleWebSocketAPI_Error message None), sampleOpen)) /\
  send (VNumber 5) VNull VUndefined sampleDestroyed = (Return None, sampleDestroyed).
Proof.
  split.
  - apply (send_invalid_cmd sampleOpen (VString "close") VNull VUndefined);
      [right; by apply (bool_decide_unpack _) | reflexivity | reflexivity].
  - apply (send_invalid_cmd sampleDestroyed (VNumber 5) VNull VUndefined);
      [exact I | left; reflexivity].
Defined.

(** C3 as stated fails: on a destroyed endpoint (and likewise with a
    transport that is not open) [send] with an invalid [cmd] returns
    [undefined] and raises nothing. *)
Lemma send_invalid_cmd_destroyed_returns :
  invalidCmd (VNumber 5) /\ invalidCmd (VString "int:x") /\
  destroyed sampleDestroyed = true /\
  send (VNumber 5) VNull VUndefined sampleDestroyed = (Return None, sampleDestroyed) /\
  send (VString "int:x") VNull VUndefined sampleDestroyed = (Return None, sampleDestroyed) /\
  isOpen sampleClosing = false /\
  send (VString "error") VNull VUndefined sampleClosing = (Return None, sampleClosing).
Proof.
  repeat split; try reflexivity. by left.
Qed.

(** ** Incoming frames *)

Lemma set_out_nil st : set_out (fun o => o ++ []) st = st.
Proof. destruct st. unfold set_out. simpl. by rewrite app_nil_r. Qed.

Lemma set_out_app l1 l2 st :
  set_out (fun o => o ++ l2) (set_out (fun o => o ++ l1) st) =
  set_out (fun o => o ++ (l1 ++ l2)) st.
Proof. destruct st. unfold set_out. simpl. by rewrite app_assoc. Qed.

Ltac method :=
  unfold bind, gets, modify, when, ret, throw, try_catch, effect, debugLog; simpl.

Lemma console_isLog st l : Forall isLog (console st l).
Proof.
  unfold console. destruct (debug st); [|constructor].
  induction l; constructor; simpl; auto.
Qed.

Lemma reply_unusable st id payload isError :
  destroyed st = true \/ isOpen st = false ->
  reply id payload isError st = (Return tt, st).
Proof.
  unfold reply, isOpen. method. intros [-> | ->]; [done|]. by rewrite orb_true_r.
Qed.

(** A reply whose payload is not binary: one envelope. *)
Lemma reply_plain st h id payload isError :
  destroyed st = false -> isOpen st = true -> ws st = Some h ->
  ~ isBinaryPayload payload ->
  reply id payload isError st =
    (Return tt,
     set_out (fun o => o ++
                console st [("outgoing", envelope (replyTag isError) payload id)] ++
                [WsSend h (JSON_stringify (envelope (replyTag isError) payload id)
                                          (jsonReplacer st))]) st).
Proof.
  unfold reply, isOpen, console, ws_send. intros Hd Ho Hw Hb. method.
  rewrite Hd, Ho. simpl.
  destruct (debug st) eqn:Hdebug;
    destruct payload; try (by destruct Hb);
    repeat (progress (method; rewrite ?Hw, ?Hdebug));
    by rewrite ?set_out_app.
Qed.

(** A reply whose payload is binary: refused when it is an error reply,
    otherwise the marker envelope and then the payload. *)
Lemma reply_binary st h id kind bytes isError :
  destroyed st = false -> isOpen st = true -> ws st = Some h ->
  reply id (VBinary kind bytes) isError st =
    if truthy isError then
      (Throw (SimpleWebSocketAPI_Error "Can't send a binary error reply." None),
       set_out (fun o => o ++
                  console st [("outgoing",
                               envelope (replyTag isError) (VBinary kind bytes) id)]) st)
    else
      (Return tt,
       set_out (fun o => o ++
                  console st [("outgoing",
                               envelope (replyTag isError) (VBinary kind bytes) id)] ++
                  [WsSend h (JSON_stringify
                               (VObject [("cmd", VString "int:binaryReply"); ("id", id)])
                               (jsonReplacer st));
                   WsSend h (BinaryFrame kind bytes)]) st).
Proof.
  unfold reply, isOpen, console, ws_send. intros Hd Ho Hw. method.
  rewrite Hd, Ho. simpl.
  destruct (debug st) eqn:Hdebug;
    destruct (truthy isError) eqn:He;
    repeat (progress (method; rewrite ?Hw, ?Hdebug, ?He));
    by rewrite ?set_out_app, ?set_out_nil.
Qed.

Section Incoming.

Variable JSON_parse : string -> option Value.

(** C9, as the code has it: while the endpoint is not destroyed, a text
    frame that is not valid JSON makes the message handler raise the parse
    exception, uncaught, with the endpoint unchanged; a text frame that
    parses to a value (other than null) without a [cmd] property is
    discarded with nothing but debug output.  A destroyed endpoint ignores
    every frame, valid or not, without raising. *)
Theorem text_frame_without_command st text :
  (destroyed st = false -> JSON_parse text = None ->
   exists message,
     onMessage JSON_parse (TextData text) st = (Throw (SyntaxError message), st)) /\
  (forall parsed,
     destroyed st = false -> JSON_parse text = Some parsed ->
     parsed <> VNull -> parsed <> VUndefined ->
     getProp "cmd" parsed = VUndefined ->
     exists logs,
       Forall isLog logs /\
       onMessage JSON_parse (TextData text) st =
         (Return tt, set_out (fun o => o ++ logs) st)) /\
  (destroyed st = true ->
   onMessage JSON_parse (TextData text) st = (Return tt, st)).
Proof.
  unfold onMessage. method. repeat split.
  - intros -> ->. by eexists.
  - intros parsed -> -> Hnull Hundef Hcmd.
    exists (console st [("incoming",
                         envelope VUndefined (getProp "payload" parsed) (getProp "id" parsed));
                        ("Invalid message received",
                         VArray [VObject [("data", VString text)]])]).
    split; [apply console_isLog|].
    unfold destructure, console. rewrite Hcmd.
    destruct parsed; try done; method;
      destruct (debug st) eqn:Hd; method; rewrite ?Hd; method;
      rewrite ?set_out_nil, ?set_out_app; done.
  - by intros ->.
Qed.

(** C1, what the code does: a [reply], [errorReply] or [binaryReply]
    envelope whose id is not a key of the pending-request map makes the
    message handler raise a [TypeError] (the map's [get] gives [undefined],
    which the handler destructures); the branch that was to log
    [Un-awaited] is never reached.  Nothing is sent and the state is
    unchanged but for the debug output. *)
Theorem reply_for_unknown_id_throws st text parsed :
  destroyed st = false ->
  JSON_parse text = Some parsed ->
  isReplyTag (getProp "cmd" parsed) = true ->
  mapGet (getProp "id" parsed) st = None ->
  exists message,
    onMessage JSON_parse (TextData text) st =
      (Throw (TypeError message),
       set_out (fun o => o ++ console st
                  [("incoming", envelope (getProp "cmd" parsed)
                                         (getProp "payload" parsed)
                                         (getProp "id" parsed))]) st).
Proof.
  intros Hd Hp Htag Hid. unfold onMessage. method. rewrite Hd, Hp.
  destruct parsed; try discriminate Htag. method.
  simpl in Htag, Hid. unfold console.
  destruct (debug st) eqn:Hdebug; method.
  - destruct (assoc "cmd" fields0) eqn:Hc; try discriminate Htag.
    rewrite Htag. unfold onReply. method.
    replace (mapGet _ _) with (@None AwaitingReply). by eexists.
  - destruct (assoc "cmd" fields0) eqn:Hc; try discriminate Htag.
    rewrite Htag. unfold onReply. method. rewrite Hid, set_out_nil. by eexists.
Qed.

Lemma emit_no_listeners name args st :
  filter (fun l => event l = name) (listeners st) = [] ->
  name <> "error" ->
  emit name args st = (Return false, st).
Proof.
  intros Hf Hn. unfold emit, emit_with. method. rewrite Hf.
  apply String.eqb_neq in Hn. by rewrite Hn.
Qed.

Lemma isOpen_ws st : isOpen st = true -> exists h, ws st = Some h.
Proof.
  unfold isOpen, ws_readyState. destruct (ws st); [by eexists|done].
Qed.

Lemma userCommand_not_tag c : userCommand c -> isReplyTag (VString c) = false.
Proof.
  intros [Hp _]. simpl. apply bool_decide_eq_false_2. intros Hin.
  repeat (apply elem_of_cons in Hin as [->|Hin]; [done|]).
  by apply elem_of_nil in Hin.
Qed.

(** C7, as the code has it: an incoming user command for which no listener
    is registered, received while the endpoint is not destroyed and its
    transport is open, is answered with exactly one frame, the [errorReply]
    envelope for the command's id whose payload is ["No listener for
    command: "] followed by the command name; the rest is debug output. *)
Theorem command_without_listener st text parsed c :
  destroyed st = false ->
  isOpen st = true ->
  JSON_parse text = Some parsed ->
  getProp "cmd" parsed = VString c ->
  userCommand c ->
  filter (fun l => event l = c) (listeners st) = [] ->
  exists h,
    ws st = Some h /\
    let answer := envelope (VString "int:errorReply")
                           (VString ("No listener for command: " +:+ c))
                           (getProp "id" parsed) in
    onMessage JSON_parse (TextData text) st =
      (Return tt,
       set_out (fun o => o ++
                  console st [("incoming", envelope (VString c)
                                                    (getProp "payload" parsed)
                                                    (getProp "id" parsed));
                              ("outgoing", answer)] ++
                  [WsSend h (JSON_stringify answer (jsonReplacer st))]) st).
Proof.
  intros Hd Ho Hp Hc Hu Hl.
  destruct (isOpen_ws _ Ho) as [h Hw]. exists h. split; [done|].
  assert (Hne : c <> "error").
  { intros ->. destruct Hu as [_ Hu]. apply Hu. by apply (bool_decide_unpack _). }
  unfold onMessage. method. rewrite Hd, Hp.
  destruct parsed; try discriminate Hc. method. simpl in Hc. rewrite Hc.
  rewrite (userCommand_not_tag _ Hu). unfold console.
  destruct (debug st) eqn:Hdebug; method.
  - rewrite emit_no_listeners by done.
    rewrite (reply_plain _ h); [|exact Hd|exact Ho|exact Hw|by intros []].
    unfold console. simpl. rewrite Hdebug. simpl. by rewrite set_out_app.
  - rewrite emit_no_listeners by done.
    rewrite (reply_plain _ h); [|exact Hd|exact Ho|exact Hw|by intros []].
    unfold console. by rewrite Hdebug.
Qed.

End Incoming.

Lemma reply_for_unknown_id_throws_witness :
  exists message,
    onMessage sampleParse (TextData replyFrame) sampleOpen =
      (Throw (TypeError message), sampleOpen).
Proof.
  destruct (reply_for_unknown_id_throws sampleParse sampleOpen replyFrame
              (VObject [("cmd", VString "int:reply"); ("payload", VNumber 1);
                        ("id", VNumber 7)]))
    as [message H]; [reflexivity | reflexivity | reflexivity | reflexivity |].
  exists message. exact H.
Defined.

Lemma text_frame_without_command_witness :
  (exists message,
     onMessage sampleParse (TextData "{oops") sampleOpen =
       (Throw (SyntaxError message), sampleOpen)) /\
  (exists logs,
     Forall isLog logs /\
     onMessage sampleParse (TextData "{}") sampleOpen =
       (Return tt, set_out (fun o => o ++ logs) sampleOpen)) /\
  onMessage sampleParse (TextData "{oops") sampleDestroyed = (Return tt, sampleDestroyed).
Proof.
  destruct (text_frame_without_command sampleParse sampleOpen "{oops") as (H1 & _ & _).
  destruct (text_frame_without_command sampleParse sampleOpen "{}") as (_ & H2 & _).
  destruct (text_frame_without_command sampleParse sampleDestroyed "{oops") as (_ & _ & H3).
  split; [|split].
  - apply H1; reflexivity.
  - apply (H2 (VObject [])); [reflexivity | reflexivity | discriminate | discriminate | reflexivity].
  - apply H3. reflexivity.
Defined.

(** C9 as stated fails: a destroyed endpoint returns from the handler before
    it parses, so a frame that is not valid JSON raises nothing there.  The
    handler can be reached in that state: [destroy] leaves the detaching of
    the transport's listeners to the one-shot [close] handler, which
    [removeAllListeners] has removed here, and the closing transport still
    delivers the frame. *)
Lemma invalid_json_ignored_when_destroyed :
  let st := run sampleParse [Call_removeAllListeners; Call_destroy] sampleOpen in
  sampleParse "{oops" = None /\
  destroyed st = true /\
  attached <$> sockets st !! 1%nat = Some [("error", true); ("close", true); ("message", false)] /\
  onMessage sampleParse (TextData "{oops") st = (Return tt, st) /\
  step sampleParse (Transport_event 1 (OnMessage (TextData "{oops"))) st = (Return tt, st).
Proof. intros st. repeat split; vm_compute; reflexivity. Qed.

Lemma command_without_listener_witness :
  onMessage sampleParse (TextData commandFrame) sampleOpen =
    (Return tt,
     set_out (fun o => o ++
       [WsSend 1 (JSON_stringify
                    (envelope (VString "int:errorReply")
                              (VString "No listener for command: echo")
                              (VNumber 3))
                    VUndefined)]) sampleOpen).
Proof.
  destruct (command_without_listener sampleParse sampleOpen commandFrame
              (VObject [("cmd", VString "echo"); ("payload", VNumber 1);
                        ("id", VNumber 3)]) "echo")
    as (h & Hw & H);
    [reflexivity | reflexivity | reflexivity | reflexivity
    | split; [reflexivity | by apply (bool_decide_unpack _)] | reflexivity |].
  injection Hw as <-. exact H.
Defined.

(** C7 as stated fails: while the transport is closing (its state is not
    OPEN) a command without listener is dropped and nothing is sent back. *)
Lemma command_without_listener_while_closing :
  userCommand "echo" /\
  filter (fun l => event l = "echo") (listeners sampleClosing) = [] /\
  destroyed sampleClosing = false /\
  sampleParse commandFrame =
    Some (VObject [("cmd", VString "echo"); ("payload", VNumber 1); ("id", VNumber 3)]) /\
  onMessage sampleParse (TextData commandFrame) sampleClosing = (Return tt, sampleClosing) /\
  step sampleParse (Transport_event 1 (OnMessage (TextData commandFrame))) sampleClosing =
    (Return tt, sampleClosing).
Proof.
  repeat split; try (vm_compute; reflexivity). by apply (bool_decide_unpack _).
Qed.

(** ** The reply helper and binary payloads *)

(** C8, as the code has it: on an endpoint that is not destroyed and whose
    transport is open, a reply helper called with a binary payload and the
    error flag unset sends the [binaryReply] marker envelope, which carries
    only the id, and then the binary payload as a second frame.  With the
    error flag set no marker and no binary frame are sent; the
    [SimpleWebSocketAPI_Error] raised inside the helper is caught by the
    helper itself and sent to the peer as one [errorReply] envelope for the
    id, and the helper's promise is fulfilled: nothing is raised to the
    caller. *)
Theorem binary_reply_helper st id kind bytes isError :
  destroyed st = false ->
  isOpen st = true ->
  exists h,
    ws st = Some h /\
    replyFunc id (VBinary kind bytes) isError st =
      (Return tt,
       set_out (fun o => o ++
         if truthy isError then
           console st [("outgoing",
                        envelope (VString "int:errorReply") (VBinary kind bytes) id);
                       ("outgoing",
                        envelope (VString "int:errorReply") binaryErrorRefused id)] ++
           [WsSend h (JSON_stringify
                        (envelope (VString "int:errorReply") binaryErrorRefused id)
                        (jsonReplacer st))]
         else
           console st [("outgoing",
                        envelope (VString "int:reply") (VBinary kind bytes) id)] ++
           [WsSend h (JSON_stringify
                        (VObject [("cmd", VString "int:binaryReply"); ("id", id)])
                        (jsonReplacer st));
            WsSend h (BinaryFrame kind bytes)]) st).
Proof.
  intros Hd Ho. destruct (isOpen_ws _ Ho) as [h Hw]. exists h. split; [done|].
  unfold replyFunc, try_catch, await, bind, ret.
  rewrite (reply_binary _ h) by done. unfold replyTag.
  destruct (truthy isError) eqn:He; [|done].
  rewrite (reply_plain _ h); [|exact Hd|exact Ho|exact Hw|by intros []].
  rewrite set_out_app. unfold console, replyTag. simpl.
  destruct (debug st); simpl; done.
Qed.

Lemma binary_reply_helper_witness :
  replyFunc (VNumber 3) (VBinary ArrayBuffer [Byte.x01]) VUndefined sampleOpen =
    (Return tt,
     set_out (fun o => o ++
       [WsSend 1 (JSON_stringify
                    (VObject [("cmd", VString "int:binaryReply"); ("id", VNumber 3)])
                    VUndefined);
        WsSend 1 (BinaryFrame ArrayBuffer [Byte.x01])]) sampleOpen).
Proof.
  destruct (binary_reply_helper sampleOpen (VNumber 3) ArrayBuffer [Byte.x01] VUndefined)
    as (h & Hw & H); [reflexivity | reflexivity |].
  injection Hw as <-. exact H.
Defined.

(** C8 as stated fails: with the error flag set the helper raises nothing to
    its caller (its promise is fulfilled) and a frame is sent, the
    [errorReply] that carries the refusal. *)
Lemma binary_error_reply_is_sent :
  replyFunc (VNumber 3) (VBinary ArrayBuffer [Byte.x01]) (VBool true) sampleOpen =
    (Return tt,
     set_out (fun o => o ++
       [WsSend 1 (JSON_stringify
                    (envelope (VString "int:errorReply") binaryErrorRefused (VNumber 3))
                    VUndefined)]) sampleOpen).
Proof. reflexivity. Qed.

(** ** Requests, timers and promises

    The part of the state the request tracker works on, and the atomic
    changes the class makes to it. *)

Lemma settled_lookup_ne p q s ps : p <> q -> settled p s ps !! q = ps !! q.
Proof.
  intros Hne. unfold settled. destruct (ps !! p) as [[]|]; try done.
  by rewrite lookup_insert_ne.
Qed.

Lemma settled_lookup_eq p s ps :
  settled p s ps !! p =
    match ps !! p with
    | Some Pending => Some s
    | o => o
    end.
Proof.
  unfold settled. destruct (ps !! p) as [[]|] eqn:E; try done.
  by rewrite lookup_insert_eq.
Qed.

Lemma settled_pending p q s ps :
  s <> Pending -> settled p s ps !! q = Some Pending ->
  p <> q /\ ps !! q = Some Pending.
Proof.
  intros Hs H. destruct (decide (p = q)) as [->|Hne].
  - rewrite settled_lookup_eq in H. destruct (ps !! q) as [[]|]; congruence.
  - by rewrite settled_lookup_ne in H.
Qed.

Lemma settled_not_pending p q s ps :
  s <> Pending -> ps !! q <> Some Pending -> settled p s ps !! q <> Some Pending.
Proof. intros Hs Hq H. by apply settled_pending in H as [_ H]. Qed.

Lemma settled_stays p q s s' ps :
  ps !! q = Some s' -> s' <> Pending -> settled p s ps !! q = Some s'.
Proof.
  intros Hq Hs'. destruct (decide (p = q)) as [->|Hne].
  - rewrite settled_lookup_eq, Hq. by destruct s'.
  - by rewrite settled_lookup_ne.
Qed.

Lemma settled_fresh p q s s' ps n :
  (forall p s, ps !! p = Some s -> (p < n)%nat) ->
  settled p s ps !! q = Some s' -> (q < n)%nat.
Proof.
  intros Hf H. destruct (decide (p = q)) as [->|Hne].
  - rewrite settled_lookup_eq in H. destruct (ps !! q) as [s0|] eqn:E; [|done].
    by eapply Hf.
  - rewrite settled_lookup_ne in H by done. by eapply Hf.
Qed.

Lemma rejectTimer_inj p d e p' d' e' :
  rejectTimer p d e = rejectTimer p' d' e' -> p = p' /\ d = d' /\ e = e'.
Proof. intros H. by injection H. Qed.

Lemma wrapperOk_linked c t p : wrapperOk c t p -> linked c t p.
Proof. by intros (_ & _ & H). Qed.

Lemma holds_linked c t p : Inv c -> holds c t p -> linked c t p.
Proof.
  intros HI [[id Hid] | Hs].
  - destruct (inv_entries _ HI _ _ Hid) as (t' & p' & E & Hok).
    injection E as <- <-. by apply wrapperOk_linked.
  - pose proof (inv_slot _ HI) as H. unfold slotOk in H. rewrite Hs in H.
    by apply wrapperOk_linked.
Qed.

Lemma armed_linked c t p d e :
  c_timers c !! t = Some (rejectTimer p d e) -> linked c t p.
Proof. unfold linked. intros ->. by eexists _, _. Qed.

Lemma wrapperOk_same c c' t p :
  c_timers c' = c_timers c -> c_nextTimer c' = c_nextTimer c ->
  c_promises c' = c_promises c -> c_nextPromise c' = c_nextPromise c ->
  wrapperOk c t p -> wrapperOk c' t p.
Proof. unfold wrapperOk. by intros -> -> -> ->. Qed.

Lemma linked_other_promise c t p t' p' d e :
  Inv c -> linked c t p ->
  c_timers c !! t' = Some (rejectTimer p' d e) -> t' <> t -> p' <> p.
Proof.
  intros HI Hl Ht' Hne ->. unfold linked in Hl.
  destruct (c_timers c !! t) as [tm|] eqn:Ht.
  - destruct Hl as (d0 & e0 & ->). apply Hne.
    by eapply (inv_timer_unique _ HI).
  - destruct (inv_timer_kind _ HI _ _ Ht') as [[src Hsrc]|(p0 & cmd & r & E & Hp)];
      [done|].
    apply rejectTimer_inj in E as (-> & _). done.
Qed.

Lemma linked_same_timer c t p p' d e :
  linked c t p -> c_timers c !! t = Some (rejectTimer p' d e) -> p' = p.
Proof.
  intros Hl Ht. unfold linked in Hl. rewrite Ht in Hl.
  destruct Hl as (d0 & e0 & E). by apply rejectTimer_inj in E as (-> & _).
Qed.

Section RemoveSettle.

Variables (c : Core) (t p : nat) (s : PromiseState) (a : gmap Z AwaitingReply) (sl : Any).
Hypothesis HI : Inv c.
Hypothesis Hs : s <> Pending.
Hypothesis Hl : linked c t p.

Let c' : Core :=
  mkCore (delete t (c_timers c)) (c_nextTimer c)
         (settled p s (c_promises c)) (c_nextPromise c) a sl.

Lemma wrapperOk_remove_settle t' p' : wrapperOk c t' p' -> wrapperOk c' t' p'.
Proof.
  intros (Ht & Hp & H). split; [done|]. split; [done|]. simpl.
  destruct (decide (t' = t)) as [->|Hne].
  - rewrite lookup_delete_eq. intros Hpend.
    apply settled_pending in Hpend as [Hpp Hpend]; [|done].
    destruct (c_timers c !! t) as [tm|] eqn:E; [|done].
    destruct H as (d & e & ->). by apply (linked_same_timer _ _ _ _ _ _ Hl) in E.
  - rewrite lookup_delete_ne by done.
    destruct (c_timers c !! t'); [done|]. by apply settled_not_pending.
Qed.

Lemma Inv_remove_settle :
  (forall id e, a !! id = Some e -> exists t p, e = wrappers t p /\ wrapperOk c t p) ->
  match sl with
  | Pub VUndefined | Pub VNull => True
  | Priv (ResolveWrapper t p) => wrapperOk c t p
  | _ => False
  end ->
  Inv c'.
Proof.
  intros Ha Hsl. constructor; simpl.
  - intros t' tm [_ H]%lookup_delete_Some. by eapply (inv_timer_fresh _ HI).
  - intros p' s'. apply settled_fresh, (inv_promise_fresh _ HI).
  - intros t' tm [Hne H]%lookup_delete_Some.
    destruct (inv_timer_kind _ HI _ _ H) as [?|(p' & cmd & r & -> & Hp)]; [by left|].
    right. exists p', cmd, r. split; [done|].
    rewrite settled_lookup_ne; [done|].
    apply not_eq_sym. eapply linked_other_promise; [exact HI|exact Hl|exact H|done].
  - intros t1 t2 p' d1 e1 d2 e2 [_ H1]%lookup_delete_Some [_ H2]%lookup_delete_Some.
    by eapply (inv_timer_unique _ HI).
  - intros p' [Hne Hp]%settled_pending; [|done].
    destruct (inv_pending_armed _ HI _ Hp) as (t' & d & e & Ht').
    exists t', d, e. rewrite lookup_delete_ne; [done|].
    intros <-. by apply (linked_same_timer _ _ _ _ _ _ Hl) in Ht'.
  - intros id e He. destruct (Ha _ _ He) as (t' & p' & -> & Hok).
    exists t', p'. split; [done|]. by apply wrapperOk_remove_settle.
  - pose proof wrapperOk_remove_settle as W. unfold slotOk. simpl.
    destruct sl as [[]|[]]; try done. by apply W.
Qed.

End RemoveSettle.

Lemma wrapperOk_grow c c' t p :
  (forall t tm, c_timers c !! t = Some tm -> (t < c_nextTimer c)%nat) ->
  (forall p s, c_promises c !! p = Some s -> (p < c_nextPromise c)%nat) ->
  (c_nextTimer c <= c_nextTimer c')%nat ->
  (c_nextPromise c <= c_nextPromise c')%nat ->
  (forall t, (t < c_nextTimer c)%nat -> c_timers c' !! t = c_timers c !! t) ->
  (forall p, (p < c_nextPromise c)%nat -> c_promises c' !! p = c_promises c !! p) ->
  wrapperOk c t p -> wrapperOk c' t p.
Proof.
  intros _ _ Hnt Hnp HT HP (Ht & Hp & H).
  split; [lia|]. split; [lia|]. by rewrite HT, HP.
Qed.

Lemma Inv_coreStep c c' : Inv c -> coreStep c c' -> Inv c'.
Proof.
  intros HI Hstep. destruct Hstep.
  - (* the map is emptied *)
    destruct HI. constructor; simpl; try done.
  - (* an entry is deleted *)
    destruct HI. constructor; simpl; try done.
    intros id' e [_ He]%lookup_delete_Some.
    destruct (inv_entries0 _ _ He) as (t & p & -> & Hok). by exists t, p.
  - (* the slot takes a resolver of the map *)
    pose proof (inv_entries _ HI _ _ H) as (t' & p' & E & Hok).
    injection E as <- <-.
    destruct HI. constructor; simpl; try done.
  - (* the slot is cleared *)
    destruct HI. constructor; simpl; try done.
  - (* a script timer is armed *)
    assert (Hgrow : forall t p, wrapperOk c t p ->
      wrapperOk (mkCore (<[c_nextTimer c := mkTimer (RunScript src) d args]> (c_timers c))
                        (S (c_nextTimer c)) (c_promises c) (c_nextPromise c)
                        (c_awaiting c) (c_slot c)) t p).
    { intros t p. apply wrapperOk_grow; simpl; try apply HI; try lia; try done.
      intros t' Ht'. rewrite lookup_insert_ne; [done|lia]. }
    constructor; simpl.
    + intros t tm [[<- _]|[_ H]]%lookup_insert_Some; [lia|].
      pose proof (inv_timer_fresh _ HI _ _ H). lia.
    + apply HI.
    + intros t tm [[<- <-]|[_ H]]%lookup_insert_Some; [left; by eexists|].
      by apply (inv_timer_kind _ HI _ _ H).
    + intros t1 t2 p d1 e1 d2 e2
        [[_ ?]|[_ H1]]%lookup_insert_Some [[_ ?]|[_ H2]]%lookup_insert_Some; try done.
      by eapply (inv_timer_unique _ HI).
    + intros p Hp. destruct (inv_pending_armed _ HI _ Hp) as (t & d0 & e & Ht).
      exists t, d0, e. rewrite lookup_insert_ne; [done|].
      pose proof (inv_timer_fresh _ HI _ _ Ht). lia.
    + intros id e He. destruct (inv_entries _ HI _ _ He) as (t & p & -> & Hok).
      exists t, p. split; [done|]. by apply Hgrow.
    + pose proof (inv_slot _ HI) as Hsl. unfold slotOk in *. simpl.
      destruct (c_slot c) as [[]|[]]; try done. by apply Hgrow.
  - (* a request is registered *)
    set (t0 := c_nextTimer c). set (p0 := c_nextPromise c).
    set (c' := mkCore _ _ _ _ _ _).
    assert (Hgrow : forall t p, wrapperOk c t p -> wrapperOk c' t p).
    { intros t p. apply wrapperOk_grow; simpl; try apply HI; try lia.
      - intros t' Ht'. rewrite lookup_insert_ne; [done|]. unfold t0. lia.
      - intros p' Hp'. rewrite lookup_insert_ne; [done|]. unfold p0. lia. }
    assert (Hold : forall p s, c_promises c !! p = Some s -> p <> p0).
    { intros p s Hp. pose proof (inv_promise_fresh _ HI _ _ Hp). unfold p0. lia. }
    assert (Holdt : forall t tm, c_timers c !! t = Some tm -> t <> t0).
    { intros t tm Ht. pose proof (inv_timer_fresh _ HI _ _ Ht). unfold t0. lia. }
    constructor; simpl.
    + intros t tm [[<- _]|[_ H]]%lookup_insert_Some; [lia|].
      pose proof (inv_timer_fresh _ HI _ _ H). lia.
    + intros p s [[<- _]|[_ H]]%lookup_insert_Some; [lia|].
      pose proof (inv_promise_fresh _ HI _ _ H). lia.
    + intros t tm [[<- <-]|[_ H]]%lookup_insert_Some.
      * right. exists p0, cmd, r. split; [done|]. by rewrite lookup_insert_eq.
      * destruct (inv_timer_kind _ HI _ _ H) as [?|(p & cmd' & r' & -> & Hp)];
          [by left|].
        right. exists p, cmd', r'. split; [done|].
        rewrite lookup_insert_ne; [done|]. apply not_eq_sym. by eapply Hold.
    + intros t1 t2 p d1 e1 d2 e2
        [[<- E1]|[Hn1 H1]]%lookup_insert_Some [[<- E2]|[Hn2 H2]]%lookup_insert_Some.
      * done.
      * apply rejectTimer_inj in E1 as (<- & _).
        destruct (inv_timer_kind _ HI _ _ H2) as [[? ?]|(p & ? & ? & E & Hp)]; [done|].
        apply rejectTimer_inj in E as (<- & _). by destruct (Hold _ _ Hp).
      * apply rejectTimer_inj in E2 as (<- & _).
        destruct (inv_timer_kind _ HI _ _ H1) as [[? ?]|(p & ? & ? & E & Hp)]; [done|].
        apply rejectTimer_inj in E as (<- & _). by destruct (Hold _ _ Hp).
      * by eapply (inv_timer_unique _ HI).
    + intros p [[<- _]|[Hn Hp]]%lookup_insert_Some.
      * exists t0, (Pub r), (replyTimeoutError cmd r). by rewrite lookup_insert_eq.
      * destruct (inv_pending_armed _ HI _ Hp) as (t & d0 & e & Ht).
        exists t, d0, e. rewrite lookup_insert_ne; [done|].
        apply not_eq_sym. by eapply Holdt.
    + intros id' e [[<- <-]|[_ He]]%lookup_insert_Some.
      * exists t0, p0. split; [done|]. unfold wrapperOk. simpl.
        rewrite lookup_insert_eq. split; [lia|]. split; [lia|]. by eexists _, _.
      * destruct (inv_entries _ HI _ _ He) as (t & p & -> & Hok).
        exists t, p. split; [done|]. by apply Hgrow.
    + pose proof (inv_slot _ HI) as Hsl. unfold slotOk in *. simpl.
      destruct (c_slot c) as [[]|[]]; try done. by apply Hgrow.
  - (* a wrapper settles its request *)
    apply Inv_remove_settle; try done.
    + by apply holds_linked.
    + apply HI.
    + apply (inv_slot _ HI).
  - (* a timeout fires *)
    apply Inv_remove_settle; try done.
    + by eapply armed_linked.
    + apply HI.
    + apply (inv_slot _ HI).
  - (* a script timer fires *)
    assert (Hkeep : forall t' p', wrapperOk c t' p' ->
      wrapperOk (mkCore (delete t (c_timers c)) (c_nextTimer c) (c_promises c)
                        (c_nextPromise c) (c_awaiting c) (c_slot c)) t' p').
    { intros t' p' (Ht' & Hp' & Hm). split; [done|]. split; [done|]. simpl.
      destruct (decide (t' = t)) as [->|Hne].
      - rewrite H in Hm. destruct Hm as (d & e & ->). done.
      - by rewrite lookup_delete_ne. }
    constructor; simpl.
    + intros t' tm' [_ Ht']%lookup_delete_Some. by eapply (inv_timer_fresh _ HI).
    + apply HI.
    + intros t' tm' [_ Ht']%lookup_delete_Some. by apply (inv_timer_kind _ HI _ _ Ht').
    + intros t1 t2 p d1 e1 d2 e2 [_ H1]%lookup_delete_Some [_ H2]%lookup_delete_Some.
      by eapply (inv_timer_unique _ HI).
    + intros p Hp. destruct (inv_pending_armed _ HI _ Hp) as (t' & d & e & Ht').
      exists t', d, e. rewrite lookup_delete_ne; [done|].
      intros <-. rewrite H in Ht'. injection Ht' as ->. done.
    + intros id e He. destruct (inv_entries _ HI _ _ He) as (t' & p' & -> & Hok).
      exists t', p'. split; [done|]. by apply Hkeep.
    + pose proof (inv_slot _ HI) as Hsl. unfold slotOk in *. simpl.
      destruct (c_slot c) as [[]|[]]; try done. by apply Hkeep.
Qed.

Lemma Inv_coreSteps c c' : Inv c -> rtc coreStep c c' -> Inv c'.
Proof. intros HI Hs. induction Hs; eauto using Inv_coreStep. Qed.



(** ** Every event is a sequence of atomic changes *)

Global Instance sameCore_preorder : PreOrder sameCore.
Proof.
  split; [done|]. intros x y z [? ?] [? ?]. split; congruence.
Qed.

Global Instance evolves_preorder : PreOrder evolves.
Proof.
  split; [intros x; apply rtc_refl|].
  intros x y z. unfold evolves. intros Hxy Hyz. by etrans.
Qed.

Lemma sameCore_evolves st st' : sameCore st st' -> evolves st st'.
Proof. unfold sameCore, evolves. intros [-> _]. apply rtc_refl. Qed.

Lemma footprint_evolves st st' : footprint st st' -> evolves st st'.
Proof.
  intros H. unfold evolves, coreOf.
  rewrite (fp_timers _ _ H), (fp_nextTimer _ _ H), (fp_promises _ _ H),
    (fp_nextPromise _ _ H), (fp_slot _ _ H).
  destruct (fp_awaiting _ _ H) as [-> | ->]; [apply rtc_refl|].
  apply rtc_once. apply (cs_clear (coreOf st)).
Qed.

Lemma respects_weaken (R R' : relation Endpoint) {A} (m : M A) :
  (forall st st', R st st' -> R' st st') -> respects R m -> respects R' m.
Proof. intros HR Hm st. apply HR, Hm. Qed.

Lemma sameCore_modify (f : Endpoint -> Endpoint) :
  (forall st, coreOf (f st) = coreOf st /\ destroyed (f st) = destroyed st) ->
  respects sameCore (modify f).
Proof. intros Hf st. apply Hf. Qed.

Ltac same_core :=
  repeat first
    [ apply (respects_ret _) | apply (respects_throw _) | apply (respects_gets _)
    | apply sameCore_modify; intros ?; split; reflexivity
    | apply (respects_when _)
    | apply (respects_forEach _); intros ?
    | apply (respects_bind _); [|intros ?]
    | apply (respects_try_catch _); [|intros ?]
    | match goal with
      | |- respects _ (match ?x with _ => _ end) => destruct x
      end ].

Lemma sameCore_effect e : respects sameCore (effect e).
Proof. unfold effect. same_core. Qed.

Lemma sameCore_debugLog text v : respects sameCore (debugLog text v).
Proof. unfold debugLog. same_core. Qed.

Lemma sameCore_ws_send f : respects sameCore (ws_send f).
Proof. unfold ws_send. same_core. Qed.

Lemma sameCore_ws_close h : respects sameCore (ws_close h).
Proof. unfold ws_close. same_core. Qed.

Lemma sameCore_removeEventListener h ev : respects sameCore (removeEventListener h ev).
Proof. unfold removeEventListener. same_core. Qed.

Lemma sameCore_addEventListener h ev o : respects sameCore (addEventListener h ev o).
Proof. unfold addEventListener. same_core. Qed.

Lemma sameCore_addListener ev o b : respects sameCore (addListener ev o b).
Proof. unfold addListener. same_core. Qed.

Lemma sameCore_removeAllListeners : respects sameCore removeAllListeners.
Proof. unfold removeAllListeners. same_core. Qed.

Lemma sameCore_removeWsListeners : respects sameCore removeWsListeners.
Proof. unfold removeWsListeners. same_core. Qed.

Lemma sameCore_reply id payload isError : respects sameCore (reply id payload isError).
Proof. unfold reply. same_core. Qed.

Lemma sameCore_await v : respects sameCore (await v).
Proof. unfold await. same_core. Qed.

Lemma sameCore_callThunk f : respects sameCore (callThunk f).
Proof. unfold callThunk. same_core. Qed.

Lemma sameCore_replyFunc id payload isError :
  respects sameCore (replyFunc id payload isError).
Proof.
  unfold replyFunc. same_core;
    first [apply sameCore_await | apply sameCore_callThunk].
Qed.

Lemma sameCore_transportState h rs : respects sameCore (transportState h rs).
Proof. unfold transportState. same_core. Qed.

Lemma evolves_emit name args : respects evolves (emit name args).
Proof. eapply respects_weaken; [apply footprint_evolves|apply quiet_emit]. Qed.

Lemma evolves_destroy : respects evolves destroy.
Proof. eapply respects_weaken; [apply footprint_evolves|apply quiet_destroy]. Qed.

Ltac by_same_core lem :=
  eapply respects_weaken; [apply sameCore_evolves | apply lem].

Lemma evolves_changeWebSocket h : respects evolves (changeWebSocket h).
Proof.
  assert (Harm : forall d args,
    respects evolves (setTimeout (Pub (VNumber 0)) d args)).
  { intros d args st. unfold setTimeout, arm. method.
    destruct (host st); simpl; [reflexivity|].
    apply rtc_once. apply (cs_script (coreOf st)). }
  unfold changeWebSocket.
  apply (respects_bind _); [apply (respects_gets _)|]. intros [|]; [apply (respects_ret _)|].
  apply (respects_bind _); [by_same_core sameCore_removeWsListeners|]. intros _.
  apply (respects_bind _); [by_same_core sameCore_addListener|]. intros _.
  apply (respects_bind _); [by_same_core sameCore_modify; by intros|]. intros _.
  apply (respects_bind _); [apply (respects_gets _)|]. intros [|].
  { apply (respects_bind _); [apply Harm|]. intros _. apply (respects_ret _). }
  apply (respects_bind _); [apply (respects_gets _)|]. intros bt.
  apply (respects_bind _); [by_same_core sameCore_modify; by intros|]. intros _.
  apply (respects_bind _).
  { apply (respects_forEach _). intros ev. by_same_core sameCore_addEventListener. }
  intros _. apply (respects_bind _); [apply (respects_gets _)|]. intros [|].
  - apply (respects_bind _); [apply Harm|]. intros _. apply (respects_ret _).
  - apply (respects_ret _).
Qed.

Lemma evolves_send cmd payload replyTimeout :
  respects evolves (send cmd payload replyTimeout).
Proof.
  intros st. unfold send, setTimeout, arm, newPromise, ws_send.
  destruct (debug st) eqn:Hdebug; destruct (ws st) eqn:Hw;
    repeat (progress (method; rewrite ?Hdebug, ?Hw));
    (destruct (destroyed st || _); [reflexivity|]);
    (destruct cmd; try reflexivity);
    (destruct (String.prefix _ _); [reflexivity|]);
    (case_bool_decide; [reflexivity|]);
    repeat (progress (method; rewrite ?Hdebug, ?Hw));
    first [ by apply sameCore_evolves
          | apply rtc_once;
            apply (cs_request (coreOf st) (msgId st) s
                     (orDefault replyTimeout (VNumber 2000))) ].
Qed.

Lemma respects_sound {A} (m : M A) : respects evolves m -> sound m.
Proof. intros H st _. apply H. Qed.

Lemma sameCore_sound {A} (m : M A) : respects sameCore m -> sound m.
Proof. intros H st _. apply sameCore_evolves, H. Qed.

Lemma evolves_Inv st st' : Inv (coreOf st) -> evolves st st' -> Inv (coreOf st').
Proof. apply Inv_coreSteps. Qed.

Lemma sound_bind {A B} (m : M A) (k : A -> M B) :
  sound m -> (forall a, sound (k a)) -> sound (bind m k).
Proof.
  intros Hm Hk st HI. unfold bind. specialize (Hm st HI).
  destruct (m st) as [[a|e] st'] eqn:E; simpl in *; [|done].
  etrans; [exact Hm|]. apply Hk. by eapply evolves_Inv.
Qed.

Lemma sound_gets_bind {A B} (f : Endpoint -> A) (k : A -> M B) :
  (forall st, Inv (coreOf st) -> evolves st (k (f st) st).2) ->
  sound (bind (gets f) k).
Proof. intros H st HI. unfold bind, gets. by apply H. Qed.

Lemma sound_ret {A} (a : A) : sound (ret a).
Proof. intros st _. reflexivity. Qed.

(** A wrapper of a pending request is called. *)
Lemma sound_call_wrapper st t p f args :
  Inv (coreOf st) -> holds (coreOf st) t p ->
  f = ResolveWrapper t p \/ f = RejectWrapper t p ->
  evolves st (call (Priv f) args st).2.
Proof.
  intros HI Hh [-> | ->]; unfold call, applyPrivate, clearTimeout, promiseResolve,
    promiseReject, settle; method.
  - apply rtc_once. eapply (cs_settle (coreOf st) t p); [exact Hh|].
    by destruct (arg0 args) as [| | | | | | | | |[]|].
  - apply rtc_once. eapply (cs_settle (coreOf st) t p); [exact Hh|done].
Qed.

Lemma evolves_mapDelete id : respects evolves (mapDelete id).
Proof.
  intros st. destruct id; try reflexivity. simpl.
  apply rtc_once. apply (cs_delete (coreOf st)).
Qed.

Lemma mapGet_Some id st e :
  mapGet id st = Some e -> exists n, id = VNumber n /\ awaitingReply st !! n = Some e.
Proof. destruct id; try done. by eexists. Qed.

Lemma evolves_bind_at {A B} (m : M A) (k : A -> M B) st :
  evolves st (m st).2 -> (forall a, respects evolves (k a)) ->
  evolves st (bind m k st).2.
Proof.
  intros Hm Hk. unfold bind. destruct (m st) as [[a|e] st1]; [|done].
  etrans; [exact Hm|]. apply Hk.
Qed.

Lemma evolves_bind_same {A B} (m : M A) (k : A -> M B) st :
  respects sameCore m ->
  (forall a st1, coreOf st1 = coreOf st -> evolves st1 (k a st1).2) ->
  evolves st (bind m k st).2.
Proof.
  intros Hm Hk. unfold bind. specialize (Hm st).
  destruct (m st) as [[a|e] st1]; simpl in Hm.
  - destruct Hm as [Hm _]. unfold evolves. rewrite <- Hm. by apply Hk.
  - by apply sameCore_evolves.
Qed.

Lemma sound_onReply cmd payload id : sound (onReply cmd payload id).
Proof.
  unfold onReply. apply sound_gets_bind. intros st HI.
  destruct (mapGet id st) as [e|] eqn:Hget; [|reflexivity].
  apply mapGet_Some in Hget as (n & -> & Hn).
  destruct (inv_entries _ HI _ _ Hn) as (t & p & -> & Hok). simpl.
  assert (Hh : holds (coreOf st) t p) by (left; by exists n).
  apply evolves_bind_at; [|intros _; apply (evolves_mapDelete (VNumber n))].
  destruct (isString cmd "int:reply"); [|destruct (isString cmd "int:errorReply")].
  - apply evolves_bind_at; [|intros _; apply (respects_ret _)].
    apply (sound_call_wrapper st t p (ResolveWrapper t p) [payload] HI Hh). by left.
  - apply evolves_bind_at; [|intros _; apply (respects_ret _)].
    apply (sound_call_wrapper st t p (RejectWrapper t p) [payload] HI Hh). by right.
  - apply rtc_once. apply (cs_take (coreOf st) n t p Hn).
Qed.

Lemma sound_fireTimer t : sound (fireTimer t).
Proof.
  unfold fireTimer. apply sound_gets_bind. intros st HI.
  destruct (timers st !! t) as [tm|] eqn:Ht; [|reflexivity].
  destruct (inv_timer_kind _ HI _ _ Ht) as [[src Hsrc]|(p & cmd & r & -> & Hp)].
  - unfold clearTimeout. method. rewrite Hsrc. simpl.
    apply rtc_once. by eapply (cs_fire_script (coreOf st)).
  - unfold clearTimeout, promiseReject, settle. method.
    apply rtc_once. by eapply (cs_fire (coreOf st)).
Qed.

Section Events.

Variable JSON_parse : string -> option Value.

Lemma sound_onMessage data : sound (onMessage JSON_parse data).
Proof.
  unfold onMessage. apply sound_gets_bind. intros st HI.
  destruct (destroyed st); [reflexivity|].
  destruct data as [text|kind bytes].
  - destruct (JSON_parse text) as [parsed|]; [|reflexivity].
    revert st HI. apply sound_bind.
    { apply sameCore_sound. unfold destructure. same_core. }
    intros [[cmd payload] id].
    apply sound_bind; [apply sameCore_sound, sameCore_debugLog|]. intros _.
    assert (Hdefault : sound (
      if isReplyTag cmd then onReply cmd payload id
      else
        heard ← emit (ToString cmd) [VFunction (ReplyFunc id); payload];
        if heard then ret tt
        else reply id (VString ("No listener for command: " +:+ ToString cmd))
                   (VBool true))).
    { destruct (isReplyTag cmd); [apply sound_onReply|].
      apply sound_bind; [apply respects_sound, evolves_emit|].
      intros []; [apply sound_ret|apply sameCore_sound, sameCore_reply]. }
    destruct cmd; try exact Hdefault.
    apply sameCore_sound, sameCore_debugLog.
  - revert st HI. apply sound_gets_bind. intros st HI.
    pose proof (inv_slot _ HI) as Hslot. unfold slotOk in Hslot. simpl in Hslot.
    destruct (awaitingBinaryReply st) as [[]|[|t p| |]] eqn:Hs; try done;
      try (apply sameCore_evolves, sameCore_debugLog).
    cbn [truthyAny].
    apply evolves_bind_same; [apply sameCore_debugLog|]. intros _ st1 E.
    apply evolves_bind_at.
    + apply (sound_call_wrapper st1 t p (ResolveWrapper t p)); [by rewrite E| |by left].
      right. rewrite E. exact Hs.
    + intros _ st2. apply rtc_once. apply (cs_null (coreOf st2)).
Qed.

Lemma sound_wsListener e : sound (wsListener JSON_parse e).
Proof.
  destruct e; simpl; try apply sound_onMessage;
    (apply sound_bind; [apply respects_sound, evolves_emit|intros; apply sound_ret]).
Qed.

Lemma sound_dispatch h e : sound (dispatch JSON_parse h e).
Proof.
  unfold dispatch. apply sound_bind; [apply respects_sound, (respects_gets _)|].
  intros [s|]; [|apply sound_ret].
  destruct (filter _ _) as [|[name once] rest]; [apply sound_ret|].
  apply sound_bind; [|intros _; apply sound_wsListener].
  apply sameCore_sound. apply (respects_when _), sameCore_removeEventListener.
Qed.

Lemma sound_step ev : sound (step JSON_parse ev).
Proof.
  destruct ev; simpl.
  - apply respects_sound, evolves_changeWebSocket.
  - apply respects_sound, evolves_destroy.
  - apply sound_bind; [apply respects_sound, evolves_send|intros; apply sound_ret].
  - apply sameCore_sound, sameCore_addListener.
  - apply sound_bind; [apply respects_sound, evolves_emit|intros; apply sound_ret].
  - apply sameCore_sound, sameCore_removeAllListeners.
  - apply sameCore_sound, sameCore_replyFunc.
  - apply sameCore_sound. by apply sameCore_modify.
  - apply sameCore_sound. by apply sameCore_modify.
  - apply sameCore_sound, sameCore_transportState.
  - apply sound_dispatch.
  - apply sound_fireTimer.
Qed.

(** The invariant holds along every run. *)
Lemma Inv_after ev st :
  Inv (coreOf st) -> Inv (coreOf (after JSON_parse ev st)).
Proof. intros HI. eapply evolves_Inv; [exact HI|]. by apply sound_step. Qed.

Lemma Inv_run evs st :
  Inv (coreOf st) -> Inv (coreOf (run JSON_parse evs st)).
Proof.
  revert st. induction evs as [|ev evs IH]; intros st HI; simpl; [done|].
  apply IH. by apply Inv_after.
Qed.



End Events.

Lemma Inv_fields h heap o : Inv (coreOf (fields h heap o)).
Proof.
  constructor; simpl; try done.
Qed.

Lemma Inv_constructor h heap o : Inv (coreOf (constructor h heap o).2).
Proof.
  unfold constructor. destruct (opt_ws o); [|apply Inv_fields].
  eapply evolves_Inv; [apply Inv_fields|]. apply evolves_changeWebSocket.
Qed.

(** ** A request, from [send] to its timeout *)

Lemma send_ok st h c payload replyTimeout :
  destroyed st = false -> isOpen st = true -> ws st = Some h -> userCommand c ->
  send (VString c) payload replyTimeout st =
    (Return (Some (nextPromise st)),
     afterSend st h c payload (orDefault replyTimeout (VNumber 2000))).
Proof.
  intros Hd Ho Hw [Hp Hr]. unfold isOpen in Ho.
  unfold send, afterSend, setTimeout, arm, newPromise, ws_send, console.
  destruct (debug st) eqn:Hdebug;
    repeat (progress (method; rewrite ?Hd, ?Ho, ?Hw, ?Hp, ?Hdebug));
    (rewrite bool_decide_eq_false_2 by done);
    repeat (progress (method; rewrite ?Hd, ?Ho, ?Hw, ?Hp, ?Hdebug));
    rewrite ?set_out_app; reflexivity.
Qed.

Lemma send_returns cmd payload replyTimeout st p st1 :
  send cmd payload replyTimeout st = (Return (Some p), st1) ->
  exists c h,
    cmd = VString c /\ userCommand c /\ destroyed st = false /\ isOpen st = true /\
    ws st = Some h /\ p = nextPromise st /\
    st1 = afterSend st h c payload (orDefault replyTimeout (VNumber 2000)).
Proof.
  intros H.
  destruct (destroyed st) eqn:Hd.
  { rewrite send_unusable in H by (by left). done. }
  destruct (isOpen st) eqn:Ho.
  2:{ rewrite send_unusable in H by (by right). done. }
  destruct (isOpen_ws _ Ho) as [h Hw].
  assert (Hinv : ~ invalidCmd cmd).
  { intros Hc.
    destruct (send_refuses st cmd payload replyTimeout Hc Hd Ho) as [m Hm].
    rewrite Hm in H. done. }
  destruct cmd as [| | | |c| | | | | |]; try (by destruct Hinv).
  assert (Hu : userCommand c).
  { split.
    - destruct (String.prefix "int:" c) eqn:Hp; [|done]. destruct Hinv. by left.
    - intros Hr. destruct Hinv. by right. }
  rewrite (send_ok st h) in H by done. injection H as <- <-.
  by exists c, h.
Qed.

Lemma reachable_Inv JSON_parse st : reachable JSON_parse st -> Inv (coreOf st).
Proof. intros (h & heap & o & evs & ->). apply Inv_run, Inv_constructor. Qed.

Lemma run_app JSON_parse evs1 evs2 st :
  run JSON_parse (evs1 ++ evs2) st = run JSON_parse evs2 (run JSON_parse evs1 st).
Proof. unfold run. apply fold_left_app. Qed.

Lemma reachable_run JSON_parse evs st :
  reachable JSON_parse st -> reachable JSON_parse (run JSON_parse evs st).
Proof.
  intros (h & heap & o & evs0 & ->). exists h, heap, o, (evs0 ++ evs).
  by rewrite run_app.
Qed.

(** An armed timeout fires: its promise, still pending, is rejected with
    the error the timer carries. *)
Lemma fire_armed st t p d e :
  timers st !! t = Some (rejectTimer p d e) ->
  promises st !! p = Some Pending ->
  promises (fireTimer t st).2 !! p = Some (Rejected e) /\
  timers (fireTimer t st).2 !! t = None /\
  awaitingReply (fireTimer t st).2 = awaitingReply st.
Proof.
  intros Ht Hp. unfold fireTimer, clearTimeout, promiseReject, settle. method.
  rewrite Ht. method. rewrite settled_lookup_eq, Hp, lookup_delete_eq. done.
Qed.

Section Timeout.

Variable JSON_parse : string -> option Value.


End Timeout.

Lemma sampleOpen_reachable : reachable sampleParse sampleOpen.
Proof.
  exists NodeJS, connecting, sampleOptions,
         [Transport_state 1 OPEN; Transport_event 1 OnOpen].
  reflexivity.
Defined.


(** ** Destroying an endpoint with requests pending *)

Lemma destroy_with_live D st :
  quiet D -> destroyed st = false ->
  footprint (set_awaitingReply (fun _ => ∅) (set_destroyed true st)) (destroy_with D st).2.
Proof.
  intros HD Hd. unfold destroy_with. unfold bind at 1, gets at 1. simpl. rewrite Hd.
  unfold bind at 1, modify at 1. simpl. unfold bind at 1, modify at 1. simpl.
  set (st0 := set_awaitingReply _ _).
  assert (Hq : quiet (
     w ← gets ws; rs ← gets ws_readyState;
     match w with
     | Some h =>
         when (negb (looseEqNumber rs CLOSED))
           (ws_close h;;
            _ ← emit_with D "close"
                  [VObject [("code", VNumber 4000);
                            ("reason", VString "SimpleWebSocketAPI destroy call");
                            ("wasClean", VBool true)]];
            ret tt)
     | None => ret tt
     end;;
     removeAllListeners)).
  { apply (respects_bind _); [apply (respects_gets _)|]. intros w.
    apply (respects_bind _); [apply (respects_gets _)|]. intros rs.
    apply (respects_bind _); [|intros; apply quiet_modify_listeners].
    destruct w; [|apply (respects_ret _)]. apply (respects_when _).
    apply (respects_bind _).
    - unfold ws_close. apply (respects_bind _); [apply quiet_modify_sockets|].
      intros _. by apply quiet_effect.
    - intros _. apply (respects_bind _); [by apply quiet_emit_with|].
      intros; apply (respects_ret _). }
  apply (Hq st0).
Qed.

(** [destroy] on a live endpoint: the pending map is emptied and neither a
    timer nor a promise is touched. *)
Lemma destroy_clears st :
  destroyed st = false ->
  destroyed (destroy st).2 = true /\
  awaitingReply (destroy st).2 = ∅ /\
  timers (destroy st).2 = timers st /\
  promises (destroy st).2 = promises st.
Proof.
  intros Hd.
  pose proof (destroy_with_live (destroy_with (ret tt)) st
                (quiet_destroy_with _ (respects_ret _ tt)) Hd) as H.
  fold destroy in H. repeat split.
  - by apply (fp_destroyed _ _ H).
  - by destruct (fp_awaiting _ _ H) as [-> | ->].
  - by rewrite (fp_timers _ _ H).
  - by rewrite (fp_promises _ _ H).
Qed.

Lemma timesOut_same t p d e st st' :
  timers st' = timers st -> promises st' = promises st ->
  timesOut t p d e st -> timesOut t p d e st'.
Proof. unfold timesOut. by intros -> ->. Qed.

Lemma timesOut_fire t p d e t' st :
  Inv (coreOf st) -> timesOut t p d e st -> timesOut t p d e (fireTimer t' st).2.
Proof.
  intros HI HT. unfold fireTimer, clearTimeout, promiseReject, settle. method.
  destruct (timers st !! t') as [tm|] eqn:Ht'; [|done].
  destruct (inv_timer_kind _ HI _ _ Ht') as [[src Hsrc]|(p' & cmd & r & -> & Hp')].
  - simpl. rewrite Hsrc. simpl. destruct HT as [[Ht Hp]|[Ht Hp]].
    + left. simpl. split; [|done]. rewrite lookup_delete_ne; [done|].
      intros ->. rewrite Ht in Ht'. injection Ht' as <-. done.
    + right. simpl. split; [|done]. by apply lookup_delete_None; right.
  - simpl. destruct HT as [[Ht Hp]|[Ht Hp]].
    + destruct (decide (t' = t)) as [->|Hne].
      * rewrite Ht in Ht'. injection Ht' as -> _ ->.
        right. simpl. by rewrite lookup_delete_eq, settled_lookup_eq, Hp.
      * left. simpl. rewrite lookup_delete_ne by done. split; [done|].
        rewrite settled_lookup_ne; [done|]. intros ->. apply Hne.
        by eapply (inv_timer_unique _ HI).
    + right. simpl. split; [by apply lookup_delete_None; right|].
      by apply settled_stays.
Qed.

Section Destroyed.

Variable JSON_parse : string -> option Value.

Lemma onMessage_destroyed data st :
  destroyed st = true -> onMessage JSON_parse data st = (Return tt, st).
Proof.
  intros Hd. unfold onMessage. unfold bind at 1, gets at 1. simpl. by rewrite Hd.
Qed.

Lemma dead_dispatch h e st :
  destroyed st = true ->
  let st' := (dispatch JSON_parse h e st).2 in
  destroyed st' = true /\ timers st' = timers st /\ promises st' = promises st.
Proof.
  intros Hd.
  assert (Hemit : forall st1 name args,
            sameCore st st1 ->
            destroyed (emit name args st1).2 = true /\
            timers (emit name args st1).2 = timers st /\
            promises (emit name args st1).2 = promises st).
  { intros st1 name args [Hc Hdd]. pose proof (quiet_emit name args st1) as H.
    injection Hc as Ht _ Hp _.
    split; [apply (fp_destroyed _ _ H); congruence|].
    split; [by rewrite (fp_timers _ _ H)|by rewrite (fp_promises _ _ H)]. }
  assert (G : forall st1, sameCore st st1 ->
            destroyed (wsListener JSON_parse e st1).2 = true /\
            timers (wsListener JSON_parse e st1).2 = timers st /\
            promises (wsListener JSON_parse e st1).2 = promises st).
  { intros st1 Hs. destruct e as [|ev|ev|data]; simpl.
    - specialize (Hemit st1 "open" [] Hs). unfold bind.
      by destruct (emit _ _ st1) as [[]].
    - specialize (Hemit st1 "error" [ev] Hs). unfold bind.
      by destruct (emit _ _ st1) as [[]].
    - specialize (Hemit st1 "close" [ev] Hs). unfold bind.
      by destruct (emit _ _ st1) as [[]].
    - destruct Hs as [Hc Hdd]. injection Hc as Ht _ Hp _.
      rewrite onMessage_destroyed by congruence. simpl.
      split; [congruence|done]. }
  intros st'. subst st'. unfold dispatch, bind, gets. simpl.
  destruct (sockets st !! h) as [s|]; [|done].
  destruct (filter _ _) as [|[name [|]] rest]; [done| |]; simpl.
  - apply G. by split.
  - apply G. by split.
Qed.

(** On a destroyed endpoint nothing but a firing timer changes a timer or a
    promise, and the endpoint stays destroyed. *)
Lemma destroyed_after ev st :
  Inv (coreOf st) ->
  destroyed st = true ->
  destroyed (after JSON_parse ev st) = true /\
  ((timers (after JSON_parse ev st) = timers st /\
    promises (after JSON_parse ev st) = promises st) \/
   exists t, ev = Timer_fires t).
Proof.
  intros HI Hd.
  assert (Hsame : forall {A} (m : M A),
            respects sameCore m ->
            destroyed (m st).2 = true /\
            ((timers (m st).2 = timers st /\ promises (m st).2 = promises st) \/
             exists t, ev = Timer_fires t)).
  { intros A m Hm. destruct (Hm st) as [Hc Hdd]. rewrite Hdd. split; [done|].
    left. by injection Hc as -> _ -> _. }
  assert (Hquiet : forall {A} (m : M A),
            quiet m ->
            destroyed (m st).2 = true /\
            ((timers (m st).2 = timers st /\ promises (m st).2 = promises st) \/
             exists t, ev = Timer_fires t)).
  { intros A m Hm. pose proof (Hm st) as H.
    split; [by apply (fp_destroyed _ _ H)|]. left. split; apply H. }
  unfold after. destruct ev; cbn [step].
  - unfold changeWebSocket. method. rewrite Hd. auto.
  - unfold destroy, destroy_with. method. rewrite Hd. auto.
  - unfold bind. rewrite send_unusable by (by left). auto.
  - apply Hsame, sameCore_addListener.
  - apply Hquiet. apply (respects_bind _); [apply quiet_emit|].
    intros; apply (respects_ret _).
  - apply Hsame, sameCore_removeAllListeners.
  - apply Hsame, sameCore_replyFunc.
  - apply Hsame, sameCore_modify. by intros.
  - apply Hsame, sameCore_modify. by intros.
  - apply Hsame, sameCore_transportState.
  - destruct (dead_dispatch h e st Hd) as (? & ? & ?). auto.
  - split; [|by eauto].
    unfold fireTimer, clearTimeout, promiseReject, settle. method.
    destruct (timers st !! t) as [tm|] eqn:Ht; [|done].
    destruct (inv_timer_kind _ HI _ _ Ht) as [[src Hsrc]|(p & cmd & r & -> & Hp)].
    + simpl. by rewrite Hsrc.
    + done.
Qed.

Lemma timesOut_after t p d e ev st :
  Inv (coreOf st) -> destroyed st = true ->
  timesOut t p d e st -> timesOut t p d e (after JSON_parse ev st).
Proof.
  intros HI Hd HT.
  destruct (destroyed_after ev st HI Hd) as [_ [[Ht Hp]|[t' ->]]].
  - by eapply timesOut_same.
  - by apply timesOut_fire.
Qed.

Lemma timesOut_run t p d e evs st :
  Inv (coreOf st) -> destroyed st = true ->
  timesOut t p d e st -> timesOut t p d e (run JSON_parse evs st).
Proof.
  revert st. induction evs as [|ev evs IH]; intros st HI Hd HT; simpl; [done|].
  apply IH.
  - by apply Inv_after.
  - by apply destroyed_after.
  - by apply timesOut_after.
Qed.

(** C10: when [destroy] is called on a live endpoint, the pending-request
    map is emptied while timers and promises are left as they are.  For a
    request that was pending, the timeout armed by [send] is still armed
    afterwards, and whatever happens next the caller's promise is either
    still pending with that timer armed, in which case the timer's firing
    rejects it with the timeout error, or already rejected with that error:
    it is never resolved, never rejected with anything else and never left
    without its timer. *)
Theorem destroy_leaves_timeouts st id entry :
  reachable JSON_parse st ->
  destroyed st = false ->
  awaitingReply st !! id = Some entry ->
  let st1 := (destroy st).2 in
  awaitingReply st1 = ∅ /\ timers st1 = timers st /\ promises st1 = promises st /\
  exists t p,
    entry = wrappers t p /\
    (promises st !! p = Some Pending ->
     exists c r,
       let timeoutError := replyTimeoutError c r in
       timers st1 !! t = Some (rejectTimer p (Pub r) timeoutError) /\
       forall evs,
         let st2 := run JSON_parse evs st1 in
         (promises st2 !! p = Some Pending /\
          timers st2 !! t = Some (rejectTimer p (Pub r) timeoutError) /\
          promises (after JSON_parse (Timer_fires t) st2) !! p =
            Some (Rejected timeoutError)) \/
         promises st2 !! p = Some (Rejected timeoutError)).
Proof.
  intros Hreach Hd Hentry st1.
  pose proof (reachable_Inv _ _ Hreach) as HI.
  destruct (destroy_clears st Hd) as (Hd1 & Ha1 & Ht1 & Hp1).
  split; [exact Ha1|]. split; [exact Ht1|]. split; [exact Hp1|].
  destruct (inv_entries _ HI _ _ Hentry) as (t & p & -> & Hok).
  exists t, p. split; [done|]. intros Hpending.
  destruct Hok as (_ & _ & Hm). simpl in Hm.
  destruct (timers st !! t) as [tm|] eqn:Ht; [|done].
  destruct Hm as (d & e & ->).
  destruct (inv_timer_kind _ HI _ _ Ht) as [[src Hsrc]|(p' & c & r & E & _)]; [done|].
  injection E as <- -> ->. exists c, r. simpl.
  fold st1 in Ht1, Hp1, Hd1. rewrite Ht1. split; [exact Ht|].
  intros evs.
  assert (HI1 : Inv (coreOf st1)).
  { eapply evolves_Inv; [exact HI|]. apply evolves_destroy. }
  assert (HT : timesOut t p (Pub r) (replyTimeoutError c r)
                 (run JSON_parse evs st1)).
  { apply timesOut_run; [exact HI1|exact Hd1|]. left. by rewrite Ht1, Hp1. }
  destruct HT as [[Ht2 Hp2]|[_ Hp2]]; [left|by right].
  split; [exact Hp2|]. split; [exact Ht2|].
  exact (proj1 (fire_armed _ t _ _ _ Ht2 Hp2)).
Qed.

End Destroyed.

Lemma samplePending_reachable : reachable sampleParse samplePending.
Proof. apply reachable_run, sampleOpen_reachable. Defined.

Lemma destroy_leaves_timeouts_witness :
  awaitingReply (destroy samplePending).2 = ∅ /\
  timers (destroy samplePending).2 = timers samplePending /\
  promises (destroy samplePending).2 = promises samplePending /\
  promises (run sampleParse [Transport_event 1 (OnMessage (TextData replyFrame0));
                             Timer_fires 0]
              (destroy samplePending).2) !! 0%nat =
    Some (Rejected (replyTimeoutError "echo" (VNumber 50))).
Proof.
  destruct (destroy_leaves_timeouts sampleParse samplePending 0 (wrappers 0 0)
              samplePending_reachable eq_refl eq_refl)
    as (H1 & H2 & H3 & t & p & E & H).
  split; [exact H1|]. split; [exact H2|]. split; [exact H3|].
  injection E as <- <-.
  destruct (H eq_refl) as (c & r & Ht & Hevs).
  assert (E0 : timers (destroy samplePending).2 !! 0%nat =
               Some (rejectTimer 0 (Pub (VNumber 50))
                       (replyTimeoutError "echo" (VNumber 50)))) by reflexivity.
  rewrite E0 in Ht.
  apply (f_equal (fun o => match o with
                           | Some tm => arg0 (targs tm)
                           | None => VUndefined
                           end)) in Ht.
  unfold rejectTimer in Ht. cbn [arg0 targs] in Ht. rewrite Ht.
  destruct (Hevs [Transport_event 1 (OnMessage (TextData replyFrame0))])
    as [(_ & _ & Hfire)|Hrej]; [exact Hfire|discriminate Hrej].
Defined.

(** ** The life of a pending-request entry *)

Lemma onReply_reply st n t p payload :
  awaitingReply st !! n = Some (wrappers t p) ->
  onReply (VString "int:reply") payload (VNumber n) st =
    (Return tt,
     set_awaitingReply (delete n)
       (set_promises (settled p (resolution payload)) (set_timers (delete t) st))).
Proof.
  intros Hn. unfold onReply, call, applyPrivate, clearTimeout, promiseResolve, settle.
  method. by rewrite Hn.
Qed.

Lemma onReply_errorReply st n t p payload :
  awaitingReply st !! n = Some (wrappers t p) ->
  onReply (VString "int:errorReply") payload (VNumber n) st =
    (Return tt,
     set_awaitingReply (delete n)
       (set_promises (settled p (Rejected payload)) (set_timers (delete t) st))).
Proof.
  intros Hn. unfold onReply, call, applyPrivate, clearTimeout, promiseReject, settle.
  method. by rewrite Hn.
Qed.

Lemma onReply_binaryReply st n t p payload :
  awaitingReply st !! n = Some (wrappers t p) ->
  onReply (VString "int:binaryReply") payload (VNumber n) st =
    (Return tt,
     set_awaitingReply (delete n)
       (set_awaitingBinaryReply (Priv (ResolveWrapper t p)) st)).
Proof.
  intros Hn. unfold onReply. method. by rewrite Hn.
Qed.

Section Lifecycle.

Variable JSON_parse : string -> option Value.

(** A reply-tagged envelope reaches [onReply] after the [incoming] debug
    line. *)
Lemma onMessage_tagged st text parsed :
  destroyed st = false ->
  JSON_parse text = Some parsed ->
  isReplyTag (getProp "cmd" parsed) = true ->
  onMessage JSON_parse (TextData text) st =
    onReply (getProp "cmd" parsed) (getProp "payload" parsed) (getProp "id" parsed)
      (set_out (fun o => o ++ console st
                  [("incoming", envelope (getProp "cmd" parsed)
                                         (getProp "payload" parsed)
                                         (getProp "id" parsed))]) st).
Proof.
  intros Hd Hp Htag. unfold onMessage. unfold bind at 1, gets at 1. simpl.
  rewrite Hd, Hp.
  destruct parsed; try discriminate Htag. simpl in Htag |- *.
  unfold destructure, console. unfold bind at 1, ret at 1. simpl.
  unfold bind at 1, debugLog. method.
  destruct (debug st) eqn:Hdebug; method;
    (destruct (assoc "cmd" fields0) eqn:Hc; try discriminate Htag);
    rewrite Htag, ?set_out_nil; reflexivity.
Qed.


End Lifecycle.



(** ** Binding a transport that is already closed or open *)

(** Whatever the endpoint, [changeWebSocket] calls no listener and the only
    timers it arms run the script [0]: the bound [emit] it passes to
    [setTimeout] is taken for the delay. *)
Lemma changeWebSocket_schedules_no_emit h st :
  out (changeWebSocket h st).2 = out st /\
  forall t tm,
    timers (changeWebSocket h st).2 !! t = Some tm ->
    timers st !! t = Some tm \/ exists args, tm = scriptTimer args.
Proof.
  unfold changeWebSocket, setTimeout, arm, addListener, removeWsListeners,
    addEventListener, removeEventListener, isClosed, isOpen, scriptTimer.
  method.
  destruct (destroyed st); [by auto|].
  destruct (ws st); method;
    repeat (match goal with
            | |- context [if ?b then _ else _] => destruct b eqn:?
            | |- context [match host ?s with _ => _ end] => destruct (host s) eqn:?
            end; method);
    (split; [reflexivity|]); intros t tm; try (by auto);
    intros [[_ <-]|[_ ?]]%lookup_insert_Some; eauto.
Qed.

(** C2, what the code does: binding a transport that is already closed (or
    already open) never delivers the [close] (or [open]) notification.
    [changeWebSocket] calls [setTimeout(0, this.emit.bind(this), ...)], with
    the delay where the callback belongs.  Under Node the call throws a
    [TypeError] out of [changeWebSocket] and no timer is armed; in a browser
    the number 0 is compiled as the script [0], so the timer that fires on
    the next tick calls nothing.  Subscribers 7 and 8 are never called. *)
Theorem bound_transport_is_not_announced :
  let node := changeWebSocket 1 (subscribed NodeJS closedTransport) in
  let browser := changeWebSocket 1 (subscribed Browser closedTransport) in
  let node' := changeWebSocket 1 (subscribed NodeJS openTransport) in
  let browser' := changeWebSocket 1 (subscribed Browser openTransport) in
  (exists message,
     node.1 = Throw (VError "TypeError" (Some "ERR_INVALID_ARG_TYPE") message)) /\
  timers node.2 = ∅ /\ out node.2 = [] /\
  browser.1 = Return tt /\
  timers browser.2 = {[ 0%nat := scriptTimer [VString "close"; socketAlreadyClosed] ]} /\
  out browser.2 = [] /\
  out (run sampleParse [Timer_fires 0] browser.2) = [] /\
  (exists message,
     node'.1 = Throw (VError "TypeError" (Some "ERR_INVALID_ARG_TYPE") message)) /\
  timers node'.2 = ∅ /\ out node'.2 = [] /\
  browser'.1 = Return tt /\
  timers browser'.2 = {[ 0%nat := scriptTimer [VString "open"] ]} /\
  out browser'.2 = [] /\
  out (run sampleParse [Timer_fires 0] browser'.2) = [].
Proof.
  repeat split; try reflexivity; by eexists.
Qed.

(** ** The ids of the requests sent *)

Global Instance sameRequests_preorder : PreOrder sameRequests.
Proof.
  split; [done|]. intros x y z [? ?] [? ?]. split; congruence.
Qed.

Lemma requestIds_snoc o e :
  requestIds (o ++ [e]) =
    requestIds o ++ match requestId e with Some n => [n] | None => [] end.
Proof. unfold requestIds. rewrite omap_app. simpl. by destruct (requestId e). Qed.

Lemma requestIds_notices o es :
  Forall (fun e => requestId e = None) es -> requestIds (o ++ es) = requestIds o.
Proof.
  intros H. unfold requestIds. rewrite omap_app.
  replace (omap requestId es) with (@nil Z); [by rewrite app_nil_r|].
  induction H as [|e es He _ IH]; simpl; [done|]. by rewrite He.
Qed.

Lemma footprint_sameRequests st st' : footprint st st' -> sameRequests st st'.
Proof.
  intros H. split; [apply H|].
  destruct (fp_out _ _ H) as (es & -> & Hes). apply requestIds_notices.
  eapply Forall_impl; [exact Hes|]. by intros [].
Qed.

Lemma sameRequests_modify (f : Endpoint -> Endpoint) :
  (forall st, msgId (f st) = msgId st /\ out (f st) = out st) ->
  respects sameRequests (modify f).
Proof. intros Hf st. destruct (Hf st) as [Hm Ho]. split; simpl; congruence. Qed.

Lemma sameRequests_effect e : requestId e = None -> respects sameRequests (effect e).
Proof.
  intros He st. split; [done|]. simpl. by rewrite requestIds_snoc, He, app_nil_r.
Qed.

Lemma sameRequests_emit name args : respects sameRequests (emit name args).
Proof. eapply respects_weaken; [apply footprint_sameRequests|apply quiet_emit]. Qed.

Lemma sameRequests_destroy : respects sameRequests destroy.
Proof. eapply respects_weaken; [apply footprint_sameRequests|apply quiet_destroy]. Qed.

Ltac same_requests :=
  repeat first
    [ apply (respects_ret _) | apply (respects_throw _) | apply (respects_gets _)
    | apply sameRequests_emit
    | apply sameRequests_effect; first [reflexivity | by (simpl; repeat case_match)]
    | apply sameRequests_modify; intros ?; split; reflexivity
    | apply (respects_when _)
    | apply (respects_forEach _); intros ?
    | apply (respects_bind _); [|intros ?]
    | apply (respects_try_catch _); [|intros ?]
    | match goal with
      | |- respects _ (match ?x with _ => _ end) => destruct x
      end ].

Lemma sameRequests_reply id payload isError :
  respects sameRequests (reply id payload isError).
Proof.
  unfold reply, ws_send, debugLog, replyTag. destruct (truthy isError); same_requests.
Qed.

Lemma sameRequests_await v : respects sameRequests (await v).
Proof. unfold await. same_requests. Qed.

Lemma sameRequests_callThunk f : respects sameRequests (callThunk f).
Proof. unfold callThunk. same_requests; apply sameRequests_reply. Qed.

Lemma sameRequests_replyFunc id payload isError :
  respects sameRequests (replyFunc id payload isError).
Proof.
  unfold replyFunc. same_requests;
    first [apply sameRequests_await | apply sameRequests_callThunk
          | apply sameRequests_reply].
Qed.

Lemma sameRequests_call f args : respects sameRequests (call f args).
Proof.
  unfold call, applyPrivate, clearTimeout, promiseResolve, promiseReject, settle.
  same_requests;
    first [apply sameRequests_await | apply sameRequests_callThunk
          | apply sameRequests_reply | apply sameRequests_replyFunc].
Qed.

Lemma sameRequests_changeWebSocket h : respects sameRequests (changeWebSocket h).
Proof.
  unfold changeWebSocket, setTimeout, arm, addListener, removeWsListeners,
    addEventListener, removeEventListener.
  same_requests.
Qed.

Lemma sameRequests_fireTimer t : respects sameRequests (fireTimer t).
Proof. unfold fireTimer, clearTimeout. same_requests; apply sameRequests_call. Qed.

Lemma send_outcome cmd payload replyTimeout st :
  (send cmd payload replyTimeout st).2 = st \/
  exists c h,
    userCommand c /\
    (send cmd payload replyTimeout st).2 =
      afterSend st h c payload (orDefault replyTimeout (VNumber 2000)).
Proof.
  destruct (destroyed st) eqn:Hd.
  { left. rewrite send_unusable; [done|by left]. }
  destruct (isOpen st) eqn:Ho.
  2:{ left. rewrite send_unusable; [done|by right]. }
  destruct (isOpen_ws _ Ho) as [h Hw].
  assert (Hinvalid : invalidCmd cmd -> (send cmd payload replyTimeout st).2 = st).
  { intros Hc.
    destruct (send_refuses st cmd payload replyTimeout Hc Hd Ho) as [m Hm].
    by rewrite Hm. }
  destruct cmd as [| | | |c| | | | | |]; try (left; by apply Hinvalid).
  destruct (String.prefix "int:" c) eqn:Hp; [left; apply Hinvalid; by left|].
  destruct (decide (c ∈ reservedEvents)) as [Hr|Hr]; [left; apply Hinvalid; by right|].
  right. exists c, h. split; [done|]. by rewrite (send_ok st h).
Qed.

Lemma counted_same st st' : sameRequests st st' -> counted st -> counted st'.
Proof. unfold counted. intros [-> ->]. done. Qed.

Lemma MAX_EXACT_pos : 0 < MAX_EXACT.
Proof. done. Qed.

Lemma increment_min n :
  0 <= n -> increment (Z.min MAX_EXACT n) = Z.min MAX_EXACT (n + 1).
Proof.
  intros Hn. unfold increment. pose proof MAX_EXACT_pos.
  destruct (Z.ltb_spec (Z.min MAX_EXACT n) MAX_EXACT); lia.
Qed.

Lemma requestIds_afterSend st h c payload r :
  userCommand c ->
  requestIds (out (afterSend st h c payload r)) = requestIds (out st) ++ [msgId st].
Proof.
  intros [Hp _]. simpl. rewrite app_assoc, requestIds_snoc. simpl. rewrite Hp.
  f_equal. apply requestIds_notices. unfold console.
  destruct (debug st); repeat constructor.
Qed.

Lemma counted_afterSend st h c payload r :
  userCommand c -> counted st -> counted (afterSend st h c payload r).
Proof.
  intros Hu [Hids Hm]. unfold counted.
  rewrite requestIds_afterSend by done.
  change (msgId (afterSend st h c payload r)) with (increment (msgId st)).
  set (ids := requestIds (out st)) in *.
  rewrite length_app. simpl. rewrite Nat.add_1_r. split.
  - rewrite seqZ_S, fmap_app, <- Hids. simpl. by rewrite Hm.
  - rewrite Hm, increment_min by lia. f_equal. lia.
Qed.

Section Counter.

Variable JSON_parse : string -> option Value.

Lemma sameRequests_onMessage data : respects sameRequests (onMessage JSON_parse data).
Proof.
  unfold onMessage, onReply, destructure, mapDelete, debugLog.
  same_requests;
    first [apply sameRequests_call | apply sameRequests_reply].
Qed.

Lemma sameRequests_dispatch h e : respects sameRequests (dispatch JSON_parse h e).
Proof.
  unfold dispatch. apply (respects_bind _); [apply (respects_gets _)|].
  intros [s|]; [|apply (respects_ret _)].
  destruct (filter _ _) as [|[name once] rest]; [apply (respects_ret _)|].
  apply (respects_bind _).
  { apply (respects_when _). unfold removeEventListener. same_requests. }
  intros _. destruct e; simpl; try apply sameRequests_onMessage;
    (apply (respects_bind _); [apply sameRequests_emit|intros; apply (respects_ret _)]).
Qed.

Lemma counted_after ev st : counted st -> counted (after JSON_parse ev st).
Proof.
  intros Hc. unfold after.
  assert (Hsame : forall {A} (m : M A), respects sameRequests m -> counted (m st).2).
  { intros A m Hm. eapply counted_same; [apply Hm|exact Hc]. }
  destruct ev; cbn [step].
  - apply Hsame, sameRequests_changeWebSocket.
  - apply Hsame, sameRequests_destroy.
  - unfold bind.
    destruct (send_outcome cmd payload replyTimeout st) as [H|(c & h & Hu & H)];
      destruct (send cmd payload replyTimeout st) as [[r|e] st1];
      simpl in H |- *; subst st1; first [done | by apply counted_afterSend].
  - apply Hsame. unfold addListener. same_requests.
  - apply Hsame.
    apply (respects_bind _); [apply sameRequests_emit|intros; apply (respects_ret _)].
  - apply Hsame. unfold removeAllListeners. same_requests.
  - apply Hsame, sameRequests_replyFunc.
  - apply Hsame. by apply sameRequests_modify.
  - apply Hsame. by apply sameRequests_modify.
  - apply Hsame. unfold transportState. same_requests.
  - apply Hsame, sameRequests_dispatch.
  - apply Hsame, sameRequests_fireTimer.
Qed.

Lemma counted_run evs st : counted st -> counted (run JSON_parse evs st).
Proof.
  revert st. induction evs as [|ev evs IH]; intros st Hc; simpl; [done|].
  by apply IH, counted_after.
Qed.

End Counter.

Lemma constructor_fresh h heap o :
  msgId (constructor h heap o).2 = 0 /\ requestIds (out (constructor h heap o).2) = [].
Proof.
  unfold constructor. destruct (opt_ws o) as [w|]; [|done].
  destruct (sameRequests_changeWebSocket w (fields h heap o)) as [-> ->]. done.
Qed.

Lemma counted_constructor h heap o : counted (constructor h heap o).2.
Proof.
  destruct (constructor_fresh h heap o) as [Hm Ho]. unfold counted.
  rewrite Ho, Hm. done.
Qed.

Section RequestIds.

Variable JSON_parse : string -> option Value.

(** C6, as the code has it: the counter of a new endpoint is 0.  However
    the endpoint is used afterwards (sends, replies, rebinds of the
    transport, incoming frames, timeouts), the [k]-th request it transmitted
    carries the id [min (2^53) k] and the counter is the number of requests
    transmitted, capped at [2^53] (a JavaScript number is incremented exactly
    only below [2^53]).  Hence the ids of the first [2^53] requests are
    0, 1, 2, ... in the order of transmission, strictly increasing and never
    reset.  A [send] with a valid command name on a live endpoint with an
    open transport hands exactly one frame to the transport, the envelope
    carrying the counter as id, and below [2^53] adds exactly one to the
    counter. *)
Theorem request_ids_are_counted h heap o evs :
  let st0 := (constructor h heap o).2 in
  let st := run JSON_parse evs st0 in
  let ids := requestIds (out st) in
  let n := Z.of_nat (length ids) in
  msgId st0 = 0 /\
  msgId st = Z.min MAX_EXACT n /\
  ids = Z.min MAX_EXACT <$> seqZ 0 n /\
  (n <= MAX_EXACT ->
   ids = seqZ 0 n /\
   forall i j a b, ids !! i = Some a -> ids !! j = Some b -> (i < j)%nat -> a < b) /\
  forall c payload replyTimeout,
    userCommand c -> destroyed st = false -> isOpen st = true ->
    exists hs,
      ws st = Some hs /\
      let request := envelope (VString c) payload (VNumber (msgId st)) in
      let st1 := (send (VString c) payload replyTimeout st).2 in
      out st1 = out st ++ console st [("outgoing", request)] ++
                [WsSend hs (JSON_stringify request (jsonReplacer st))] /\
      requestIds (out st1) = ids ++ [msgId st] /\
      (msgId st < MAX_EXACT -> msgId st1 = msgId st + 1).
Proof.
  intros st0 st ids n.
  assert (Hc : counted st) by apply counted_run, counted_constructor.
  destruct Hc as [Hids Hm]. fold ids in Hids, Hm. fold n in Hids, Hm.
  split; [apply constructor_fresh|]. split; [exact Hm|]. split; [exact Hids|].
  split.
  - intros Hn.
    assert (E : ids = seqZ 0 n).
    { rewrite Hids at 1. apply list_eq. intros i. rewrite list_lookup_fmap.
      destruct (seqZ 0 n !! i) as [x|] eqn:Ex; [|done]. simpl.
      apply lookup_seqZ in Ex as [-> ?]. f_equal. lia. }
    split; [exact E|].
    intros i j a b. rewrite E. intros [-> ?]%lookup_seqZ [-> ?]%lookup_seqZ. lia.
  - intros c payload replyTimeout Hu Hd Ho.
    destruct (isOpen_ws _ Ho) as [hs Hw]. exists hs. split; [exact Hw|].
    rewrite (send_ok st hs) by done. cbn [snd].
    split; [reflexivity|]. split; [by apply requestIds_afterSend|].
    intros Hlt. change (increment (msgId st) = msgId st + 1).
    unfold increment. destruct (Z.ltb_spec (msgId st) MAX_EXACT); [done|lia].
Qed.

Lemma userCommand_echo : userCommand "echo".
Proof. split; [reflexivity|]. by apply (bool_decide_unpack _). Qed.

Lemma sends_are_counted k st :
  destroyed st = false -> isOpen st = true ->
  let st' := run JSON_parse (replicate k (Call_send (VString "echo") VNull VUndefined)) st in
  length (requestIds (out st')) = (length (requestIds (out st)) + k)%nat /\
  destroyed st' = false /\ isOpen st' = true.
Proof.
  revert st. induction k as [|k IH]; intros st Hd Ho; simpl.
  { by rewrite Nat.add_0_r. }
  destruct (isOpen_ws _ Ho) as [h Hw].
  assert (E : after JSON_parse (Call_send (VString "echo") VNull VUndefined) st =
              afterSend st h "echo" VNull (VNumber 2000)).
  { unfold after. cbn [step]. unfold bind.
    by rewrite (send_ok st h) by (done || apply userCommand_echo). }
  rewrite E. set (st1 := afterSend _ _ _ _ _).
  destruct (IH st1) as (Hlen & Hd' & Ho'); [exact Hd|exact Ho|].
  split; [|done]. rewrite Hlen. unfold st1.
  rewrite requestIds_afterSend by apply userCommand_echo.
  rewrite length_app. simpl. lia.
Qed.

End RequestIds.

Lemma request_ids_are_counted_witness :
  let st := run sampleParse twoTransports sampleNew in
  msgId st = 2 /\
  requestIds (out st) = [0; 1] /\
  out st =
    [ WsSend 1 (JSON_stringify (envelope (VString "echo") VNull (VNumber 0)) VUndefined);
      WsSend 2 (JSON_stringify
                  (envelope (VString "sum") (VArray [VNumber 1; VNumber 2]) (VNumber 1))
                  VUndefined) ].
Proof.
  destruct (request_ids_are_counted sampleParse NodeJS connecting sampleOptions
              twoTransports) as (_ & Hm & _ & Hn & _).
  split; [exact Hm|]. split; [|reflexivity].
  apply Hn. done.
Defined.

(** C6 as stated fails: the counter stops at [2^53], so of [2^53 + 2]
    consecutive requests the last two carry the same id. *)
Lemma request_id_repeats_beyond_2_53 :
  let k := Z.to_nat MAX_EXACT in
  let evs := replicate (S (S k)) (Call_send (VString "echo") VNull VUndefined) in
  let ids := requestIds (out (run sampleParse evs sampleOpen)) in
  ids !! k = Some MAX_EXACT /\ ids !! S k = Some MAX_EXACT.
Proof.
  intros k evs ids.
  assert (Hk : Z.of_nat k = MAX_EXACT) by (by apply Z2Nat.id).
  clearbody k.
  assert (Hc : counted (run sampleParse evs sampleOpen)).
  { apply counted_run. unfold sampleOpen. apply counted_run, counted_constructor. }
  destruct Hc as [Hids _]. fold ids in Hids.
  destruct (sends_are_counted sampleParse (S (S k)) sampleOpen eq_refl eq_refl)
    as (Hlen & _ & _).
  fold evs in Hlen. fold ids in Hlen.
  change (length (requestIds (out sampleOpen))) with 0%nat in Hlen.
  rewrite Hlen in Hids. rewrite Hids, !list_lookup_fmap.
  rewrite !lookup_seqZ_lt by lia. simpl. split; f_equal; lia.
Qed.

(** ** A request and its reply *)

Lemma onMessage_binary JSON_parse st kind bytes t p :
  destroyed st = false ->
  awaitingBinaryReply st = Priv (ResolveWrapper t p) ->
  onMessage JSON_parse (BinaryData kind bytes) st =
    (Return tt,
     set_awaitingBinaryReply (Pub VNull)
       (set_promises (settled p (Fulfilled (VBinary kind bytes)))
          (set_timers (delete t)
             (set_out (fun o => o ++ console st
                         [("incoming binary",
                           VObject [("size", VNumber (Z.of_nat (length bytes)))])]) st)))).
Proof.
  intros Hd Hs. unfold onMessage, call, applyPrivate, clearTimeout, promiseResolve, settle,
    console, debugLog.
  destruct (debug st) eqn:Hdebug;
    repeat (progress (method; rewrite ?Hd, ?Hs, ?Hdebug)); by rewrite ?set_out_nil.
Qed.

Lemma fireTimer_reject st t p d e :
  timers st !! t = Some (rejectTimer p d e) ->
  fireTimer t st =
    (Return tt, set_promises (settled p (Rejected e)) (set_timers (delete t) st)).
Proof.
  intros Ht. unfold fireTimer, clearTimeout, promiseReject, settle. method.
  rewrite Ht. done.
Qed.

Section RoundTrip.

Variable JSON_parse : string -> option Value.

(** X1, a request and its reply: [send] stores the request under the id it
    transmitted, and a [reply] envelope with that id fulfils the promise
    [send] returned with the envelope's payload, an [errorReply] envelope
    rejects it with the payload; either way the handler returns normally,
    the entry leaves the pending map and the timeout is disarmed. *)
Theorem request_reply_round_trip st c payload replyTimeout p st1 text parsed :
  send (VString c) payload replyTimeout st = (Return (Some p), st1) ->
  JSON_parse text = Some parsed ->
  getProp "id" parsed = VNumber (msgId st) ->
  let answer := getProp "payload" parsed in
  let st2 := (onMessage JSON_parse (TextData text) st1).2 in
  promises st1 !! p = Some Pending /\
  (getProp "cmd" parsed = VString "int:reply" ->
   (onMessage JSON_parse (TextData text) st1).1 = Return tt /\
   promises st2 !! p = Some (resolution answer) /\
   awaitingReply st2 !! msgId st = None /\
   timers st2 !! nextTimer st = None) /\
  (getProp "cmd" parsed = VString "int:errorReply" ->
   (onMessage JSON_parse (TextData text) st1).1 = Return tt /\
   promises st2 !! p = Some (Rejected answer) /\
   awaitingReply st2 !! msgId st = None /\
   timers st2 !! nextTimer st = None).
Proof.
  intros Hsend Hparse Hid answer st2. subst st2 answer.
  apply send_returns in Hsend as (c' & h & E & Hu & Hd & Ho & Hw & -> & ->).
  set (r := orDefault replyTimeout (VNumber 2000)).
  set (st1 := afterSend st h c' payload r).
  split; [unfold st1; simpl; by rewrite lookup_insert_eq|].
  split; intros Hcmd;
    (rewrite onMessage_tagged with (parsed := parsed);
       [|done|exact Hparse|by rewrite Hcmd]);
    rewrite Hcmd, Hid.
  - rewrite (onReply_reply _ (msgId st) (nextTimer st) (nextPromise st));
      [|simpl; by rewrite lookup_insert_eq].
    simpl. rewrite settled_lookup_eq, !lookup_insert_eq, !lookup_delete_eq. done.
  - rewrite (onReply_errorReply _ (msgId st) (nextTimer st) (nextPromise st));
      [|simpl; by rewrite lookup_insert_eq].
    simpl. rewrite settled_lookup_eq, !lookup_insert_eq, !lookup_delete_eq. done.
Qed.

(** X2, a request answered in binary: the [binaryReply] marker with the id
    of the request takes its entry out of the pending map and leaves the
    promise pending with its timeout armed; the binary frame that follows
    fulfils the promise with the binary data, disarms the timeout and sets
    the binary slot to [null]. *)
Theorem binary_reply_round_trip st c payload replyTimeout p st1 text parsed kind bytes :
  send (VString c) payload replyTimeout st = (Return (Some p), st1) ->
  JSON_parse text = Some parsed ->
  getProp "cmd" parsed = VString "int:binaryReply" ->
  getProp "id" parsed = VNumber (msgId st) ->
  let r := orDefault replyTimeout (VNumber 2000) in
  let marker := onMessage JSON_parse (TextData text) st1 in
  let frame := onMessage JSON_parse (BinaryData kind bytes) marker.2 in
  marker.1 = Return tt /\
  promises marker.2 !! p = Some Pending /\
  timers marker.2 !! nextTimer st = Some (rejectTimer p (Pub r) (replyTimeoutError c r)) /\
  awaitingReply marker.2 !! msgId st = None /\
  frame.1 = Return tt /\
  promises frame.2 !! p = Some (Fulfilled (VBinary kind bytes)) /\
  timers frame.2 !! nextTimer st = None /\
  awaitingBinaryReply frame.2 = Pub VNull.
Proof.
  intros Hsend Hparse Hcmd Hid r marker frame. subst frame marker.
  apply send_returns in Hsend as (c' & h & E & Hu & Hd & Ho & Hw & -> & ->).
  injection E as <-. fold r.
  rewrite onMessage_tagged with (parsed := parsed);
    [|done|exact Hparse|by rewrite Hcmd].
  rewrite Hcmd, Hid.
  rewrite (onReply_binaryReply _ (msgId st) (nextTimer st) (nextPromise st));
    [|simpl; by rewrite lookup_insert_eq].
  rewrite (onMessage_binary _ _ _ _ (nextTimer st) (nextPromise st)) by done.
  simpl. rewrite settled_lookup_eq, !lookup_insert_eq, !lookup_delete_eq. done.
Qed.

(** X3, the timeout between marker and data: after the [binaryReply] marker
    the timeout of the request is still armed; if it fires before the binary
    frame arrives the promise is rejected with the timeout error, and the
    binary frame that arrives later is taken by the stale resolver: the
    handler returns normally, the promise stays rejected and the slot is
    reset. *)
Theorem binary_reply_times_out st c payload replyTimeout p st1 text parsed kind bytes :
  send (VString c) payload replyTimeout st = (Return (Some p), st1) ->
  JSON_parse text = Some parsed ->
  getProp "cmd" parsed = VString "int:binaryReply" ->
  getProp "id" parsed = VNumber (msgId st) ->
  let r := orDefault replyTimeout (VNumber 2000) in
  let marker := onMessage JSON_parse (TextData text) st1 in
  let fired := fireTimer (nextTimer st) marker.2 in
  let frame := onMessage JSON_parse (BinaryData kind bytes) fired.2 in
  promises fired.2 !! p = Some (Rejected (replyTimeoutError c r)) /\
  awaitingBinaryReply fired.2 = Priv (ResolveWrapper (nextTimer st) p) /\
  frame.1 = Return tt /\
  promises frame.2 !! p = Some (Rejected (replyTimeoutError c r)) /\
  awaitingBinaryReply frame.2 = Pub VNull.
Proof.
  intros Hsend Hparse Hcmd Hid r marker fired frame. subst frame fired marker.
  apply send_returns in Hsend as (c' & h & E & Hu & Hd & Ho & Hw & -> & ->).
  injection E as <-. fold r.
  rewrite onMessage_tagged with (parsed := parsed);
    [|done|exact Hparse|by rewrite Hcmd].
  rewrite Hcmd, Hid.
  rewrite (onReply_binaryReply _ (msgId st) (nextTimer st) (nextPromise st));
    [|simpl; by rewrite lookup_insert_eq].
  cbn [snd]. set (st2 := set_awaitingReply _ _).
  assert (Ht : timers st2 !! nextTimer st =
               Some (rejectTimer (nextPromise st) (Pub r) (replyTimeoutError c r))).
  { simpl. by rewrite lookup_insert_eq. }
  assert (Hp : promises st2 !! nextPromise st = Some Pending).
  { simpl. by rewrite lookup_insert_eq. }
  rewrite (fireTimer_reject _ _ _ _ _ Ht).
  rewrite (onMessage_binary _ _ _ _ (nextTimer st) (nextPromise st)) by done.
  simpl. rewrite !settled_lookup_eq, !lookup_insert_eq. simpl. done.
Qed.

(** X4, one binary slot: of two [binaryReply] markers that arrive before any
    binary frame, the second replaces the resolver of the first.  The binary
    frame fulfils the second request; the first request has left the pending
    map and stays pending, to be settled by its timeout only. *)
Theorem second_marker_replaces_first
    st id1 id2 t1 p1 t2 p2 text1 parsed1 text2 parsed2 kind bytes :
  destroyed st = false ->
  id1 <> id2 -> p1 <> p2 ->
  awaitingReply st !! id1 = Some (wrappers t1 p1) ->
  awaitingReply st !! id2 = Some (wrappers t2 p2) ->
  promises st !! p1 = Some Pending ->
  promises st !! p2 = Some Pending ->
  JSON_parse text1 = Some parsed1 ->
  getProp "cmd" parsed1 = VString "int:binaryReply" ->
  getProp "id" parsed1 = VNumber id1 ->
  JSON_parse text2 = Some parsed2 ->
  getProp "cmd" parsed2 = VString "int:binaryReply" ->
  getProp "id" parsed2 = VNumber id2 ->
  let st1 := (onMessage JSON_parse (TextData text1) st).2 in
  let st2 := (onMessage JSON_parse (TextData text2) st1).2 in
  let st3 := (onMessage JSON_parse (BinaryData kind bytes) st2).2 in
  awaitingBinaryReply st1 = Priv (ResolveWrapper t1 p1) /\
  awaitingBinaryReply st2 = Priv (ResolveWrapper t2 p2) /\
  promises st3 !! p2 = Some (Fulfilled (VBinary kind bytes)) /\
  promises st3 !! p1 = Some Pending /\
  awaitingReply st3 !! id1 = None /\
  awaitingReply st3 !! id2 = None /\
  awaitingBinaryReply st3 = Pub VNull.
Proof.
  intros Hd Hid Hp He1 He2 Hp1 Hp2 Hparse1 Hcmd1 Hi1 Hparse2 Hcmd2 Hi2 st1 st2 st3.
  subst st3 st2 st1.
  rewrite onMessage_tagged with (parsed := parsed1);
    [|done|exact Hparse1|by rewrite Hcmd1].
  rewrite Hcmd1, Hi1.
  rewrite (onReply_binaryReply _ id1 t1 p1) by done.
  rewrite onMessage_tagged with (parsed := parsed2);
    [|done|exact Hparse2|by rewrite Hcmd2].
  rewrite Hcmd2, Hi2.
  rewrite (onReply_binaryReply _ id2 t2 p2);
    [|simpl; by rewrite lookup_delete_ne].
  rewrite (onMessage_binary _ _ _ _ t2 p2) by done.
  simpl. rewrite settled_lookup_eq, Hp2, settled_lookup_ne by done.
  rewrite Hp1, lookup_delete_eq, lookup_delete_ne, lookup_delete_eq by done. done.
Qed.

(** X5, a reply that arrives after the timeout: the firing timer rejects the
    promise and leaves the entry in the pending map; a [reply] or
    [errorReply] envelope with the id that arrives afterwards is accepted
    without an exception, removes the entry and changes no promise. *)
Theorem late_reply_after_timeout st id t p d e text parsed :
  destroyed st = false ->
  awaitingReply st !! id = Some (wrappers t p) ->
  timers st !! t = Some (rejectTimer p d e) ->
  promises st !! p = Some Pending ->
  JSON_parse text = Some parsed ->
  getProp "cmd" parsed = VString "int:reply" \/
    getProp "cmd" parsed = VString "int:errorReply" ->
  getProp "id" parsed = VNumber id ->
  let fired := (fireTimer t st).2 in
  let late := onMessage JSON_parse (TextData text) fired in
  promises fired !! p = Some (Rejected e) /\
  awaitingReply fired !! id = Some (wrappers t p) /\
  late.1 = Return tt /\
  promises late.2 = promises fired /\
  awaitingReply late.2 = delete id (awaitingReply st).
Proof.
  intros Hd Hentry Ht Hp Hparse Hcmd Hid fired late. subst late fired.
  rewrite (fireTimer_reject _ _ _ _ _ Ht). set (st1 := set_promises _ _).
  assert (Hp1 : promises st1 !! p = Some (Rejected e)).
  { simpl. by rewrite settled_lookup_eq, Hp. }
  assert (Hsame : forall s, settled p s (promises st1) = promises st1).
  { intros s. unfold settled. by rewrite Hp1. }
  split; [exact Hp1|]. split; [exact Hentry|].
  destruct Hcmd as [Hcmd|Hcmd];
    (rewrite onMessage_tagged with (parsed := parsed);
       [|done|exact Hparse|by rewrite Hcmd]);
    rewrite Hcmd, Hid.
  - rewrite (onReply_reply _ id t p) by done. simpl.
    split; [done|]. split; [|done]. apply (Hsame (resolution _)).
  - rewrite (onReply_errorReply _ id t p) by done. simpl.
    split; [done|]. split; [|done]. apply (Hsame (Rejected _)).
Qed.

End RoundTrip.

(** ** Settled promises *)

Lemma final_coreStep p s c c' :
  Inv c -> coreStep c c' ->
  c_promises c !! p = Some s -> s <> Pending -> c_promises c' !! p = Some s.
Proof.
  intros HI Hstep Hp Hs. destruct Hstep; simpl; try done.
  - rewrite lookup_insert_ne; [done|]. intros <-.
    pose proof (inv_promise_fresh _ HI _ _ Hp). lia.
  - by apply settled_stays.
  - by apply settled_stays.
Qed.

Lemma final_coreSteps p s c c' :
  Inv c -> rtc coreStep c c' ->
  c_promises c !! p = Some s -> s <> Pending -> c_promises c' !! p = Some s.
Proof.
  intros HI Hsteps. induction Hsteps as [|c1 c2 c3 H12 H23 IH]; [done|].
  intros Hp Hs. apply IH; [by eapply Inv_coreStep|by eapply final_coreStep|done].
Qed.

Section Final.

Variable JSON_parse : string -> option Value.

(** X6, a promise is settled once: in every state the endpoint can reach, a
    promise that is fulfilled or rejected keeps that outcome whatever is
    called, arrives or fires afterwards. *)
Theorem settled_promise_is_final st p s evs :
  reachable JSON_parse st ->
  promises st !! p = Some s -> s <> Pending ->
  promises (run JSON_parse evs st) !! p = Some s.
Proof.
  intros Hreach Hp Hs. pose proof (reachable_Inv _ _ Hreach) as HI. clear Hreach.
  revert st HI Hp. induction evs as [|ev evs IH]; intros st HI Hp; simpl; [done|].
  apply IH; [by apply Inv_after|].
  change (c_promises (coreOf (after JSON_parse ev st)) !! p = Some s).
  apply (final_coreSteps p s (coreOf st)); [done|by apply sound_step|done|done].
Qed.

(** X7, a binary frame is safe: in every state the endpoint can reach the
    message handler returns normally on a binary frame, awaited or not; it
    sends nothing, writes at most debug output, and leaves the pending map
    and the id counter alone. *)
Theorem binary_frame_never_throws st kind bytes :
  reachable JSON_parse st ->
  exists logs st',
    onMessage JSON_parse (BinaryData kind bytes) st = (Return tt, st') /\
    Forall isLog logs /\
    out st' = out st ++ logs /\
    awaitingReply st' = awaitingReply st /\
    msgId st' = msgId st.
Proof.
  intros Hreach. pose proof (reachable_Inv _ _ Hreach) as HI.
  destruct (destroyed st) eqn:Hd.
  { exists [], st. rewrite onMessage_destroyed by done. by rewrite app_nil_r. }
  pose proof (inv_slot _ HI) as Hslot. unfold slotOk in Hslot. simpl in Hslot.
  destruct (awaitingBinaryReply st) as [v|f] eqn:Es.
  - exists (console st [("Un-awaited binary payload.", VUndefined)]).
    exists (set_out (fun o => o ++ console st [("Un-awaited binary payload.", VUndefined)]) st).
    split; [|split; [apply console_isLog|done]].
    unfold onMessage, debugLog, console.
    destruct (debug st) eqn:Hdebug; destruct v; try done;
      repeat (progress (method; rewrite ?Hd, ?Es, ?Hdebug)); by rewrite ?set_out_nil.
  - destruct f as [| t p | |]; try done.
    exists (console st [("incoming binary",
                         VObject [("size", VNumber (Z.of_nat (length bytes)))])]).
    eexists. split; [by apply onMessage_binary|].
    split; [apply console_isLog|]. done.
Qed.

End Final.

(** ** The reply helper *)

(** X8, what the reply helper sends: on a live endpoint with an open
    transport, a payload that is a plain value, a promise that fulfils, a
    function that returns a value or a function that returns such a promise
    is replied as exactly one envelope carrying the value obtained,
    [int:reply] or, when the error flag is set, [int:errorReply], written
    with the current JSON replacer to the bound transport. *)
Theorem reply_helper_sends_the_result st h id payload isError v :
  destroyed st = false -> isOpen st = true -> ws st = Some h ->
  yields payload v -> ~ isBinaryPayload v ->
  replyFunc id payload isError st =
    (Return tt,
     set_out (fun o => o ++
                console st [("outgoing", envelope (replyTag isError) v id)] ++
                [WsSend h (JSON_stringify (envelope (replyTag isError) v id)
                                          (jsonReplacer st))]) st).
Proof.
  intros Hd Ho Hw Hy Hb.
  pose proof (reply_plain st h id v isError Hd Ho Hw Hb) as Hr.
  unfold replyFunc, try_catch, callThunk, await, bind, ret.
  destruct Hy as [v Hf Ht|v|v Ht|v]; simpl; rewrite ?Hr; try done.
  - destruct v; simpl; rewrite ?Hr; try done; try (by destruct Hf);
      exfalso; by eapply Ht.
  - destruct v; simpl; rewrite ?Hr; try done. exfalso; by eapply Ht.
Qed.

(** X9, a failing payload becomes an error reply: when the payload is a
    promise that rejects, a function that throws or a function whose promise
    rejects, the helper catches the error and sends exactly one
    [int:errorReply] envelope carrying it, whatever the error flag was. *)
Theorem reply_helper_reports_the_failure st h id payload isError e :
  destroyed st = false -> isOpen st = true -> ws st = Some h ->
  fails payload e -> ~ isBinaryPayload e ->
  replyFunc id payload isError st =
    (Return tt,
     set_out (fun o => o ++
                console st [("outgoing", envelope (VString "int:errorReply") e id)] ++
                [WsSend h (JSON_stringify (envelope (VString "int:errorReply") e id)
                                          (jsonReplacer st))]) st).
Proof.
  intros Hd Ho Hw Hf Hb.
  pose proof (reply_plain st h id e (VBool true) Hd Ho Hw Hb) as Hr.
  unfold replyFunc, try_catch, callThunk, await, bind, ret, throw.
  destruct Hf; simpl; by rewrite Hr.
Qed.

Lemma reply_throws st id payload isError e st' :
  reply id payload isError st = (Throw e, st') ->
  e = binaryErrorRefused /\ isBinaryPayload payload /\ truthy isError = true /\
  st' = set_out (fun o => o ++ console st
                   [("outgoing", envelope (replyTag isError) payload id)]) st.
Proof.
  intros H.
  destruct (destroyed st) eqn:Hd.
  { rewrite reply_unusable in H by (by left). done. }
  destruct (isOpen st) eqn:Ho.
  2:{ rewrite reply_unusable in H by (by right). done. }
  destruct (isOpen_ws _ Ho) as [h Hw].
  destruct payload;
    try (rewrite (reply_plain st h) in H; [done|done|done|done|by intros []]).
  rewrite (reply_binary st h) in H by done.
  destruct (truthy isError); [|done]. by injection H as <- <-.
Qed.

Lemma reply_returns_unless_binary st id payload isError :
  ~ isBinaryPayload payload ->
  (reply id payload isError st).1 = Return tt.
Proof.
  intros Hb. destruct (reply id payload isError st) as [[[]|e] st'] eqn:E; [done|].
  apply reply_throws in E as (_ & ? & _). done.
Qed.

Lemma reply_caught st id v isError :
  (try_catch (reply id v isError) (fun error => reply id error (VBool true)) st).1 =
    Return tt.
Proof.
  unfold try_catch. destruct (reply id v isError st) as [[[]|e] st'] eqn:E; [done|].
  apply reply_throws in E as (-> & _). apply reply_returns_unless_binary. by intros [].
Qed.

(** X10, the one error the reply helper lets through: the promise of the
    helper is rejected only with the error that refuses binary error
    replies, and only when the payload failed with a binary value, which the
    helper's own catch clause tried to send as an error reply; nothing is
    sent then. *)
Theorem reply_helper_rejects_only_binary_failures st id payload isError e st' :
  replyFunc id payload isError st = (Throw e, st') ->
  e = binaryErrorRefused /\
  exists failure,
    fails payload failure /\ isBinaryPayload failure /\
    st' = set_out (fun o => o ++ console st
                     [("outgoing", envelope (VString "int:errorReply") failure id)]) st.
Proof.
  intros H.
  assert (Hcaught : forall v s,
            try_catch (reply id v isError) (fun error => reply id error (VBool true)) s
              <> (Throw e, st')).
  { intros v s E. pose proof (reply_caught s id v isError) as Hc. by rewrite E in Hc. }
  assert (Hfail : forall failure,
            fails payload failure ->
            reply id failure (VBool true) st = (Throw e, st') ->
            e = binaryErrorRefused /\
            exists failure,
              fails payload failure /\ isBinaryPayload failure /\
              st' = set_out (fun o => o ++ console st
                       [("outgoing", envelope (VString "int:errorReply") failure id)]) st).
  { intros failure Hf E. apply reply_throws in E as (-> & Hb & _ & ->).
    split; [done|]. by exists failure. }
  unfold replyFunc in H.
  destruct payload as [| | | | | | | | |rejects o|f];
    try (by apply Hcaught in H).
  - destruct rejects; [|by apply Hcaught in H].
    apply (Hfail o); [constructor|exact H].
  - destruct f as [id'|throws o].
    + exfalso. revert H. unfold try_catch, callThunk, await, bind, ret.
      destruct (reply id' VUndefined VUndefined st) as [[[]|e1] s1] eqn:E1.
      * intros H. by apply (Hcaught VUndefined s1).
      * apply reply_throws in E1 as (_ & [] & _).
    + destruct throws.
      * apply (Hfail o); [constructor|exact H].
      * destruct o as [| | | | | | | | |rejects o|f];
          try (by apply Hcaught in H).
        destruct rejects; [|by apply Hcaught in H].
        apply (Hfail o); [constructor|exact H].
Qed.

(** ** A destroyed endpoint *)

Global Instance silent_preorder : PreOrder silent.
Proof.
  split; [by intros x Hx|].
  intros x y z Hxy Hyz Hx. destruct (Hxy Hx) as (Hy & ? & ? & ?).
  destruct (Hyz Hy) as (? & ? & ? & ?). repeat split; congruence.
Qed.

Lemma silent_modify (f : Endpoint -> Endpoint) :
  (forall st, destroyed (f st) = destroyed st /\ out (f st) = out st /\
              awaitingReply (f st) = awaitingReply st /\ msgId (f st) = msgId st) ->
  respects silent (modify f).
Proof.
  intros Hf st Hd. destruct (Hf st) as (? & ? & ? & ?). simpl.
  repeat split; congruence.
Qed.

Lemma silent_effect e : isWire e = false -> respects silent (effect e).
Proof.
  intros He st Hd. simpl. repeat split; try done.
  unfold wire. rewrite List.filter_app. simpl. rewrite He. by rewrite app_nil_r.
Qed.

(** A method that starts by returning when the endpoint is destroyed. *)
Lemma silent_guarded {A} (m : M A) :
  (forall st, destroyed st = true -> (m st).2 = st) -> respects silent m.
Proof. intros Hm st Hd. by rewrite Hm. Qed.

Lemma silent_reply id payload isError : respects silent (reply id payload isError).
Proof. apply silent_guarded. intros st Hd. rewrite reply_unusable; [done|by left]. Qed.

Lemma silent_send cmd payload replyTimeout :
  respects silent (send cmd payload replyTimeout).
Proof. apply silent_guarded. intros st Hd. rewrite send_unusable; [done|by left]. Qed.

Lemma silent_destroy_with D : respects silent (destroy_with D).
Proof.
  apply silent_guarded. intros st Hd. unfold destroy_with, bind, gets. simpl.
  by rewrite Hd.
Qed.

Lemma silent_changeWebSocket h : respects silent (changeWebSocket h).
Proof.
  apply silent_guarded. intros st Hd. unfold changeWebSocket, bind, gets. simpl.
  by rewrite Hd.
Qed.

Ltac keeps_silent :=
  repeat first
    [ apply (respects_ret _) | apply (respects_throw _) | apply (respects_gets _)
    | apply silent_reply | apply silent_destroy_with
    | apply silent_effect; reflexivity
    | apply silent_modify; intros ?; repeat split; reflexivity
    | apply (respects_when _)
    | apply (respects_forEach _); intros ?
    | apply (respects_bind _); [|intros ?]
    | apply (respects_try_catch _); [|intros ?]
    | match goal with
      | |- respects _ (match ?x with _ => _ end) => destruct x
      | |- respects _ (if ?x then _ else _) => destruct x
      end ].

Lemma silent_invoke D args l : respects silent D -> respects silent (invoke D args l).
Proof.
  intros HD.
  unfold invoke, closeHandler, removeWsListeners, removeEventListener, unregister.
  keeps_silent; exact HD.
Qed.

Lemma silent_emit_with D name args :
  respects silent D -> respects silent (emit_with D name args).
Proof. intros HD. unfold emit_with. keeps_silent; by apply silent_invoke. Qed.

Lemma silent_emit name args : respects silent (emit name args).
Proof. apply silent_emit_with. unfold destroy. apply silent_destroy_with. Qed.

Lemma silent_await v : respects silent (await v).
Proof. unfold await. keeps_silent. Qed.

Lemma silent_callThunk f : respects silent (callThunk f).
Proof. unfold callThunk. keeps_silent. Qed.

Lemma silent_replyFunc id payload isError :
  respects silent (replyFunc id payload isError).
Proof.
  unfold replyFunc. keeps_silent; first [apply silent_await | apply silent_callThunk].
Qed.

Lemma silent_call f args : respects silent (call f args).
Proof.
  unfold call, applyPrivate, clearTimeout, promiseResolve, promiseReject, settle.
  keeps_silent;
    first [apply silent_invoke, silent_destroy_with
          | apply silent_await | apply silent_callThunk].
Qed.

Section Silent.

Variable JSON_parse : string -> option Value.

Lemma silent_step ev : respects silent (step JSON_parse ev).
Proof.
  destruct ev; cbn [step].
  - apply silent_changeWebSocket.
  - apply silent_destroy_with.
  - apply (respects_bind _); [apply silent_send|intros; apply (respects_ret _)].
  - unfold addListener. keeps_silent.
  - apply (respects_bind _); [apply silent_emit|intros; apply (respects_ret _)].
  - unfold removeAllListeners. keeps_silent.
  - apply silent_replyFunc.
  - keeps_silent.
  - keeps_silent.
  - unfold transportState. keeps_silent.
  - unfold dispatch. apply (respects_bind _); [apply (respects_gets _)|].
    intros [s|]; [|apply (respects_ret _)].
    destruct (filter _ _) as [|[name once] rest]; [apply (respects_ret _)|].
    apply (respects_bind _).
    { apply (respects_when _). unfold removeEventListener. keeps_silent. }
    intros _. destruct e; simpl;
      try (apply (respects_bind _); [apply silent_emit|intros; apply (respects_ret _)]).
    apply silent_guarded. intros st Hd. by rewrite onMessage_destroyed.
  - unfold fireTimer, clearTimeout. keeps_silent; apply silent_call.
Qed.

(** X14, a destroyed endpoint stays silent: once [#destroyed] is set, no
    sequence of calls, transport events and timers makes the endpoint send a
    frame or close a transport again; it stays destroyed, its pending map is
    not touched and no id is used. *)
Theorem destroyed_endpoint_is_silent st evs :
  destroyed st = true ->
  let st' := run JSON_parse evs st in
  destroyed st' = true /\
  wire (out st') = wire (out st) /\
  awaitingReply st' = awaitingReply st /\
  msgId st' = msgId st.
Proof.
  revert st. induction evs as [|ev evs IH]; intros st Hd; simpl; [done|].
  destruct (silent_step ev st Hd) as (Hd1 & Hw1 & Ha1 & Hm1).
  destruct (IH _ Hd1) as (? & ? & ? & ?). unfold after.
  repeat split; congruence.
Qed.

End Silent.

(** ** Where frames go *)

Lemma guarded_refl st : guarded st st.
Proof. constructor; auto. exists []. by rewrite app_nil_r. Qed.

Lemma guarded_trans st1 st2 st3 : guarded st1 st2 -> guarded st2 st3 -> guarded st1 st3.
Proof.
  intros H1 H2. constructor.
  - rewrite (g_ws _ _ H2). apply H1.
  - intros H. apply H2, H1, H.
  - intros H. apply H1, H2, H.
  - destruct (g_out _ _ H1) as (es1 & E1 & F1).
    destruct (g_out _ _ H2) as (es2 & E2 & F2).
    exists (es1 ++ es2). rewrite E2, E1, app_assoc. split; [done|].
    apply Forall_app. split; [done|].
    eapply Forall_impl; [exact F2|]. intros [h f| | |]; simpl; try done.
    intros (Hw & Ho & Hd). rewrite (g_ws _ _ H1) in Hw.
    split; [done|]. split; [by apply H1|].
    destruct (destroyed st1) eqn:E; [|done].
    rewrite (g_destroyed _ _ H1 E) in Hd. done.
Qed.

Global Instance guarded_preorder : PreOrder guarded.
Proof. split; [exact guarded_refl|]. intros x y z. apply guarded_trans. Qed.

Lemma guarded_same st st' :
  ws st' = ws st -> destroyed st' = destroyed st -> out st' = out st ->
  isOpen st' = isOpen st -> guarded st st'.
Proof.
  intros Hw Hd Ho Hi. constructor; try congruence.
  exists []. by rewrite app_nil_r.
Qed.

Lemma guarded_modify (f : Endpoint -> Endpoint) :
  (forall st, ws (f st) = ws st /\ destroyed (f st) = destroyed st /\
              out (f st) = out st /\ sockets (f st) = sockets st) ->
  respects guarded (modify f).
Proof.
  intros Hf st. destruct (Hf st) as (Hw & Hd & Ho & Hs).
  apply guarded_same; simpl; try done.
  unfold isOpen, ws_readyState. by rewrite Hw, Hs.
Qed.

(** A change to a transport that leaves its state alone. *)
Lemma guarded_alter h (f : Socket -> Socket) :
  (forall s, readyState (f s) = readyState s) ->
  respects guarded (modify (set_sockets (alter f h))).
Proof.
  intros Hf st. apply guarded_same; simpl; try done.
  unfold isOpen, ws_readyState. simpl. destruct (ws st) as [w|]; [|done].
  destruct (decide (h = w)) as [->|Hne].
  - rewrite lookup_alter_eq. destruct (sockets st !! w); simpl; [|done]. by rewrite Hf.
  - by rewrite lookup_alter_ne.
Qed.

Lemma guarded_effect e :
  (forall h f, e <> WsSend h f) -> respects guarded (effect e).
Proof.
  intros He st. constructor; simpl; auto.
  exists [e]. split; [done|]. constructor; [|done].
  destruct e; simpl; try done. by destruct (He h f).
Qed.

Lemma guarded_ws_close h : respects guarded (ws_close h).
Proof.
  unfold ws_close. apply (respects_bind _); [|intros _; by apply guarded_effect].
  intros st. constructor; simpl; auto.
  - unfold isOpen, ws_readyState. simpl. destruct (ws st) as [w|]; [|done].
    destruct (decide (h = w)) as [->|Hne].
    + rewrite lookup_alter_eq. destruct (sockets st !! w) as [s|]; simpl; [|done].
      by destruct (readyState s =? CLOSED).
    + by rewrite lookup_alter_ne.
  - exists []. by rewrite app_nil_r.
Qed.

Lemma guarded_append st es :
  Forall (sentWhileOpen st) es -> guarded st (set_out (fun o => o ++ es) st).
Proof. intros H. constructor; simpl; auto. by exists es. Qed.

Lemma guarded_logs st logs es :
  Forall isLog logs -> Forall (sentWhileOpen st) es ->
  Forall (sentWhileOpen st) (logs ++ es).
Proof.
  intros Hl He. apply Forall_app. split; [|done].
  eapply Forall_impl; [exact Hl|]. by intros [].
Qed.

Lemma guarded_reply id payload isError : respects guarded (reply id payload isError).
Proof.
  intros st.
  destruct (destroyed st) eqn:Hd.
  { rewrite reply_unusable by (by left). apply guarded_refl. }
  destruct (isOpen st) eqn:Ho.
  2:{ rewrite reply_unusable by (by right). apply guarded_refl. }
  destruct (isOpen_ws _ Ho) as [h Hw].
  assert (Hplain : ~ isBinaryPayload payload ->
            guarded st (reply id payload isError st).2).
  { intros Hb. rewrite (reply_plain st h) by done. apply guarded_append.
    apply guarded_logs; [apply console_isLog|]. by repeat constructor. }
  destruct payload; try (apply Hplain; by intros []).
  rewrite (reply_binary st h) by done.
  destruct (truthy isError); apply guarded_append.
  - eapply Forall_impl; [apply console_isLog|]. by intros [].
  - apply guarded_logs; [apply console_isLog|]. by repeat constructor.
Qed.

Lemma guarded_send cmd payload replyTimeout :
  respects guarded (send cmd payload replyTimeout).
Proof.
  intros st.
  destruct (destroyed st) eqn:Hd.
  { rewrite send_unusable by (by left). apply guarded_refl. }
  destruct (isOpen st) eqn:Ho.
  2:{ rewrite send_unusable by (by right). apply guarded_refl. }
  destruct (isOpen_ws _ Ho) as [h Hw].
  assert (Hinvalid : invalidCmd cmd -> guarded st (send cmd payload replyTimeout st).2).
  { intros Hc.
    destruct (send_refuses st cmd payload replyTimeout Hc Hd Ho) as [m Hm].
    rewrite Hm. apply guarded_refl. }
  destruct cmd as [| | | |c| | | | | |]; try (by apply Hinvalid).
  destruct (String.prefix "int:" c) eqn:Hp; [apply Hinvalid; by left|].
  destruct (decide (c ∈ reservedEvents)) as [Hr|Hr]; [apply Hinvalid; by right|].
  rewrite (send_ok st h) by done. constructor; simpl; auto.
  eexists. split; [reflexivity|].
  apply guarded_logs; [apply console_isLog|]. by repeat constructor.
Qed.

Ltac keeps_guarded :=
  repeat first
    [ apply (respects_ret _) | apply (respects_throw _) | apply (respects_gets _)
    | apply guarded_reply | apply guarded_ws_close
    | apply guarded_effect; discriminate
    | apply guarded_modify; intros ?; repeat split; reflexivity
    | apply guarded_alter; intros ?; reflexivity
    | apply (respects_when _)
    | apply (respects_forEach _); intros ?
    | apply (respects_bind _); [|intros ?]
    | apply (respects_try_catch _); [|intros ?]
    | match goal with
      | |- respects _ (match ?x with _ => _ end) => destruct x
      | |- respects _ (if ?x then _ else _) => destruct x
      end ].

Lemma guarded_set_destroyed : respects guarded (modify (set_destroyed true)).
Proof.
  intros st. constructor; simpl; auto. exists []. by rewrite app_nil_r.
Qed.

Lemma guarded_removeWsListeners : respects guarded removeWsListeners.
Proof. unfold removeWsListeners, removeEventListener. keeps_guarded. Qed.

Lemma guarded_invoke D args l : respects guarded D -> respects guarded (invoke D args l).
Proof.
  intros HD. unfold invoke, closeHandler, unregister.
  keeps_guarded; first [apply guarded_removeWsListeners | exact HD].
Qed.

Lemma guarded_emit_with D name args :
  respects guarded D -> respects guarded (emit_with D name args).
Proof. intros HD. unfold emit_with. keeps_guarded; by apply guarded_invoke. Qed.

Lemma guarded_destroy_with D : respects guarded D -> respects guarded (destroy_with D).
Proof.
  intros HD. unfold destroy_with, removeAllListeners.
  keeps_guarded; first [apply guarded_set_destroyed | by apply guarded_invoke].
Qed.

Lemma guarded_destroy : respects guarded destroy.
Proof. unfold destroy. do 2 apply guarded_destroy_with. apply (respects_ret _). Qed.

Lemma guarded_emit name args : respects guarded (emit name args).
Proof. apply guarded_emit_with, guarded_destroy. Qed.

Lemma guarded_await v : respects guarded (await v).
Proof. unfold await. keeps_guarded. Qed.

Lemma guarded_callThunk f : respects guarded (callThunk f).
Proof. unfold callThunk. keeps_guarded. Qed.

Lemma guarded_replyFunc id payload isError :
  respects guarded (replyFunc id payload isError).
Proof.
  unfold replyFunc. keeps_guarded; first [apply guarded_await | apply guarded_callThunk].
Qed.

Lemma guarded_call f args : respects guarded (call f args).
Proof.
  unfold call, applyPrivate, clearTimeout, promiseResolve, promiseReject, settle.
  keeps_guarded;
    first [apply guarded_emit | apply guarded_await | apply guarded_callThunk
          | apply guarded_invoke, guarded_destroy ].
Qed.

Section Guarded.

Variable JSON_parse : string -> option Value.

Lemma guarded_onMessage data : respects guarded (onMessage JSON_parse data).
Proof.
  unfold onMessage, onReply, destructure, mapDelete, debugLog.
  keeps_guarded;
    first [apply guarded_call | apply guarded_emit
          | apply guarded_invoke, guarded_destroy].
Qed.

(** X15, where frames go: whatever is called, arrives or fires, every frame
    the endpoint sends in response is handed to the transport that was bound
    when the event began, which was open, on an endpoint that was not
    destroyed. *)
Theorem frames_go_to_the_open_transport ev st :
  exists es,
    out (after JSON_parse ev st) = out st ++ es /\ Forall (sentWhileOpen st) es.
Proof.
  assert (Hg : forall {A} (m : M A),
            respects guarded m ->
            exists es, out (m st).2 = out st ++ es /\ Forall (sentWhileOpen st) es).
  { intros A m Hm. apply (g_out _ _ (Hm st)). }
  assert (Hsame : forall {A} (m : M A),
            out (m st).2 = out st ->
            exists es, out (m st).2 = out st ++ es /\ Forall (sentWhileOpen st) es).
  { intros A m Hm. exists []. by rewrite app_nil_r. }
  unfold after. destruct ev; cbn [step].
  - apply Hsame. apply changeWebSocket_schedules_no_emit.
  - apply Hg, guarded_destroy.
  - apply Hg. apply (respects_bind _); [apply guarded_send|intros; apply (respects_ret _)].
  - apply Hg. unfold addListener. keeps_guarded.
  - apply Hg. apply (respects_bind _); [apply guarded_emit|intros; apply (respects_ret _)].
  - apply Hg. unfold removeAllListeners. keeps_guarded.
  - apply Hg, guarded_replyFunc.
  - apply Hg. keeps_guarded.
  - apply Hg. keeps_guarded.
  - by apply Hsame.
  - apply Hg. unfold dispatch. apply (respects_bind _); [apply (respects_gets _)|].
    intros [s|]; [|apply (respects_ret _)].
    destruct (filter _ _) as [|[name once] rest]; [apply (respects_ret _)|].
    apply (respects_bind _).
    { apply (respects_when _). unfold removeEventListener. keeps_guarded. }
    intros _. destruct e; simpl; try apply guarded_onMessage;
      (apply (respects_bind _); [apply guarded_emit|intros; apply (respects_ret _)]).
  - apply Hg. unfold fireTimer, clearTimeout. keeps_guarded; apply guarded_call.
Qed.

End Guarded.

(** ** Destroying *)














(** ** Commands that have a listener *)



Section Heard.

Variable JSON_parse : string -> option Value.



End Heard.

(** ** Binding and rebinding a transport *)

Lemma removeWsListeners_sockets st h :
  ws st = Some h ->
  removeWsListeners st = (Return tt, set_sockets (alter withoutListeners h) st).
Proof.
  intros Hw. unfold removeWsListeners, removeEventListener, wsListenerEvents.
  method. rewrite Hw. method. f_equal. unfold set_sockets. simpl. f_equal.
  apply map_eq. intros k. destruct (decide (h = k)) as [->|Hne].
  - rewrite !lookup_alter_eq. destruct (sockets st !! k) as [s|]; simpl; [|done].
    f_equal. unfold withoutListeners. simpl. f_equal.
    rewrite !list_filter_filter. apply list_filter_iff. intros [name o]. simpl.
    unfold wsListenerEvents. rewrite !not_elem_of_cons. split; [|tauto].
    intros (((? & ?) & ?) & ?). repeat split; try done. apply not_elem_of_nil.
  - by rewrite !lookup_alter_ne.
Qed.

Lemma dispatch_withoutListeners JSON_parse st h e :
  (forall s, sockets st !! h = Some s ->
             forall a, a ∈ attached s -> a.1 ∉ wsListenerEvents) ->
  dispatch JSON_parse h e st = (Return tt, st).
Proof.
  intros H. unfold dispatch, bind, gets. simpl.
  destruct (sockets st !! h) as [s|] eqn:Hs; [|done].
  destruct (filter _ (attached s)) as [|[name o] rest] eqn:Hf; [done|].
  assert (Hin : (name, o) ∈ filter (fun a => a.1 = eventName e) (attached s)).
  { rewrite Hf. by left. }
  apply list_elem_of_filter in Hin as [Hname Hin]. simpl in Hname.
  destruct (H s eq_refl _ Hin). simpl. rewrite Hname. unfold wsListenerEvents.
  destruct e; simpl; rewrite !elem_of_cons; tauto.
Qed.

(** X16, rebinding: [changeWebSocket] with a fresh transport that is not
    closed takes the endpoint's four listeners off the old transport, whose
    later events are ignored, binds the new one, writes the configured
    [binaryType] to it and attaches the four listeners, [message]
    permanently and the others once. *)
Theorem rebinding_detaches_the_old_transport JSON_parse st h1 h2 s2 :
  destroyed st = false ->
  ws st = Some h1 -> h1 <> h2 ->
  sockets st !! h2 = Some s2 ->
  readyState s2 <> CLOSED ->
  attached s2 = [] ->
  let st' := (changeWebSocket h2 st).2 in
  ws st' = Some h2 /\
  sockets st' !! h2 =
    Some (mkSocket (readyState s2) (Some (binaryTypeOption st)) wsListenerOptions) /\
  sockets st' !! h1 = withoutListeners <$> sockets st !! h1 /\
  (forall e, dispatch JSON_parse h1 e st' = (Return tt, st')).
Proof.
  intros Hd Hw Hne Hs2 Hrs Ha st'.
  assert (E : exists r st2,
              changeWebSocket h2 st = (r, st2) /\
              ws st2 = Some h2 /\
              sockets st2 =
                <[h2 := mkSocket (readyState s2) (Some (binaryTypeOption st))
                                 wsListenerOptions]>
                  (alter withoutListeners h1 (sockets st))).
  { unfold changeWebSocket. unfold bind at 1, gets at 1. cbn [fst snd].
    rewrite Hd. unfold bind at 1. rewrite (removeWsListeners_sockets st h1 Hw).
    unfold addListener, addEventListener, setTimeout, arm, isClosed, isOpen,
      ws_readyState, wsListenerEvents.
    method. rewrite lookup_alter_ne, Hs2 by done. simpl.
    assert (Hc : (readyState s2 =? CLOSED) = false) by (by apply Z.eqb_neq).
    rewrite Hc. method.
    assert (Hsockets :
      alter (fun s => mkSocket (readyState s) (binaryType s)
                        (if bool_decide ("message" ∈ (attached s).*1) then attached s
                         else attached s ++ [("message", false)])) h2
        (alter (fun s => mkSocket (readyState s) (binaryType s)
                           (if bool_decide ("close" ∈ (attached s).*1) then attached s
                            else attached s ++ [("close", true)])) h2
           (alter (fun s => mkSocket (readyState s) (binaryType s)
                              (if bool_decide ("error" ∈ (attached s).*1) then attached s
                               else attached s ++ [("error", true)])) h2
              (alter (fun s => mkSocket (readyState s) (binaryType s)
                                 (if bool_decide ("open" ∈ (attached s).*1) then attached s
                                  else attached s ++ [("open", true)])) h2
                 (alter (fun s => mkSocket (readyState s) (Some (binaryTypeOption st))
                                           (attached s)) h2
                    (alter withoutListeners h1 (sockets st)))))) =
      <[h2 := mkSocket (readyState s2) (Some (binaryTypeOption st)) wsListenerOptions]>
        (alter withoutListeners h1 (sockets st))).
    { apply map_eq. intros k. destruct (decide (h2 = k)) as [<-|Hk].
      - rewrite lookup_insert_eq, !lookup_alter_eq, lookup_alter_ne, Hs2 by done.
        simpl. rewrite Ha. do 2 f_equal.
      - rewrite lookup_insert_ne by done. by do 5 rewrite lookup_alter_ne by done. }
    rewrite Hsockets.
    destruct (host st) eqn:Hh; destruct (looseEqNumber _ OPEN);
      repeat (progress (method; rewrite ?Hh));
      (eexists _, _; split; [reflexivity|]; simpl; split; [done|exact Hsockets]). }
  destruct E as (r & st2 & E & Ews & Es). subst st'. rewrite E. simpl.
  split; [exact Ews|]. rewrite Es.
  split; [by rewrite lookup_insert_eq|].
  split; [by rewrite lookup_insert_ne, lookup_alter_eq|].
  intros e. apply dispatch_withoutListeners. intros s Hs a Hin.
  rewrite Es, lookup_insert_ne, lookup_alter_eq in Hs by done.
  destruct (sockets st !! h1) as [s1|]; [|done]. injection Hs as <-.
  simpl in Hin. by apply list_elem_of_filter in Hin as [? _].
Qed.

(** ** The constructor *)

Lemma attach_all (h : nat) s (heap : gmap nat Socket) :
  heap !! h = Some s -> attached s = [] ->
  alter (attach "message" false) h
    (alter (attach "close" true) h
       (alter (attach "error" true) h
          (alter (attach "open" true) h heap))) =
  <[h := mkSocket (readyState s) (binaryType s) wsListenerOptions]> heap.
Proof.
  intros Hs Ha. apply map_eq. intros k. destruct (decide (h = k)) as [<-|Hk].
  - rewrite lookup_insert_eq, !lookup_alter_eq, Hs. unfold attach. simpl.
    rewrite Ha. by do 2 f_equal.
  - rewrite lookup_insert_ne by done. by do 4 rewrite lookup_alter_ne by done.
Qed.

(** X17, the constructor: given a transport it binds it; unless the
    transport is closed it writes [binaryType] (the option, or [nodebuffer]
    under Node and [arraybuffer] elsewhere) and attaches the four listeners.
    It returns normally exactly when the host is a browser or the transport
    is neither open nor closed: under Node, a transport that is already open
    or closed makes the constructor throw the [TypeError] of [setTimeout]. *)
Theorem constructor_binds_the_transport h heap o w s :
  opt_ws o = Some w ->
  heap !! w = Some s ->
  attached s = [] ->
  let r := constructor h heap o in
  let bt := default (defaultBinaryType h) (opt_binaryType o) in
  ws r.2 = Some w /\
  sockets r.2 =
    (if readyState s =? CLOSED then heap
     else <[w := mkSocket (readyState s) (Some bt) wsListenerOptions]> heap) /\
  (r.1 = Return tt <->
   h = Browser \/ (readyState s <> OPEN /\ readyState s <> CLOSED)) /\
  (forall e, r.1 = Throw e ->
     exists message, e = VError "TypeError" (Some "ERR_INVALID_ARG_TYPE") message).
Proof.
  intros Hw Hs Ha r bt.
  assert (E : exists o1 st1,
            r = (o1, st1) /\
            ws st1 = Some w /\
            sockets st1 =
              (if readyState s =? CLOSED then heap
               else <[w := mkSocket (readyState s) (Some bt) wsListenerOptions]> heap) /\
            (o1 = Return tt <->
             h = Browser \/ (readyState s <> OPEN /\ readyState s <> CLOSED)) /\
            (forall e, o1 = Throw e ->
               exists message,
                 e = VError "TypeError" (Some "ERR_INVALID_ARG_TYPE") message)).
  { subst r bt. unfold constructor. rewrite Hw.
    unfold changeWebSocket, removeWsListeners, addListener, addEventListener, setTimeout,
      arm, isClosed, isOpen, ws_readyState, wsListenerEvents, fields, defaultBinaryType.
    method. rewrite Hs. simpl.
    destruct (readyState s =? CLOSED) eqn:Hc.
    { apply Z.eqb_eq in Hc.
      destruct h; method; eexists _, _; (split; [reflexivity|]); simpl;
        (split; [done|]); (split; [done|]); split;
        try (by intros e [=<-]; eexists); try done.
      - split; [done|]. intros [|[_ ?]]; done.
      - split; [by left|done]. }
    pose proof Hc as Hc'. apply Z.eqb_neq in Hc'. method.
    rewrite !lookup_alter_eq, Hs. simpl.
    assert (Hsockets :
      alter (attach "message" false) w
        (alter (attach "close" true) w
           (alter (attach "error" true) w
              (alter (attach "open" true) w
                 (alter (fun s => mkSocket (readyState s)
                           (Some (default match h with
                                          | NodeJS => "nodebuffer"
                                          | Browser => "arraybuffer"
                                          end (opt_binaryType o)))
                           (attached s)) w heap)))) =
      <[w := mkSocket (readyState s)
               (Some (default match h with
                              | NodeJS => "nodebuffer"
                              | Browser => "arraybuffer"
                              end (opt_binaryType o)))
               wsListenerOptions]> heap).
    { erewrite attach_all; [|by rewrite lookup_alter_eq, Hs|done]. simpl.
      apply map_eq. intros k. destruct (decide (w = k)) as [<-|Hk].
      - by rewrite !lookup_insert_eq.
      - by rewrite !lookup_insert_ne, lookup_alter_ne by done. }
    destruct (readyState s =? OPEN) eqn:Hop.
    - apply Z.eqb_eq in Hop.
      destruct h; method; eexists _, _; (split; [reflexivity|]); simpl;
        (split; [done|]);
        (split; [destruct (opt_binaryType o); exact Hsockets|]); split;
        try (by intros e [=<-]; eexists); try done.
      + split; [done|]. intros [|[? _]]; done.
      + split; [by left|done].
    - apply Z.eqb_neq in Hop.
      eexists _, _; (split; [reflexivity|]); simpl; (split; [done|]).
      split; [destruct (opt_binaryType o); exact Hsockets|].
      split; [|done]. split; [|done]. intros _. by right. }
  destruct E as (o1 & st1 & -> & ? & ? & ? & ?). done.
Qed.

(** ** The listener registry *)

Section Preserves.

Context (P : Endpoint -> Prop).








End Preserves.




















Section Registry.

Variable JSON_parse : string -> option Value.




End Registry.

(** ** A close event *)

Lemma narrows_refl st : narrows st st.
Proof. constructor; auto. intros h s Hs. by exists s. Qed.

Lemma narrows_trans st1 st2 st3 : narrows st1 st2 -> narrows st2 st3 -> narrows st1 st3.
Proof.
  intros H1 H2. constructor.
  - rewrite (nr_ws _ _ H2). apply H1.
  - rewrite (nr_option _ _ H2). apply H1.
  - intros H. apply H2, H1, H.
  - intros h s3 Hs3. destruct (nr_attached _ _ H2 h s3 Hs3) as (s2 & Hs2 & H32).
    destruct (nr_attached _ _ H1 h s2 Hs2) as (s1 & Hs1 & H21).
    exists s1. split; [done|]. by etrans.
  - destruct (nr_awaiting _ _ H2) as [-> | ->]; [apply H1|by right].
  - intros H3. destruct (nr_cleared _ _ H2 H3) as [Hd2|He]; [|by right].
    destruct (nr_cleared _ _ H1 Hd2) as [Hd1|He]; [by left|right].
    destruct (nr_awaiting _ _ H2) as [-> | ->]; done.
Qed.

Global Instance narrows_preorder : PreOrder narrows.
Proof. split; [exact narrows_refl|]. intros x y z. apply narrows_trans. Qed.

Global Instance spares_preorder : PreOrder spares.
Proof.
  split; [by intros x Hx|].
  intros x y z Hxy Hyz Hx. destruct (Hxy Hx) as (Hy & ? & ?).
  destruct (Hyz Hy) as (? & ? & ?). repeat split; congruence.
Qed.









(** [invoke] and [emit] stay within a relation that the bookkeeping of the
    emitter, a subscriber's call and the close handler stay within. *)
Section Emitting.

Context (R : relation Endpoint) `{!PreOrder R}.
Variable D : M unit.
Hypothesis R_fired : forall f, respects R (modify (set_fired f)).
Hypothesis R_listeners : forall f, respects R (modify (set_listeners f)).
Hypothesis R_notify : forall n ev args, respects R (effect (Notify n ev args)).
Hypothesis R_closeHandler : respects R (closeHandler D).



End Emitting.















Section CloseEvent.

Variable JSON_parse : string -> option Value.




End CloseEvent.

(** ** The keys of the pending map *)

Global Instance keepsPending_preorder : PreOrder keepsPending.
Proof.
  split; [done|]. intros x y z [? ?] [? ?]. split; [congruence|by etrans].
Qed.

Lemma keepsPending_modify (f : Endpoint -> Endpoint) :
  (forall st, msgId (f st) = msgId st /\ awaitingReply (f st) = awaitingReply st) ->
  respects keepsPending (modify f).
Proof. intros Hf st. destruct (Hf st) as [Hm Ha]. split; simpl; [done|by rewrite Ha]. Qed.

Lemma footprint_keepsPending st st' : footprint st st' -> keepsPending st st'.
Proof.
  intros H. split; [apply H|].
  destruct (fp_awaiting _ _ H) as [-> | ->]; [done|apply map_empty_subseteq].
Qed.

Lemma keepsPending_emit name args : respects keepsPending (emit name args).
Proof. eapply respects_weaken; [apply footprint_keepsPending|apply quiet_emit]. Qed.

Lemma keepsPending_destroy : respects keepsPending destroy.
Proof. eapply respects_weaken; [apply footprint_keepsPending|apply quiet_destroy]. Qed.

Lemma keepsPending_mapDelete id : respects keepsPending (mapDelete id).
Proof.
  intros st. destruct id; try reflexivity. split; [done|]. simpl. apply delete_subseteq.
Qed.

Ltac keeps_pending :=
  repeat first
    [ apply (respects_ret _) | apply (respects_throw _) | apply (respects_gets _)
    | apply keepsPending_emit | apply keepsPending_mapDelete
    | apply keepsPending_modify; intros ?; split; reflexivity
    | apply (respects_when _)
    | apply (respects_forEach _); intros ?
    | apply (respects_bind _); [|intros ?]
    | apply (respects_try_catch _); [|intros ?]
    | match goal with
      | |- respects _ (match ?x with _ => _ end) => destruct x
      | |- respects _ (if ?x then _ else _) => destruct x
      end ].

Lemma keepsPending_reply id payload isError :
  respects keepsPending (reply id payload isError).
Proof. unfold reply, ws_send, debugLog, effect. keeps_pending. Qed.

Lemma keepsPending_await v : respects keepsPending (await v).
Proof. unfold await. keeps_pending. Qed.

Lemma keepsPending_callThunk f : respects keepsPending (callThunk f).
Proof.
  destruct f as [id|[] o]; simpl; try apply (respects_throw _); try apply (respects_ret _).
  apply (respects_bind _); [apply keepsPending_reply|intros; apply (respects_ret _)].
Qed.

Lemma keepsPending_replyFunc id payload isError :
  respects keepsPending (replyFunc id payload isError).
Proof.
  unfold replyFunc. keeps_pending;
    first [apply keepsPending_await | apply keepsPending_callThunk
          | apply keepsPending_reply].
Qed.

Lemma keepsPending_call f args : respects keepsPending (call f args).
Proof.
  destruct f as [v|[p|t p|t p|]]; simpl.
  - destruct v as [| | | | | | | | | |[id|[] o]]; try apply (respects_throw _);
      try apply (respects_ret _).
    apply (respects_try_catch _); [|intros; apply (respects_ret _)].
    apply (respects_bind _); [apply keepsPending_replyFunc|intros; apply (respects_ret _)].
  - unfold promiseReject, settle. keeps_pending.
  - unfold clearTimeout, promiseResolve, settle. keeps_pending.
  - unfold clearTimeout, promiseReject, settle. keeps_pending.
  - apply (respects_bind _); [apply keepsPending_emit|intros; apply (respects_ret _)].
Qed.

Lemma keepsPending_changeWebSocket h : respects keepsPending (changeWebSocket h).
Proof.
  unfold changeWebSocket, setTimeout, arm, addListener, removeWsListeners,
    addEventListener, removeEventListener.
  keeps_pending.
Qed.

Lemma keysUsed_keepsPending st st' : keepsPending st st' -> keysUsed st -> keysUsed st'.
Proof.
  intros [Hm Ha] [Hb Hk]. split; [by rewrite Hm|].
  intros id e He. rewrite Hm. apply (Hk id e).
  by eapply lookup_weaken.
Qed.

Lemma keysUsed_afterSend st h c payload r :
  keysUsed st -> keysUsed (afterSend st h c payload r).
Proof.
  intros [Hb Hk]. unfold keysUsed. simpl. unfold increment.
  destruct (Z.ltb_spec (msgId st) MAX_EXACT) as [Hlt|Hge].
  - split; [lia|]. intros id e [[<- _]|[Hne He]]%lookup_insert_Some; [lia|].
    destruct (Hk id e He) as [?|[? ?]]; lia.
  - split; [done|]. intros id e [[<- _]|[Hne He]]%lookup_insert_Some.
    + right. split; [done|lia].
    + destruct (Hk id e He) as [?|[? ?]]; [by left|by right].
Qed.

Section PendingKeys.

Variable JSON_parse : string -> option Value.

Lemma keepsPending_onMessage data : respects keepsPending (onMessage JSON_parse data).
Proof.
  unfold onMessage.
  apply (respects_bind _); [apply (respects_gets _)|]. intros [|]; [apply (respects_ret _)|].
  destruct data as [text|kind bytes].
  - destruct (JSON_parse text) as [parsed|]; [|apply (respects_throw _)].
    apply (respects_bind _); [unfold destructure; keeps_pending|].
    intros [[cmd payload] id].
    apply (respects_bind _); [unfold debugLog, effect; keeps_pending|]. intros _.
    assert (Hrest : respects keepsPending
              (if isReplyTag cmd then onReply cmd payload id
               else
                 heard ← emit (ToString cmd) [VFunction (ReplyFunc id); payload];
                 if heard then ret tt
                 else reply id (VString ("No listener for command: " +:+ ToString cmd))
                            (VBool true))).
    { destruct (isReplyTag cmd).
      - unfold onReply. apply (respects_bind _); [apply (respects_gets _)|].
        intros [e|]; [|apply (respects_throw _)].
        destruct (truthyAny (resolve e)); [|unfold debugLog, effect; keeps_pending].
        apply (respects_bind _); [|intros; apply keepsPending_mapDelete].
        destruct (isString cmd "int:reply").
        { apply (respects_bind _); [apply keepsPending_call|intros; apply (respects_ret _)]. }
        destruct (isString cmd "int:errorReply").
        { apply (respects_bind _); [apply keepsPending_call|intros; apply (respects_ret _)]. }
        keeps_pending.
      - apply (respects_bind _); [apply keepsPending_emit|].
        intros [|]; [apply (respects_ret _)|apply keepsPending_reply]. }
    destruct cmd; try exact Hrest. unfold debugLog, effect. keeps_pending.
  - apply (respects_bind _); [apply (respects_gets _)|]. intros slot.
    destruct (truthyAny slot); [|unfold debugLog, effect; keeps_pending].
    apply (respects_bind _); [unfold debugLog, effect; keeps_pending|]. intros _.
    apply (respects_bind _); [apply keepsPending_call|]. intros _. keeps_pending.
Qed.

Lemma keysUsed_after ev st : keysUsed st -> keysUsed (after JSON_parse ev st).
Proof.
  intros Hk. unfold after.
  assert (Hsame : forall {A} (m : M A), respects keepsPending m -> keysUsed (m st).2).
  { intros A m Hm. eapply keysUsed_keepsPending; [apply Hm|exact Hk]. }
  destruct ev; cbn [step].
  - apply Hsame, keepsPending_changeWebSocket.
  - apply Hsame, keepsPending_destroy.
  - unfold bind.
    destruct (send_outcome cmd payload replyTimeout st) as [H|(c & h & Hu & H)];
      destruct (send cmd payload replyTimeout st) as [[r|e] st1];
      simpl in H |- *; subst st1; first [done | by apply keysUsed_afterSend].
  - apply Hsame. unfold addListener. keeps_pending.
  - apply Hsame.
    apply (respects_bind _); [apply keepsPending_emit|intros; apply (respects_ret _)].
  - apply Hsame. unfold removeAllListeners. keeps_pending.
  - apply Hsame, keepsPending_replyFunc.
  - apply Hsame. by apply keepsPending_modify.
  - apply Hsame. by apply keepsPending_modify.
  - apply Hsame. unfold transportState. keeps_pending.
  - apply Hsame. unfold dispatch. apply (respects_bind _); [apply (respects_gets _)|].
    intros [s|]; [|apply (respects_ret _)].
    destruct (filter _ _) as [|[name once] rest]; [apply (respects_ret _)|].
    apply (respects_bind _).
    { apply (respects_when _). unfold removeEventListener. keeps_pending. }
    intros _. destruct e; simpl; try apply keepsPending_onMessage;
      (apply (respects_bind _); [apply keepsPending_emit|intros; apply (respects_ret _)]).
  - apply Hsame. unfold fireTimer, clearTimeout.
    apply (respects_bind _); [apply (respects_gets _)|].
    intros [tm|]; [|apply (respects_ret _)].
    apply (respects_bind _); [keeps_pending|]. intros _.
    destruct (handler tm); [|apply (respects_ret _)].
    apply (respects_bind _); [apply keepsPending_call|intros; apply (respects_ret _)].
Qed.

Lemma keysUsed_reachable st : reachable JSON_parse st -> keysUsed st.
Proof.
  intros (h & heap & o & evs & ->).
  assert (H0 : keysUsed (constructor h heap o).2).
  { unfold constructor.
    assert (Hf : keysUsed (fields h heap o)).
    { split; [done|]. intros id e He. simpl in He. by rewrite lookup_empty in He. }
    destruct (opt_ws o); [|done].
    eapply keysUsed_keepsPending; [apply keepsPending_changeWebSocket|exact Hf]. }
  generalize dependent (constructor h heap o).2. intros st H0.
  revert st H0. induction evs as [|ev evs IH]; intros st H0; simpl; [apply H0|].
  apply IH. by apply keysUsed_after.
Qed.

(** X22, requests do not collide: in every state the endpoint can reach,
    while the counter is below [2^53] the id the next request will carry is
    not a key of the pending map; so an accepted request is added to the
    map under its id and every entry that was pending stays as it was. *)
Theorem next_id_is_free st c payload replyTimeout p st1 :
  reachable JSON_parse st ->
  msgId st < MAX_EXACT ->
  send (VString c) payload replyTimeout st = (Return (Some p), st1) ->
  awaitingReply st !! msgId st = None /\
  awaitingReply st1 !! msgId st = Some (wrappers (nextTimer st) p) /\
  forall id e, awaitingReply st !! id = Some e -> awaitingReply st1 !! id = Some e.
Proof.
  intros Hreach Hlt Hsend.
  destruct (keysUsed_reachable st Hreach) as [_ Hk].
  assert (Hfree : awaitingReply st !! msgId st = None).
  { destruct (awaitingReply st !! msgId st) as [e|] eqn:E; [|done].
    destruct (Hk _ _ E) as [?|[_ ?]]; lia. }
  apply send_returns in Hsend as (c' & h & E & Hu & Hd & Ho & Hw & -> & ->).
  split; [exact Hfree|]. simpl. split; [by rewrite lookup_insert_eq|].
  intros id e He. rewrite lookup_insert_ne; [done|]. intros <-. congruence.
Qed.

End PendingKeys.

(** ** The earlier revision *)

(** X20, the earlier revision without debugging: a valid request on an open
    transport raises the [TypeError] of calling [false]; the id is used up,
    nothing is handed to the transport and no promise is returned. *)
Theorem earlier_send_needs_debug st c payload replyTimeout :
  destroyed st = false -> isOpen st = true -> userCommand c ->
  debug st = false ->
  Earlier.send (VString c) payload replyTimeout st =
    (Throw (TypeError "this.debug is not a function"),
     set_msgId (increment (msgId st)) st).
Proof.
  intros Hd Ho [Hp Hr] Hdebug. unfold isOpen in Ho.
  unfold Earlier.send, Earlier.debugLog.
  repeat (progress (method; rewrite ?Hd, ?Ho, ?Hp, ?Hdebug)).
  rewrite bool_decide_eq_false_2 by done.
  repeat (progress (method; rewrite ?Hd, ?Ho, ?Hp, ?Hdebug)). done.
Qed.

(** X21, the timeout of the earlier revision: with debugging on, [send]
    returns a pending promise and arms a timer that carries no error; when
    it fires the promise is rejected with [undefined]. *)
Theorem earlier_timeout_rejects_with_undefined st c payload replyTimeout :
  destroyed st = false -> isOpen st = true -> userCommand c ->
  debug st = true ->
  let p := nextPromise st in
  let t := nextTimer st in
  exists st1,
    Earlier.send (VString c) payload replyTimeout st = (Return (Some p), st1) /\
    timers st1 !! t =
      Some (mkTimer (CallFunction (Priv (PromiseReject p)))
                    (Pub (orDefault replyTimeout (VNumber 2000))) []) /\
    promises st1 !! p = Some Pending /\
    promises (fireTimer t st1).2 !! p = Some (Rejected VUndefined).
Proof.
  intros Hd Ho [Hp Hr] Hdebug p t. subst p t.
  destruct (isOpen_ws _ Ho) as [h Hw]. unfold isOpen in Ho.
  unfold Earlier.send, Earlier.debugLog, setTimeout, arm, newPromise, ws_send.
  repeat (progress (method; rewrite ?Hd, ?Ho, ?Hp, ?Hw, ?Hdebug)).
  rewrite bool_decide_eq_false_2 by done.
  repeat (progress (method; rewrite ?Hd, ?Ho, ?Hp, ?Hw, ?Hdebug)).
  eexists. split; [reflexivity|]. simpl. rewrite !lookup_insert_eq.
  split; [done|]. split; [done|].
  unfold fireTimer, clearTimeout, promiseReject, settle. method.
  rewrite !lookup_insert_eq. method. by rewrite settled_lookup_eq, lookup_insert_eq.
Qed.

(** ** Examples *)

Lemma sampleOpen_reachable' : reachable sampleParse' sampleOpen.
Proof.
  exists NodeJS, connecting, sampleOptions,
         [Transport_state 1 OPEN; Transport_event 1 OnOpen].
  reflexivity.
Defined.

Lemma request_reply_round_trip_witness :
  promises (onMessage sampleParse (TextData replyFrame0) samplePending).2 !! 0%nat =
    Some (Fulfilled (VNumber 1)).
Proof.
  destruct (request_reply_round_trip sampleParse sampleOpen "echo" VNull (VNumber 50)
              0%nat samplePending replyFrame0
              (VObject [("cmd", VString "int:reply"); ("payload", VNumber 1);
                        ("id", VNumber 0)])
              eq_refl eq_refl eq_refl) as (_ & Hreply & _).
  exact (proj1 (proj2 (Hreply eq_refl))).
Defined.

Lemma binary_reply_round_trip_witness :
  promises (onMessage sampleParse (BinaryData ArrayBuffer sampleBytes)
              (onMessage sampleParse (TextData binaryReplyFrame0) samplePending).2).2
    !! 0%nat = Some (Fulfilled (VBinary ArrayBuffer sampleBytes)).
Proof.
  destruct (binary_reply_round_trip sampleParse sampleOpen "echo" VNull (VNumber 50)
              0%nat samplePending binaryReplyFrame0
              (VObject [("cmd", VString "int:binaryReply"); ("id", VNumber 0)])
              ArrayBuffer sampleBytes eq_refl eq_refl eq_refl eq_refl)
    as (_ & _ & _ & _ & _ & H & _).
  exact H.
Defined.

Lemma binary_reply_times_out_witness :
  promises (onMessage sampleParse (BinaryData ArrayBuffer sampleBytes)
              (fireTimer 0
                 (onMessage sampleParse (TextData binaryReplyFrame0) samplePending).2).2).2
    !! 0%nat = Some (Rejected (replyTimeoutError "echo" (VNumber 50))).
Proof.
  destruct (binary_reply_times_out sampleParse sampleOpen "echo" VNull (VNumber 50)
              0%nat samplePending binaryReplyFrame0
              (VObject [("cmd", VString "int:binaryReply"); ("id", VNumber 0)])
              ArrayBuffer sampleBytes eq_refl eq_refl eq_refl eq_refl)
    as (_ & _ & _ & H & _).
  exact H.
Defined.

Lemma second_marker_replaces_first_witness :
  let st1 := (onMessage sampleParse' (TextData binaryReplyFrame0) sampleTwoPending).2 in
  let st2 := (onMessage sampleParse' (TextData binaryReplyFrame1) st1).2 in
  let st3 := (onMessage sampleParse' (BinaryData ArrayBuffer sampleBytes) st2).2 in
  promises st3 !! 1%nat = Some (Fulfilled (VBinary ArrayBuffer sampleBytes)) /\
  promises st3 !! 0%nat = Some Pending.
Proof.
  destruct (second_marker_replaces_first sampleParse' sampleTwoPending 0 1
              0%nat 0%nat 1%nat 1%nat
              binaryReplyFrame0
              (VObject [("cmd", VString "int:binaryReply"); ("id", VNumber 0)])
              binaryReplyFrame1
              (VObject [("cmd", VString "int:binaryReply"); ("id", VNumber 1)])
              ArrayBuffer sampleBytes
              eq_refl ltac:(discriminate) ltac:(discriminate)
              eq_refl eq_refl eq_refl eq_refl eq_refl eq_refl eq_refl
              eq_refl eq_refl eq_refl)
    as (_ & _ & H2 & H1 & _).
  exact (conj H2 H1).
Defined.

Lemma late_reply_after_timeout_witness :
  let fired := (fireTimer 0 samplePending).2 in
  let late := onMessage sampleParse (TextData replyFrame0) fired in
  promises late.2 !! 0%nat = Some (Rejected (replyTimeoutError "echo" (VNumber 50))) /\
  awaitingReply late.2 !! 0 = None.
Proof.
  destruct (late_reply_after_timeout sampleParse samplePending 0 0%nat 0%nat
              (Pub (VNumber 50)) (replyTimeoutError "echo" (VNumber 50))
              replyFrame0
              (VObject [("cmd", VString "int:reply"); ("payload", VNumber 1);
                        ("id", VNumber 0)])
              eq_refl eq_refl eq_refl eq_refl eq_refl (or_introl eq_refl) eq_refl)
    as (Hp & _ & _ & Hsame & Hmap).
  cbv zeta. rewrite Hsame, Hmap. split; [exact Hp|reflexivity].
Defined.

Lemma settled_promise_is_final_witness :
  promises (run sampleParse [Timer_fires 0; Call_destroy] sampleReplied) !! 0%nat =
    Some (Fulfilled (VNumber 1)).
Proof.
  apply (settled_promise_is_final sampleParse sampleReplied 0%nat (Fulfilled (VNumber 1))
           [Timer_fires 0; Call_destroy]).
  - apply reachable_run, samplePending_reachable.
  - reflexivity.
  - discriminate.
Defined.

Lemma binary_frame_never_throws_witness :
  (onMessage sampleParse (BinaryData ArrayBuffer sampleBytes) sampleOpen).1 = Return tt.
Proof.
  destruct (binary_frame_never_throws sampleParse sampleOpen ArrayBuffer sampleBytes
              sampleOpen_reachable) as (logs & st' & E & _).
  rewrite E. reflexivity.
Defined.

Lemma reply_helper_sends_the_result_witness :
  out (replyFunc (VNumber 3) (VFunction (UserThunk false (VNumber 5))) VUndefined
         sampleOpen).2 =
    [WsSend 1 (JSON_stringify (envelope (VString "int:reply") (VNumber 5) (VNumber 3))
                              VUndefined)].
Proof.
  rewrite (reply_helper_sends_the_result sampleOpen 1%nat (VNumber 3)
             (VFunction (UserThunk false (VNumber 5))) VUndefined (VNumber 5)
             eq_refl eq_refl eq_refl).
  - reflexivity.
  - apply yields_thunk. discriminate.
  - intros [].
Defined.

Lemma reply_helper_reports_the_failure_witness :
  out (replyFunc (VNumber 3) (VThenable true (VString "boom")) VUndefined sampleOpen).2 =
    [WsSend 1 (JSON_stringify
                 (envelope (VString "int:errorReply") (VString "boom") (VNumber 3))
                 VUndefined)].
Proof.
  rewrite (reply_helper_reports_the_failure sampleOpen 1%nat (VNumber 3)
             (VThenable true (VString "boom")) VUndefined (VString "boom")
             eq_refl eq_refl eq_refl).
  - reflexivity.
  - apply fails_thenable.
  - intros [].
Defined.

Lemma reply_helper_rejects_only_binary_failures_witness :
  (replyFunc (VNumber 3) (VThenable true (VBinary ArrayBuffer sampleBytes)) VUndefined
     sampleOpen).1 = Throw binaryErrorRefused /\
  exists failure,
    fails (VThenable true (VBinary ArrayBuffer sampleBytes)) failure /\
    isBinaryPayload failure.
Proof.
  split; [reflexivity|].
  destruct (reply_helper_rejects_only_binary_failures sampleOpen (VNumber 3)
              (VThenable true (VBinary ArrayBuffer sampleBytes)) VUndefined
              binaryErrorRefused
              (replyFunc (VNumber 3) (VThenable true (VBinary ArrayBuffer sampleBytes))
                 VUndefined sampleOpen).2 eq_refl) as (_ & failure & Hf & Hb & _).
  by exists failure.
Defined.

Lemma destroyed_endpoint_is_silent_witness :
  wire (out (run sampleParse
               [Call_send (VString "echo") VNull VUndefined;
                Call_reply (VNumber 3) (VNumber 5) VUndefined;
                Transport_event 1 (OnMessage (TextData commandFrame));
                Call_destroy]
               sampleDestroyed)) = [WsClose 1].
Proof.
  destruct (destroyed_endpoint_is_silent sampleParse sampleDestroyed
              [Call_send (VString "echo") VNull VUndefined;
               Call_reply (VNumber 3) (VNumber 5) VUndefined;
               Transport_event 1 (OnMessage (TextData commandFrame));
               Call_destroy] eq_refl) as (_ & H & _).
  rewrite H. reflexivity.
Defined.



Lemma rebinding_detaches_the_old_transport_witness :
  let st' := (changeWebSocket 2 sampleSecond).2 in
  ws st' = Some 2%nat /\
  dispatch sampleParse 1 (OnMessage (TextData commandFrame)) st' = (Return tt, st').
Proof.
  destruct (rebinding_detaches_the_old_transport sampleParse sampleSecond 1%nat 2%nat
              (mkSocket CONNECTING None []))
    as (Hw & _ & _ & Hd); try reflexivity; try discriminate.
  split; [exact Hw|apply Hd].
Defined.

Lemma constructor_binds_the_transport_witness :
  (constructor NodeJS connecting sampleOptions).1 = Return tt /\
  sockets (constructor NodeJS connecting sampleOptions).2 =
    {[ 1%nat := mkSocket CONNECTING (Some "nodebuffer") wsListenerOptions ]}.
Proof.
  destruct (constructor_binds_the_transport NodeJS connecting sampleOptions 1%nat
              (mkSocket CONNECTING None []) eq_refl eq_refl eq_refl)
    as (_ & Hs & Hr & _).
  split.
  - apply Hr. right. split; discriminate.
  - rewrite Hs. reflexivity.
Defined.





Lemma earlier_send_needs_debug_witness :
  Earlier.send (VString "echo") VNull VUndefined sampleOpen =
    (Throw (TypeError "this.debug is not a function"), set_msgId 1 sampleOpen).
Proof.
  apply (earlier_send_needs_debug sampleOpen "echo" VNull VUndefined);
    try reflexivity.
  apply userCommand_echo.
Defined.

Lemma earlier_timeout_rejects_with_undefined_witness :
  let st := set_debug true sampleOpen in
  exists st1,
    Earlier.send (VString "echo") VNull VUndefined st = (Return (Some 0%nat), st1) /\
    promises (fireTimer 0 st1).2 !! 0%nat = Some (Rejected VUndefined).
Proof.
  destruct (earlier_timeout_rejects_with_undefined (set_debug true sampleOpen)
              "echo" VNull VUndefined eq_refl eq_refl userCommand_echo eq_refl)
    as (st1 & E & _ & _ & H).
  exists st1. split; [exact E|exact H].
Defined.

Lemma next_id_is_free_witness :
  let st1 := (send (VString "sum") VNull VUndefined samplePending).2 in
  awaitingReply st1 !! 0 = Some (wrappers 0 0) /\
  awaitingReply st1 !! 1 = Some (wrappers 1 1).
Proof.
  destruct (next_id_is_free sampleParse samplePending "sum" VNull VUndefined 1%nat
              (send (VString "sum") VNull VUndefined samplePending).2
              samplePending_reachable eq_refl eq_refl) as (_ & Hnew & Hold).
  split; [apply Hold; reflexivity|exact Hnew].
Defined.
